(** * InfiniteLagrangeDiscord: credential custody bot and approval console

    A shallow embedding of [discord_bot.py] (the chat commands, the
    process-local session table) and [approval_console.py] (the moderator's
    queue resolution), followed by the properties of the access-grant
    protocol, the session registry and the moderation queue.

    Conventions of the embedding:
    - a [datetime] is a [Z] counting microseconds, a [timedelta] likewise;
    - a table is the list of its rows in insertion order, each paired with
      its AUTO_INCREMENT id; [fetchone] is the first selected row;
    - a command runs in a small state-and-exception monad over the process
      state; every [ctx.send], direct message, [cur.execute] and
      [conn.commit] is appended to a trace, in program order;
    - a pooled connection opened with [autocommit=False] works on its own
      view of the database, published by [conn.commit()];
    - [step] and [run] take commands one at a time, each to its end; the
      one interleaving of coroutines that is modelled, two registrations
      suspended at an [await], is under "Commands in flight". *)

From stdpp Require Import gmap strings list pretty sorting.
From Stdlib Require Import ZArith Lia.

Local Open Scope Z_scope.

(** ** Data model *)

(** [@dataclass class LoginSession]. *)
Record LoginSession := {
  username : string;
  expires_at : Z;
}.

(** [SESSION_DURATION = timedelta(hours=2)], in microseconds. *)
Definition microseconds_per_hour : Z := 3600 * 1000000.
Definition SESSION_DURATION : Z := 2 * microseconds_per_hour.

(** Rows of the six tables, with the columns the two programs name. *)
Record User := {
  u_username : string;
  u_passhash : string;
}.

Record PendingUser := {
  pu_username : string;
  pu_passhash : string;
  pu_requested_by : string;
  pu_created_at : Z;
}.

Record GameAccount := {
  ga_uploader_username : string;
  ga_game : string;
  ga_game_username_hash : string;
  ga_game_password_hash : string;
}.

Record PendingGameAccount := {
  pga_uploader_username : string;
  pga_game : string;
  pga_game_username_hash : string;
  pga_game_password_hash : string;
  pga_created_at : Z;
}.

Record AccessRequest := {
  ar_account_id : Z;
  ar_username : string;
  ar_requested_by : string;
}.

Record AccessGrant := {
  ag_account_id : Z;
  ag_username : string;
  ag_granted_by : string;
}.

(** A table: rows in insertion order, each with its id, and the next
    AUTO_INCREMENT value. *)
Record Table (A : Type) := {
  rows : list (Z * A);
  auto_increment : Z;
}.
Arguments rows {A} _.
Arguments auto_increment {A} _.

Definition empty_table {A} : Table A := {| rows := []; auto_increment := 1 |}.

Definition insert_row {A} (a : A) (t : Table A) : Table A :=
  {| rows := rows t ++ [(auto_increment t, a)];
     auto_increment := auto_increment t + 1 |}.

Definition insert_rows {A} (l : list A) (t : Table A) : Table A :=
  foldl (λ t a, insert_row a t) t l.

Definition select_where {A} (P : Z * A → Prop) `{∀ r, Decision (P r)}
    (t : Table A) : list (Z * A) :=
  filter P (rows t).

Definition delete_where {A} (P : Z * A → Prop) `{∀ r, Decision (P r)}
    (t : Table A) : Table A :=
  {| rows := filter (λ r, ¬ P r) (rows t);
     auto_increment := auto_increment t |}.

(** [cur.fetchone()]: the first row of the result, or [None]. *)
Definition fetchone {A} (result : list A) : option A := head result.

Record DB := {
  users : Table User;
  pending_users : Table PendingUser;
  game_accounts : Table GameAccount;
  pending_game_accounts : Table PendingGameAccount;
  access_requests : Table AccessRequest;
  access_grants : Table AccessGrant;
}.

Definition empty_db : DB :=
  {| users := empty_table; pending_users := empty_table;
     game_accounts := empty_table; pending_game_accounts := empty_table;
     access_requests := empty_table; access_grants := empty_table |}.

Definition with_users (f : Table User → Table User) (d : DB) : DB :=
  {| users := f (users d); pending_users := pending_users d;
     game_accounts := game_accounts d;
     pending_game_accounts := pending_game_accounts d;
     access_requests := access_requests d; access_grants := access_grants d |}.

Definition with_pending_users (f : Table PendingUser → Table PendingUser)
    (d : DB) : DB :=
  {| users := users d; pending_users := f (pending_users d);
     game_accounts := game_accounts d;
     pending_game_accounts := pending_game_accounts d;
     access_requests := access_requests d; access_grants := access_grants d |}.

Definition with_game_accounts (f : Table GameAccount → Table GameAccount)
    (d : DB) : DB :=
  {| users := users d; pending_users := pending_users d;
     game_accounts := f (game_accounts d);
     pending_game_accounts := pending_game_accounts d;
     access_requests := access_requests d; access_grants := access_grants d |}.

Definition with_pending_game_accounts
    (f : Table PendingGameAccount → Table PendingGameAccount) (d : DB) : DB :=
  {| users := users d; pending_users := pending_users d;
     game_accounts := game_accounts d;
     pending_game_accounts := f (pending_game_accounts d);
     access_requests := access_requests d; access_grants := access_grants d |}.

Definition with_access_requests
    (f : Table AccessRequest → Table AccessRequest) (d : DB) : DB :=
  {| users := users d; pending_users := pending_users d;
     game_accounts := game_accounts d;
     pending_game_accounts := pending_game_accounts d;
     access_requests := f (access_requests d); access_grants := access_grants d |}.

Definition with_access_grants (f : Table AccessGrant → Table AccessGrant)
    (d : DB) : DB :=
  {| users := users d; pending_users := pending_users d;
     game_accounts := game_accounts d;
     pending_game_accounts := pending_game_accounts d;
     access_requests := access_requests d; access_grants := f (access_grants d) |}.

(** ** The bot's replies and the error taxonomy *)

(** One constructor per [ctx.send] of [discord_bot.py]. *)
Inductive Reply :=
  | UsernameAlreadyRegistered
  | RegistrationAlreadyPending
  | RegistrationSubmitted
  | NoApprovedAccount
  | InvalidCredentials
  | LoginSuccessful
  | LoggedOut
  | PleaseLoginFirst
  | UploadSubmitted
  | NoSharedAccounts
  | SharedAccounts (lines : list string)
  | ProvideAtLeastOneUsername
  | AccountNotFoundOrNotOwned
  | UserNotRegistered (who : string)
  | AccessRequestsSent
  | NoPendingAccessRequestFound
  | AccessConfirmed
  | UserDoesNotHaveConfirmedAccess
  | RecipientNotFound
  | AccountDetailsShared
  | NoPendingAccessRequests
  | PendingAccessRequests (accounts : string).

Definition newline : string := String (Ascii.ascii_of_nat 10) EmptyString.

Definition render (r : Reply) : string :=
  match r with
  | UsernameAlreadyRegistered => "Username already registered."
  | RegistrationAlreadyPending => "Registration already pending approval."
  | RegistrationSubmitted => "Registration submitted for approval."
  | NoApprovedAccount => "No approved account found."
  | InvalidCredentials => "Invalid credentials."
  | LoginSuccessful => "Login successful."
  | LoggedOut => "Logged out."
  | PleaseLoginFirst => "Please login first."
  | UploadSubmitted => "Game account upload submitted for approval."
  | NoSharedAccounts => "No shared accounts found."
  | SharedAccounts lines =>
      "Shared accounts:" +:+ newline +:+ String.concat newline lines
  | ProvideAtLeastOneUsername => "Provide at least one username to grant access."
  | AccountNotFoundOrNotOwned => "Account not found or not owned by you."
  | UserNotRegistered who => "User " +:+ who +:+ " is not registered."
  | AccessRequestsSent =>
      "Access requests sent. Users must confirm with !confirm_access."
  | NoPendingAccessRequestFound => "No pending access request found."
  | AccessConfirmed =>
      "Access confirmed. Ask the uploader to share the account details."
  | UserDoesNotHaveConfirmedAccess => "User does not have confirmed access."
  | RecipientNotFound => "Recipient not found in this server."
  | AccountDetailsShared => "Account details shared via DM."
  | NoPendingAccessRequests => "No pending access requests."
  | PendingAccessRequests accounts =>
      "Pending access requests for account IDs: " +:+ accounts
  end.

(** The specification's error classes. The program has no exception classes
    for them: a failure is the reply it sends before returning. *)
Inductive Error :=
  | AuthError
  | OwnershipError
  | NotFoundError
  | DuplicateError
  | ValidationError.

(** The class a reply stands for; [None] for a success message, for a
    per-grantee notice, for the two refusals of [login] (which the
    specification does not class) and for a failure outside the classes. *)
Definition error_of (r : Reply) : option Error :=
  match r with
  | PleaseLoginFirst => Some AuthError
  | AccountNotFoundOrNotOwned => Some OwnershipError
  | NoPendingAccessRequestFound => Some NotFoundError
  | UserDoesNotHaveConfirmedAccess => Some NotFoundError
  | UsernameAlreadyRegistered => Some DuplicateError
  | RegistrationAlreadyPending => Some DuplicateError
  | ProvideAtLeastOneUsername => Some ValidationError
  | _ => None
  end.

(** ** Process state and the command monad *)

(** What a command does that the outside can see, in program order. *)
Inductive Event :=
  | CtxSend (reply : Reply)                        (* await ctx.send(...) *)
  | DirectMessage (recipient : Z) (text : string)  (* await recipient.send(...) *)
  | Execute (sql : string)                         (* await cur.execute(...) *)
  | Commit                                         (* await conn.commit() *)
  | Print (line : string).                         (* print(...), console *)

Inductive Exn :=
  | AttributeError
  | IntegrityError.

(** The deployment: the bot's module-level [sessions] dict, the database
    as committed, the view of the connection in use, and the trace so far.
    The console is a second process on the same database; it has no
    [sessions] and leaves the field alone. *)
Record World := {
  sessions : gmap Z LoginSession;
  db : DB;
  conn : DB;
  trace : list Event;
}.

Inductive Res (A : Type) :=
  | Ok (a : A)
  | Raise (e : Exn).
Arguments Ok {A} _.
Arguments Raise {A} _.

Definition M (A : Type) : Type := World → Res A * World.

#[global] Instance M_ret : MRet M := λ A a w, (Ok a, w).

#[global] Instance M_bind : MBind M := λ A B f m w,
  match m w with
  | (Ok a, w') => f a w'
  | (Raise e, w') => (Raise e, w')
  end.

Definition raise {A} (e : Exn) : M A := λ w, (Raise e, w).

Definition emit (ev : Event) : M unit := λ w,
  (Ok (), {| sessions := sessions w; db := db w; conn := conn w;
             trace := trace w ++ [ev] |}).

Definition send (r : Reply) : M unit := emit (CtxSend r).

Definition get_sessions : M (gmap Z LoginSession) := λ w, (Ok (sessions w), w).

Definition set_sessions (ss : gmap Z LoginSession) : M unit := λ w,
  (Ok (), {| sessions := ss; db := db w; conn := conn w; trace := trace w |}).

(** [async with pool.acquire() as conn]: a connection that sees the
    committed database. *)
Definition acquire : M unit := λ w,
  (Ok (), {| sessions := sessions w; db := db w; conn := db w;
             trace := trace w |}).

(** [cur.execute] of a SELECT, with the result set it leaves in the cursor. *)
Definition query {A} (sql : string) (q : DB → A) : M A := λ w,
  (Ok (q (conn w)),
   {| sessions := sessions w; db := db w; conn := conn w;
      trace := trace w ++ [Execute sql] |}).

(** [cur.execute] of an INSERT or DELETE, on the connection's view. *)
Definition execute (sql : string) (f : DB → DB) : M unit := λ w,
  (Ok (), {| sessions := sessions w; db := db w; conn := f (conn w);
             trace := trace w ++ [Execute sql] |}).

Definition commit : M unit := λ w,
  (Ok (), {| sessions := sessions w; db := conn w; conn := conn w;
             trace := trace w ++ [Commit] |}).

Definition pass : M unit := mret ().

Fixpoint for_each {A} (l : list A) (body : A → M unit) : M unit :=
  match l with
  | [] => pass
  | x :: l => body x ;; for_each l body
  end.

(** ** The invocation context *)

Record Member := {
  member_id : Z;
  name : string;
}.

(** [commands.Context]: [ctx.author.id] and [ctx.guild.members]; [guild]
    is [None] for a command sent outside a server. *)
Record Context := {
  author_id : Z;
  guild : option (list Member);
}.

(** What a command reads from its surroundings: the context, the clock
    ([datetime.utcnow()], read at most once per command) and the salts
    [bcrypt.gensalt()] draws, by call number. *)
Record Env := {
  ctx : Context;
  utcnow : Z;
  gensalt : nat → string;
}.

(** [bcrypt.hashpw] and [bcrypt.checkpw], opaque. *)
Class Bcrypt := {
  hashpw : string → string → string;
  checkpw : string → string → bool;
}.

Definition hash_secret `{Bcrypt} (value salt : string) : string :=
  hashpw value salt.

Definition verify_secret `{Bcrypt} (value hashed : string) : bool :=
  checkpw value hashed.

(** [discord.utils.get(members, name=...)]: the first member of that name. *)
Definition get_by_name (members : list Member) (wanted : string)
    : option Member :=
  head (filter (λ m, name m = wanted) members).

(** [ctx.guild.members]; attribute access on [None] raises. *)
Definition guild_members (c : Context) : M (list Member) :=
  match guild c with
  | Some members => mret members
  | None => raise AttributeError
  end.

(** Modelled from the spec: the table definitions are not in the sources.
    Neither INSERT into a pending table sets [created_at], which the console
    orders by; the specification calls it the submission timestamp, so the
    column defaults to the time of the INSERT. *)
Definition submission_timestamp (e : Env) : Z := utcnow e.

(** ** discord_bot.py *)

Definition fetch_user (username : string) : M (option (Z * User)) :=
  acquire ;;
  query "SELECT id, username, passhash FROM users WHERE username = %s"
    (λ d, fetchone (select_where (λ r, u_username r.2 = username) (users d))).

Definition is_logged_in (now : Z) (user_id : Z) : M (option LoginSession) :=
  ss ← get_sessions;
  match ss !! user_id with
  | None => mret None
  | Some session =>
      if decide (expires_at session < now) then
        set_sessions (delete user_id ss) ;; mret None
      else mret (Some session)
  end.

Definition register `{Bcrypt} (e : Env) (username password : string) : M unit :=
  let hashed := hash_secret password (gensalt e 0) in
  acquire ;;
  found ← query "SELECT 1 FROM users WHERE username = %s"
    (λ d, fetchone (select_where (λ r, u_username r.2 = username) (users d)));
  match found with
  | Some _ => send UsernameAlreadyRegistered
  | None =>
      found ← query "SELECT 1 FROM pending_users WHERE username = %s"
        (λ d, fetchone (select_where (λ r, pu_username r.2 = username)
                          (pending_users d)));
      match found with
      | Some _ => send RegistrationAlreadyPending
      | None =>
          execute "INSERT INTO pending_users (username, passhash, requested_by) VALUES (%s, %s, %s)"
            (with_pending_users (insert_row
               {| pu_username := username; pu_passhash := hashed;
                  pu_requested_by := pretty (author_id (ctx e));
                  pu_created_at := submission_timestamp e |})) ;;
          commit ;;
          send RegistrationSubmitted
      end
  end.

(** A hash is kept as the string of its bytes, so the [encode] of a
    [passhash] that comes back as [str] changes nothing here. *)
Definition login `{Bcrypt} (e : Env) (username password : string) : M unit :=
  user ← fetch_user username;
  match user with
  | None => send NoApprovedAccount
  | Some user =>
      let stored_hash := u_passhash user.2 in
      if verify_secret password stored_hash then
        ss ← get_sessions;
        set_sessions (<[author_id (ctx e) :=
          {| username := username;
             expires_at := utcnow e + SESSION_DURATION |}]> ss) ;;
        send LoginSuccessful
      else send InvalidCredentials
  end.

Definition logout (e : Env) : M unit :=
  ss ← get_sessions;
  set_sessions (delete (author_id (ctx e)) ss) ;;
  send LoggedOut.

Definition upload_account `{Bcrypt} (e : Env)
    (game game_username game_password : string) : M unit :=
  session ← is_logged_in (utcnow e) (author_id (ctx e));
  match session with
  | None => send PleaseLoginFirst
  | Some session =>
      let hashed_username := hash_secret game_username (gensalt e 0) in
      let hashed_password := hash_secret game_password (gensalt e 1) in
      acquire ;;
      execute "INSERT INTO pending_game_accounts (uploader_username, game, game_username_hash, game_password_hash) VALUES (%s, %s, %s, %s)"
        (with_pending_game_accounts (insert_row
           {| pga_uploader_username := username session; pga_game := game;
              pga_game_username_hash := hashed_username;
              pga_game_password_hash := hashed_password;
              pga_created_at := submission_timestamp e |})) ;;
      commit ;;
      send UploadSubmitted
  end.

(** The rows of [access_grants JOIN game_accounts ON ga.id = ag.account_id
    WHERE ag.username = who], as [(ga.id, ga.game)]. *)
Definition shared_accounts (who : string) (d : DB) : list (Z * string) :=
  ag ← select_where (λ r, ag_username r.2 = who) (access_grants d);
  ga ← select_where (λ r, r.1 = ag_account_id ag.2) (game_accounts d);
  [(ga.1, ga_game ga.2)].

Definition list_accounts (e : Env) : M unit :=
  session ← is_logged_in (utcnow e) (author_id (ctx e));
  match session with
  | None => send PleaseLoginFirst
  | Some session =>
      acquire ;;
      rows ← query "SELECT ga.id, ga.game FROM access_grants ag JOIN game_accounts ga ON ga.id = ag.account_id WHERE ag.username = %s"
        (shared_accounts (username session));
      match rows with
      | [] => send NoSharedAccounts
      | _ =>
          send (SharedAccounts
                  ((λ row : Z * string, "ID " +:+ pretty row.1 +:+ ": " +:+ row.2)
                     <$> rows))
      end
  end.

Definition grant_access (e : Env) (account_id : Z) (usernames : list string)
    : M unit :=
  session ← is_logged_in (utcnow e) (author_id (ctx e));
  match session with
  | None => send PleaseLoginFirst
  | Some session =>
      match usernames with
      | [] => send ProvideAtLeastOneUsername
      | _ =>
          let requested_by := username session in
          acquire ;;
          account ← query "SELECT id FROM game_accounts WHERE id = %s AND uploader_username = %s"
            (λ d, fetchone (select_where
                    (λ r, r.1 = account_id ∧ ga_uploader_username r.2 = requested_by)
                    (game_accounts d)));
          match account with
          | None => send AccountNotFoundOrNotOwned
          | Some _ =>
              for_each usernames (λ username,
                found ← query "SELECT 1 FROM users WHERE username = %s"
                  (λ d, fetchone (select_where (λ r, u_username r.2 = username)
                                    (users d)));
                match found with
                | None => send (UserNotRegistered username)
                | Some _ =>
                    execute "INSERT INTO access_requests (account_id, username, requested_by) VALUES (%s, %s, %s)"
                      (with_access_requests (insert_row
                         {| ar_account_id := account_id; ar_username := username;
                            ar_requested_by := requested_by |}))
                end) ;;
              commit ;;
              send AccessRequestsSent
          end
      end
  end.

Definition confirm_access (e : Env) (account_id : Z) : M unit :=
  session ← is_logged_in (utcnow e) (author_id (ctx e));
  match session with
  | None => send PleaseLoginFirst
  | Some session =>
      acquire ;;
      row ← query "SELECT id, requested_by FROM access_requests WHERE account_id = %s AND username = %s"
        (λ d, fetchone (select_where
                (λ r, ar_account_id r.2 = account_id
                      ∧ ar_username r.2 = username session)
                (access_requests d)));
      match row with
      | None => send NoPendingAccessRequestFound
      | Some row =>
          execute "INSERT INTO access_grants (account_id, username, granted_by) VALUES (%s, %s, %s)"
            (with_access_grants (insert_row
               {| ag_account_id := account_id; ag_username := username session;
                  ag_granted_by := ar_requested_by row.2 |})) ;;
          execute "DELETE FROM access_requests WHERE id = %s"
            (with_access_requests (delete_where (λ r, r.1 = row.1))) ;;
          commit ;;
          send AccessConfirmed
      end
  end.

(** The text of the direct message of [share_account]. *)
Definition shared_details (game from game_username game_password : string)
    : string :=
  "Shared " +:+ game +:+ " account from " +:+ from +:+ ":" +:+ newline
  +:+ "Username: " +:+ game_username +:+ newline
  +:+ "Password: " +:+ game_password.

Definition share_account (e : Env) (account_id : Z)
    (target_username game_username game_password : string) : M unit :=
  session ← is_logged_in (utcnow e) (author_id (ctx e));
  match session with
  | None => send PleaseLoginFirst
  | Some session =>
      acquire ;;
      account ← query "SELECT id, game FROM game_accounts WHERE id = %s AND uploader_username = %s"
        (λ d, fetchone (select_where
                (λ r, r.1 = account_id
                      ∧ ga_uploader_username r.2 = username session)
                (game_accounts d)));
      match account with
      | None => send AccountNotFoundOrNotOwned
      | Some account =>
          granted ← query "SELECT 1 FROM access_grants WHERE account_id = %s AND username = %s"
            (λ d, fetchone (select_where
                    (λ r, ag_account_id r.2 = account_id
                          ∧ ag_username r.2 = target_username)
                    (access_grants d)));
          match granted with
          | None => send UserDoesNotHaveConfirmedAccess
          | Some _ =>
              members ← guild_members (ctx e);
              match get_by_name members target_username with
              | None => send RecipientNotFound
              | Some recipient =>
                  emit (DirectMessage (member_id recipient)
                          (shared_details (ga_game account.2) (username session)
                             game_username game_password)) ;;
                  send AccountDetailsShared
              end
          end
      end
  end.

Definition pending_access (e : Env) : M unit :=
  session ← is_logged_in (utcnow e) (author_id (ctx e));
  match session with
  | None => send PleaseLoginFirst
  | Some session =>
      acquire ;;
      rows ← query "SELECT account_id FROM access_requests WHERE username = %s"
        (λ d, select_where (λ r, ar_username r.2 = username session)
                (access_requests d));
      match rows with
      | [] => send NoPendingAccessRequests
      | _ =>
          send (PendingAccessRequests
                  (String.concat ", "
                     ((λ row : Z * AccessRequest, pretty (ar_account_id row.2))
                        <$> rows)))
      end
  end.

(** The command table of the bot. *)
Inductive Command :=
  | Register (username password : string)
  | Login (username password : string)
  | Logout
  | UploadAccount (game game_username game_password : string)
  | ListAccounts
  | GrantAccess (account_id : Z) (usernames : list string)
  | ConfirmAccess (account_id : Z)
  | ShareAccount (account_id : Z)
      (target_username game_username game_password : string)
  | PendingAccess.

Definition invoke `{Bcrypt} (e : Env) (c : Command) : M unit :=
  match c with
  | Register username password => register e username password
  | Login username password => login e username password
  | Logout => logout e
  | UploadAccount game game_username game_password =>
      upload_account e game game_username game_password
  | ListAccounts => list_accounts e
  | GrantAccess account_id usernames => grant_access e account_id usernames
  | ConfirmAccess account_id => confirm_access e account_id
  | ShareAccount account_id target_username game_username game_password =>
      share_account e account_id target_username game_username game_password
  | PendingAccess => pending_access e
  end.

(** The commands behind the login check. *)
Definition protected (c : Command) : bool :=
  match c with
  | Register _ _ | Login _ _ | Logout => false
  | _ => true
  end.

(** ** approval_console.py *)

Definition print (line : string) : M unit := emit (Print line).

(** [build_in_clause]: one placeholder per value. *)
Definition build_in_clause (values : list Z) : string :=
  "(" +:+ String.concat ", " (replicate (length values) "%s") +:+ ")".

(** Modelled from the spec: the table definitions are not in the sources;
    the specification's schema has [users(username unique, passhash)] and no
    other uniqueness besides the ids. An INSERT of [new] rows into [users]
    that would repeat a username is refused as a whole. *)
Definition users_accepts (t : Table User) (new : list User) : Prop :=
  NoDup (u_username <$> new)
  ∧ Forall (λ u, u_username u ∉ (u_username ∘ snd <$> rows t)) new.

#[global] Instance users_accepts_dec t new : Decision (users_accepts t new).
Proof. unfold users_accepts. apply _. Defined.

(** [INSERT INTO users (username, passhash) SELECT username, passhash FROM
    pending_users WHERE id IN (...)]. *)
Definition insert_users_select (sql : string) (ids : list Z) : M unit := λ w,
  let selected :=
    (λ r : Z * PendingUser,
       {| u_username := pu_username r.2; u_passhash := pu_passhash r.2 |})
      <$> select_where (λ r, r.1 ∈ ids) (pending_users (conn w)) in
  if decide (users_accepts (users (conn w)) selected) then
    execute sql (with_users (insert_rows selected)) w
  else (emit (Execute sql) ;; raise IntegrityError) w.

(** [INSERT INTO game_accounts (...) SELECT ... FROM pending_game_accounts
    WHERE id IN (...)]. *)
Definition insert_game_accounts_select (sql : string) (ids : list Z) : M unit :=
  execute sql (λ d,
    with_game_accounts (insert_rows
      ((λ r : Z * PendingGameAccount,
          {| ga_uploader_username := pga_uploader_username r.2;
             ga_game := pga_game r.2;
             ga_game_username_hash := pga_game_username_hash r.2;
             ga_game_password_hash := pga_game_password_hash r.2 |})
         <$> select_where (λ r, r.1 ∈ ids) (pending_game_accounts d))) d).

(** [ORDER BY created_at]: the rows sorted by the column, rows of equal
    timestamp in table order. *)
Definition earlier {A} (created_at : A → Z) (r1 r2 : Z * A) : Prop :=
  created_at r1.2 ≤ created_at r2.2.

#[global] Instance earlier_dec {A} (created_at : A → Z) r1 r2 :
  Decision (earlier created_at r1 r2).
Proof. unfold earlier. apply _. Defined.

(** The console reads the two id lists from the operator once the queue
    has been printed; what [prompt_ids] returned for each is an argument
    here. [main] checks the master password and then runs the two
    resolutions, see [step]. *)
Definition approve_pending_users (approve_ids reject_ids : list Z) : M unit :=
  acquire ;;
  rows ← query "SELECT id, username, requested_by, created_at FROM pending_users ORDER BY created_at"
    (λ d, merge_sort (earlier pu_created_at) (rows (pending_users d)));
  match rows with
  | [] => print "No pending user registrations."
  | _ =>
      print "Pending user registrations:" ;;
      for_each rows (λ row,
        print ("  ID " +:+ pretty row.1 +:+ ": " +:+ pu_username row.2
               +:+ " requested by " +:+ pu_requested_by row.2)) ;;
      match approve_ids with
      | [] => pass
      | _ =>
          let approve_clause := build_in_clause approve_ids in
          insert_users_select
            ("INSERT INTO users (username, passhash) SELECT username, passhash FROM pending_users WHERE id IN "
             +:+ approve_clause) approve_ids ;;
          execute ("DELETE FROM pending_users WHERE id IN " +:+ approve_clause)
            (with_pending_users (delete_where (λ r, r.1 ∈ approve_ids)))
      end ;;
      match reject_ids with
      | [] => pass
      | _ =>
          let reject_clause := build_in_clause reject_ids in
          execute ("DELETE FROM pending_users WHERE id IN " +:+ reject_clause)
            (with_pending_users (delete_where (λ r, r.1 ∈ reject_ids)))
      end ;;
      commit
  end.

Definition approve_pending_accounts (approve_ids reject_ids : list Z) : M unit :=
  acquire ;;
  rows ← query "SELECT id, uploader_username, game, created_at FROM pending_game_accounts ORDER BY created_at"
    (λ d, merge_sort (earlier pga_created_at) (rows (pending_game_accounts d)));
  match rows with
  | [] => print "No pending game account uploads."
  | _ =>
      print "Pending game account uploads:" ;;
      for_each rows (λ row,
        print ("  ID " +:+ pretty row.1 +:+ ": " +:+ pga_game row.2
               +:+ " uploaded by " +:+ pga_uploader_username row.2)) ;;
      match approve_ids with
      | [] => pass
      | _ =>
          let approve_clause := build_in_clause approve_ids in
          insert_game_accounts_select
            ("INSERT INTO game_accounts (uploader_username, game, game_username_hash, game_password_hash) SELECT uploader_username, game, game_username_hash, game_password_hash FROM pending_game_accounts WHERE id IN "
             +:+ approve_clause) approve_ids ;;
          execute ("DELETE FROM pending_game_accounts WHERE id IN " +:+ approve_clause)
            (with_pending_game_accounts (delete_where (λ r, r.1 ∈ approve_ids)))
      end ;;
      match reject_ids with
      | [] => pass
      | _ =>
          let reject_clause := build_in_clause reject_ids in
          execute ("DELETE FROM pending_game_accounts WHERE id IN " +:+ reject_clause)
            (with_pending_game_accounts (delete_where (λ r, r.1 ∈ reject_ids)))
      end ;;
      commit
  end.

(** ** Running the system *)

(** One step of the deployment: a chat command in its environment, or one
    of the console's two queue resolutions with the ids the operator typed. *)
Inductive Step :=
  | Bot (e : Env) (c : Command)
  | ResolveUsers (approve_ids reject_ids : list Z)
  | ResolveAccounts (approve_ids reject_ids : list Z).

Definition step `{Bcrypt} (s : Step) : M unit :=
  match s with
  | Bot e c => invoke e c
  | ResolveUsers approve_ids reject_ids =>
      approve_pending_users approve_ids reject_ids
  | ResolveAccounts approve_ids reject_ids =>
      approve_pending_accounts approve_ids reject_ids
  end.

(** The state a step leaves behind; a raised exception ends the step with
    whatever was committed so far. *)
Definition after `{Bcrypt} (s : Step) (w : World) : World := (step s w).2.

Definition run `{Bcrypt} (steps : list Step) (w : World) : World :=
  foldl (λ w s, after s w) w steps.

(** Start of day: no session, empty tables. *)
Definition initial_world : World :=
  {| sessions := ∅; db := empty_db; conn := empty_db; trace := [] |}.

Definition reachable `{Bcrypt} (w : World) : Prop :=
  ∃ steps, run steps initial_world = w.

(** ** Views used by the statements *)

(** The caller of [e] has a session the login check lets through. *)
Definition logged_in_as (w : World) (e : Env) (s : LoginSession) : Prop :=
  sessions w !! author_id (ctx e) = Some s ∧ ¬ expires_at s < utcnow e.

(** The caller of [e] has no session, or one the login check evicts. *)
Definition logged_out (w : World) (e : Env) : Prop :=
  sessions w !! author_id (ctx e) = None
  ∨ ∃ s, sessions w !! author_id (ctx e) = Some s ∧ expires_at s < utcnow e.

(** The [access_requests] rows of a (credential, grantee) pair. *)
Definition requested (d : DB) (account_id : Z) (who : string)
    : list (Z * AccessRequest) :=
  select_where (λ r, ar_account_id r.2 = account_id ∧ ar_username r.2 = who)
    (access_requests d).

(** The [access_grants] rows of a (credential, grantee) pair. *)
Definition granted (d : DB) (account_id : Z) (who : string)
    : list (Z * AccessGrant) :=
  select_where (λ r, ag_account_id r.2 = account_id ∧ ag_username r.2 = who)
    (access_grants d).

(** The [game_accounts] rows with this id and this uploader. *)
Definition owned (d : DB) (account_id : Z) (who : string)
    : list (Z * GameAccount) :=
  select_where (λ r, r.1 = account_id ∧ ga_uploader_username r.2 = who)
    (game_accounts d).

Definition registered (d : DB) (who : string) : Prop :=
  who ∈ (u_username ∘ snd <$> rows (users d)).

Definition pending (d : DB) (who : string) : Prop :=
  who ∈ (pu_username ∘ snd <$> rows (pending_users d)).

(** No username occurs twice over [users] and [pending_users] together. *)
Definition usernames_unique (d : DB) : Prop :=
  NoDup ((u_username ∘ snd <$> rows (users d))
         ++ (pu_username ∘ snd <$> rows (pending_users d))).

(** The direct messages of a trace. *)
Definition direct_messages (tr : list Event) : list (Z * string) :=
  tr ≫= λ ev, match ev with DirectMessage to text => [(to, text)] | _ => [] end.

(** ** Statements, invariants and example states *)

Definition keeps_sessions {A} (m : M A) : Prop :=
  ∀ w, sessions (m w).2 = sessions w.

Definition session_of_login (e : Env) (username : string) : LoginSession :=
  {| username := username; expires_at := utcnow e + SESSION_DURATION |}.

(** A world with one session and nothing else. *)
Definition world_with_session (user_id : Z) (s : LoginSession) : World :=
  {| sessions := {[user_id := s]}; db := empty_db; conn := empty_db;
     trace := [] |}.

(** The registry's contract read with a strict bound: the stored session is
    returned exactly when it is present with [expires_at] after [now]. *)
Definition active_iff_expiry_after (now user_id : Z) (w : World) : Prop :=
  ∀ s, (is_logged_in now user_id w).1 = Ok (Some s)
       ↔ sessions w !! user_id = Some s ∧ now < expires_at s.

(** A stand-in for bcrypt, to run examples: the hash is a two-character
    salt, a separator and the value; checking re-hashes with that salt. *)
Definition example_bcrypt : Bcrypt :=
  {| hashpw value salt := salt +:+ "$" +:+ value;
     checkpw value hashed :=
       bool_decide (hashed = String.substring 0 2 hashed +:+ "$" +:+ value) |}.

Definition example_guild : list Member :=
  [ {| member_id := 1001; name := "alice" |};
    {| member_id := 1002; name := "bob" |} ].

(** The environment of a command sent in the example server by [who] at
    time [now]. *)
Definition example_env (who now : Z) : Env :=
  {| ctx := {| author_id := who; guild := Some example_guild |};
     utcnow := now;
     gensalt := λ n, match n with O => "s0" | _ => "s1" end |}.

(** A world with one approved user and nothing else. *)
Definition world_with_user (u : User) : World :=
  {| sessions := ∅; db := with_users (insert_row u) empty_db;
     conn := empty_db; trace := [] |}.

(** The row [register] queues. *)
Definition registration `{Bcrypt} (e : Env) (username password : string)
    : PendingUser :=
  {| pu_username := username;
     pu_passhash := hash_secret password (gensalt e 0);
     pu_requested_by := pretty (author_id (ctx e));
     pu_created_at := submission_timestamp e |}.

#[local] Instance registered_dec d who : Decision (registered d who).
Proof. unfold registered. apply _. Defined.

#[local] Instance pending_dec d who : Decision (pending d who).
Proof. unfold pending. apply _. Defined.

#[local] Instance usernames_unique_dec d : Decision (usernames_unique d).
Proof. unfold usernames_unique. apply _. Defined.

(** The rows the loop of [grant_access] inserts: one per listed username
    that has a [users] row, in list order. *)
Definition new_requests (d : DB) (account_id : Z) (requested_by : string)
    (usernames : list string) : list AccessRequest :=
  (λ username, {| ar_account_id := account_id; ar_username := username;
                  ar_requested_by := requested_by |})
    <$> filter (registered d) usernames.

(** What the loop of [grant_access] adds to the trace. *)
Definition loop_trace (d : DB) (usernames : list string) : list Event :=
  usernames ≫= λ username,
    if decide (registered d username) then
      [Execute "SELECT 1 FROM users WHERE username = %s";
       Execute "INSERT INTO access_requests (account_id, username, requested_by) VALUES (%s, %s, %s)"]
    else
      [Execute "SELECT 1 FROM users WHERE username = %s";
       CtxSend (UserNotRegistered username)].

(** The reading of [grant_access] as idempotent per grantee: a listed
    grantee that already has a request row for the credential gets no
    further one. *)
Definition skips_existing_request (e : Env) (account_id : Z)
    (usernames : list string) (w : World) : Prop :=
  ∀ who, who ∈ usernames → requested (db w) account_id who ≠ [] →
    requested (db (grant_access e account_id usernames w).2) account_id who
    = requested (db w) account_id who.

(** At most one request row per (credential, grantee) pair. *)
Definition at_most_one_request (d : DB) : Prop :=
  ∀ account_id who, (length (requested d account_id who) ≤ 1)%nat.

(** Alice and Bob register and are approved, Alice logs in and uploads a
    credential, which is approved as account 1; Alice asks access for Bob. *)
Definition onboarding : list Step :=
  [ Bot (example_env 1001 10) (Register "alice" "pw-a");
    Bot (example_env 1002 11) (Register "bob" "pw-b");
    ResolveUsers [1; 2] [];
    Bot (example_env 1001 20) (Login "alice" "pw-a");
    Bot (example_env 1002 21) (Login "bob" "pw-b");
    Bot (example_env 1001 30) (UploadAccount "wow" "u" "p");
    ResolveAccounts [1] [];
    Bot (example_env 1001 40) (GrantAccess 1 ["bob"]) ].

Definition invited : World := @run example_bcrypt onboarding initial_world.

(** What [confirm_access] makes of the database when [row] is the request
    it fetched for the session [s]. *)
Definition confirmed (d : DB) (account_id : Z) (s : LoginSession)
    (row : Z * AccessRequest) : DB :=
  with_access_requests (delete_where (λ r, r.1 = row.1))
    (with_access_grants (insert_row
       {| ag_account_id := account_id; ag_username := username s;
          ag_granted_by := ar_requested_by row.2 |}) d).

(** The exactly-once reading of [confirm_access]: with a request row for
    the caller, the first call moves it to [access_grants], and a second
    call by the same caller, still logged in, finds nothing and changes
    nothing. *)
Definition confirm_exactly_once (e e' : Env) (account_id : Z) (w : World)
    : Prop :=
  ∀ s row rest,
    logged_in_as w e s →
    requested (db w) account_id (username s) = row :: rest →
    let w1 := (confirm_access e account_id w).2 in
    db w1 = confirmed (db w) account_id s row
    ∧ (author_id (ctx e') = author_id (ctx e) → logged_in_as w1 e' s →
       let w2 := (confirm_access e' account_id w1).2 in
       db w2 = db w1
       ∧ trace w2 = trace w1 ++
           [Execute "SELECT id, requested_by FROM access_requests WHERE account_id = %s AND username = %s";
            CtxSend NoPendingAccessRequestFound]).

(** The state reached when Alice asks access for Bob a second time. *)
Definition invited_twice : World :=
  @after example_bcrypt
    (Bot (example_env 1001 41) (GrantAccess 1 ["bob"])) invited.

(** The reading of [share_account] on which a grant row is all a logged-in
    owner needs: without one the reply is "User does not have confirmed
    access." and nothing is sent; with one a single direct message with the
    given strings goes out, followed by "Account details shared via DM.". *)
Definition discloses_iff_granted (e : Env) (account_id : Z)
    (target_username game_username game_password : string) (w : World) : Prop :=
  ∀ s account rest,
    logged_in_as w e s →
    owned (db w) account_id (username s) = account :: rest →
    let w' := (share_account e account_id target_username game_username
                 game_password w).2 in
    (granted (db w) account_id target_username = [] →
       trace w' = trace w ++
         [Execute "SELECT id, game FROM game_accounts WHERE id = %s AND uploader_username = %s";
          Execute "SELECT 1 FROM access_grants WHERE account_id = %s AND username = %s";
          CtxSend UserDoesNotHaveConfirmedAccess])
    ∧ (granted (db w) account_id target_username ≠ [] →
       ∃ recipient,
         trace w' = trace w ++
           [Execute "SELECT id, game FROM game_accounts WHERE id = %s AND uploader_username = %s";
            Execute "SELECT 1 FROM access_grants WHERE account_id = %s AND username = %s";
            DirectMessage recipient
              (shared_details (ga_game account.2) (username s)
                 game_username game_password);
            CtxSend AccountDetailsShared]).

(** The state reached when Bob has confirmed Alice's request. *)
Definition accepted : World :=
  @after example_bcrypt (Bot (example_env 1002 50) (ConfirmAccess 1)) invited.

(** Alice's command at time [now], sent in a server Bob is not a member of. *)
Definition env_without_bob (now : Z) : Env :=
  {| ctx := {| author_id := 1001;
               guild := Some [ {| member_id := 1001; name := "alice" |} ] |};
     utcnow := now;
     gensalt := λ _, "s0" |}.

(** [J] holds of the committed database and of the connection's view. *)
Definition holds (J : DB → Prop) (w : World) : Prop := J (db w) ∧ J (conn w).

Definition preserves (J : DB → Prop) {A} (m : M A) : Prop :=
  ∀ w, holds J w → holds J (m w).2.

(** No grant row is for the pair (credential, grantee). *)
Definition ungranted (account_id : Z) (who : string) (d : DB) : Prop :=
  ∀ r, r ∈ rows (access_grants d) →
       ¬ (ag_account_id r.2 = account_id ∧ ag_username r.2 = who).

(** The step is a [confirm_access] for the pair (credential, grantee): that
    command, for that credential, from a caller whom the login check passes
    as the grantee. *)
Definition confirms (account_id : Z) (who : string) (st : Step) (w : World)
    : Prop :=
  match st with
  | Bot e (ConfirmAccess confirmed_id) =>
      confirmed_id = account_id
      ∧ match (is_logged_in (utcnow e) (author_id (ctx e)) w).1 with
        | Ok (Some session) => username session = who
        | _ => False
        end
  | _ => False
  end.

#[local] Instance confirms_dec account_id who st w :
  Decision (confirms account_id who st w).
Proof.
  destruct st as [e c| |]; [destruct c|..]; simpl; try apply _.
  destruct (is_logged_in _ _ w).1 as [[session|]|]; apply _.
Defined.

(** No step of the run of [steps] from [w] is a [confirm_access] for the
    pair. *)
Fixpoint never_confirmed `{Bcrypt} (account_id : Z) (who : string)
    (steps : list Step) (w : World) : Prop :=
  match steps with
  | [] => True
  | st :: steps =>
      ¬ confirms account_id who st w
      ∧ never_confirmed account_id who steps (after st w)
  end.

#[local] Instance never_confirmed_dec `{Bcrypt} account_id who steps w :
  Decision (never_confirmed account_id who steps w).
Proof. revert w. induction steps as [|st steps IH]; intros w; simpl; apply _. Defined.

(** Alice herself sends "!confirm_access 1" after asking access for Bob:
    a [confirm_access] for the credential, not for the pair. *)
Definition confirmed_by_owner : list Step :=
  onboarding ++ [Bot (example_env 1001 42) (ConfirmAccess 1)].

Definition mk_world (ss : gmap Z LoginSession) (d c : DB) (tr : list Event)
    : World :=
  {| sessions := ss; db := d; conn := c; trace := tr |}.

(** The second half of a resolution: the rejections, then the commit. *)
Definition reject_and_commit (sql : string) (f : list Z → DB → DB)
    (reject_ids : list Z) (w : World) : Res unit * World :=
  match reject_ids with
  | [] => (Ok (), mk_world (sessions w) (conn w) (conn w) (trace w ++ [Commit]))
  | _ =>
      (Ok (),
       mk_world (sessions w) (f reject_ids (conn w)) (f reject_ids (conn w))
         (trace w ++ [Execute (sql +:+ build_in_clause reject_ids); Commit]))
  end.

Definition delete_pending_users (ids : list Z) : DB → DB :=
  with_pending_users (delete_where (λ r, r.1 ∈ ids)).

Definition delete_pending_game_accounts (ids : list Z) : DB → DB :=
  with_pending_game_accounts (delete_where (λ r, r.1 ∈ ids)).

(** The [users] rows an approval selects. *)
Definition approved_users (ids : list Z) (d : DB) : list User :=
  (λ r : Z * PendingUser,
     {| u_username := pu_username r.2; u_passhash := pu_passhash r.2 |})
    <$> select_where (λ r, r.1 ∈ ids) (pending_users d).

(** The [game_accounts] rows an approval selects. *)
Definition approved_accounts (ids : list Z) (d : DB) : list GameAccount :=
  (λ r : Z * PendingGameAccount,
     {| ga_uploader_username := pga_uploader_username r.2;
        ga_game := pga_game r.2;
        ga_game_username_hash := pga_game_username_hash r.2;
        ga_game_password_hash := pga_game_password_hash r.2 |})
    <$> select_where (λ r, r.1 ∈ ids) (pending_game_accounts d).

(** The reading of queue resolution that refuses overlapping lists: with an
    id in both, either call fails and commits nothing. *)
Definition overlap_refused (approve_ids reject_ids : list Z) (w : World)
    : Prop :=
  (∃ id, id ∈ approve_ids ∧ id ∈ reject_ids) →
  ((approve_pending_users approve_ids reject_ids w).1 ≠ Ok ()
   ∧ db (approve_pending_users approve_ids reject_ids w).2 = db w)
  ∧ ((approve_pending_accounts approve_ids reject_ids w).1 ≠ Ok ()
     ∧ db (approve_pending_accounts approve_ids reject_ids w).2 = db w).

(** Alice is approved and has uploaded a credential; Bob's registration
    (id 2) and Alice's upload (id 1) wait in the two queues. *)
Definition queued : World :=
  @run example_bcrypt
    [ Bot (example_env 1001 10) (Register "alice" "pw-a");
      Bot (example_env 1002 11) (Register "bob" "pw-b");
      ResolveUsers [1] [];
      Bot (example_env 1001 20) (Login "alice" "pw-a");
      Bot (example_env 1001 30) (UploadAccount "wow" "u" "p") ]
    initial_world.

(** ** Further views: what a computation may emit *)

(** The replies of a trace, in order. *)
Definition replies (tr : list Event) : list Reply :=
  tr ≫= λ ev, match ev with CtxSend r => [r] | _ => [] end.

(** [m] leaves the committed database alone. *)
Definition keeps_db {A} (m : M A) : Prop :=
  ∀ w, db (m w).2 = db w.

(** [m] only appends to the trace, and only events that satisfy [P]. *)
Definition emits (P : Event → Prop) {A} (m : M A) : Prop :=
  ∀ w, ∃ evs, trace (m w).2 = trace w ++ evs ∧ Forall P evs.

(** A read: a message, a console line or a SELECT; no other statement and
    no commit. *)
Definition is_read (ev : Event) : Prop :=
  match ev with
  | Execute sql => String.prefix "SELECT" sql = true
  | Commit => False
  | _ => True
  end.

(** Anything but a direct message. *)
Definition not_direct (ev : Event) : Prop :=
  match ev with
  | DirectMessage _ _ => False
  | _ => True
  end.

#[local] Instance not_direct_dec ev : Decision (not_direct ev).
Proof. destruct ev; simpl; apply _. Defined.

(** The commands that write no row: [login], [logout], [list_accounts],
    [share_account], [pending_access]. *)
Definition read_only (c : Command) : bool :=
  match c with
  | Login _ _ | Logout | ListAccounts | ShareAccount _ _ _ _ | PendingAccess => true
  | _ => false
  end.

(** The credential ids of the request rows that name [who], in table
    order: what [pending_access] prints for that user. *)
Definition pending_ids (d : DB) (who : string) : list Z :=
  (λ row : Z * AccessRequest, ar_account_id row.2)
    <$> select_where (λ r, ar_username r.2 = who) (access_requests d).

(** The line of [list_accounts] for a credential. *)
Definition account_line (row : Z * string) : string :=
  "ID " +:+ pretty row.1 +:+ ": " +:+ row.2.

(** The row [upload_account] queues. *)
Definition upload `{Bcrypt} (e : Env) (s : LoginSession)
    (game game_username game_password : string) : PendingGameAccount :=
  {| pga_uploader_username := username s; pga_game := game;
     pga_game_username_hash := hash_secret game_username (gensalt e 0);
     pga_game_password_hash := hash_secret game_password (gensalt e 1);
     pga_created_at := submission_timestamp e |}.



(** The credential [account_id] exists and was uploaded by [who]. *)
Definition uploaded_by (d : DB) (account_id : Z) (who : string) : Prop :=
  ∃ r, r ∈ rows (game_accounts d)
       ∧ r.1 = account_id ∧ ga_uploader_username r.2 = who.

(** Every request and every grant is attributed to the uploader of its
    credential and names a registered user. *)
Definition attributed (d : DB) : Prop :=
  (∀ x, x ∈ (snd <$> rows (access_requests d)) →
        uploaded_by d (ar_account_id x) (ar_requested_by x)
        ∧ registered d (ar_username x))
  ∧ (∀ x, x ∈ (snd <$> rows (access_grants d)) →
          uploaded_by d (ag_account_id x) (ag_granted_by x)
          ∧ registered d (ag_username x)).

(** ** The console's [main] *)

(** How a run of the console ends. *)
Inductive Exit :=
  | SystemExit (message : string)
  | Raised (e : Exn)
  | Returned.

(** The default of [MASTER_PASSWORD_HASH]; the environment may override it. *)
Definition DEFAULT_MASTER_PASSWORD_HASH : string :=
  "$2b$12$s2hZElYg6u0uXAn1scV73eG4AopXwTgZODGJ5Y0dPc2Ugt2uT9j7C".

(** [verify_master_password]: what it raises for the password typed at the
    prompt, if anything. *)
Definition verify_master_password `{Bcrypt}
    (MASTER_PASSWORD_HASH password : string) : option Exit :=
  if checkpw password MASTER_PASSWORD_HASH then None
  else Some (SystemExit "Invalid master password.").

(** [main]: the master password, then the two resolutions on one pool; an
    exception of the first skips the second. Opening and closing the pool
    changes nothing here. The arguments after the password are the four id
    lists the operator types when asked. *)
Definition main `{Bcrypt} (MASTER_PASSWORD_HASH password : string)
    (users_approve users_reject accounts_approve accounts_reject : list Z)
    (w : World) : Exit * World :=
  match verify_master_password MASTER_PASSWORD_HASH password with
  | Some exit => (exit, w)
  | None =>
      match (approve_pending_users users_approve users_reject ;;
             approve_pending_accounts accounts_approve accounts_reject) w with
      | (Ok _, w') => (Returned, w')
      | (Raise x, w') => (Raised x, w')
      end
  end.

(** Whether [s] ends in [suffix]. *)
Fixpoint ends_in (suffix s : string) : bool :=
  bool_decide (s = suffix)
  || match s with
     | EmptyString => false
     | String _ rest => ends_in suffix rest
     end.

(** A statement that does not end in an empty list, "... IN ()". *)
Definition has_ids (ev : Event) : Prop :=
  match ev with
  | Execute sql => ends_in "()" sql = false
  | _ => True
  end.

(** The rows of [users], [game_accounts] and [access_grants] of [d] begin
    with the given rows: nothing of them was removed or changed. *)
Definition extends (us : list (Z * User)) (gas : list (Z * GameAccount))
    (ags : list (Z * AccessGrant)) (d : DB) : Prop :=
  us `prefix_of` rows (users d)
  ∧ gas `prefix_of` rows (game_accounts d)
  ∧ ags `prefix_of` rows (access_grants d).

(** The reading of [grant_access] on which a credential the caller did not
    upload is refused as such whatever the list of usernames: the reply is
    "Account not found or not owned by you." and no request row is added. *)
Definition refused_as_unowned (e : Env) (account_id : Z)
    (usernames : list string) (w : World) : Prop :=
  ∀ s, logged_in_as w e s →
    owned (db w) account_id (username s) = [] →
    let w' := (grant_access e account_id usernames w).2 in
    replies (trace w') = replies (trace w) ++ [AccountNotFoundOrNotOwned]
    ∧ access_requests (db w') = access_requests (db w).

(** ** Commands in flight

    discord.py runs each command as a task of its own, and the event loop
    may switch to another task wherever a command awaits. [register] awaits
    the store at each statement, on a connection of its own from the pool:
    its SELECTs take no lock, and a row inserted on one connection is
    invisible to the others until that connection commits. For two
    registrations at once it is enough to let a task be suspended once,
    between its second SELECT and its INSERT. *)

(** A suspended task goes on, and it is its connection that is in use
    again. Rows that other connections committed in the meantime stay
    committed when this one commits, and an INSERT draws its id from the
    table's counter, so the statements that follow are applied to the
    database as committed by now. *)
Definition resume : M unit := λ w,
  (Ok (), {| sessions := sessions w; db := db w; conn := db w;
             trace := trace w |}).

(** [register] up to its second SELECT (lines 96 to 109): whether the task
    goes on to the INSERT. *)
Definition register_checks (e : Env) (username : string) : M bool :=
  acquire ;;
  found ← query "SELECT 1 FROM users WHERE username = %s"
    (λ d, fetchone (select_where (λ r, u_username r.2 = username) (users d)));
  match found with
  | Some _ => send UsernameAlreadyRegistered ;; mret false
  | None =>
      found ← query "SELECT 1 FROM pending_users WHERE username = %s"
        (λ d, fetchone (select_where (λ r, pu_username r.2 = username)
                          (pending_users d)));
      match found with
      | Some _ => send RegistrationAlreadyPending ;; mret false
      | None => mret true
      end
  end.

(** [register] from its INSERT on (lines 110 to 115), with the hash that
    line 97 computed. *)
Definition register_insert `{Bcrypt} (e : Env) (username password : string)
    : M unit :=
  let hashed := hash_secret password (gensalt e 0) in
  resume ;;
  execute "INSERT INTO pending_users (username, passhash, requested_by) VALUES (%s, %s, %s)"
    (with_pending_users (insert_row
       {| pu_username := username; pu_passhash := hashed;
          pu_requested_by := pretty (author_id (ctx e));
          pu_created_at := submission_timestamp e |})) ;;
  commit ;;
  send RegistrationSubmitted.

(** Two users send "!register alice ..." at the same moment: the second
    command is dispatched while the first is suspended after its SELECTs,
    and runs up to the same point before the first goes on. *)
Definition registered_at_once : World :=
  let w1 := (register_checks (example_env 1001 10) "alice" initial_world).2 in
  let w2 := (register_checks (example_env 1002 10) "alice" w1).2 in
  let w3 := (@register_insert example_bcrypt (example_env 1001 10)
               "alice" "pw-a" w2).2 in
  (@register_insert example_bcrypt (example_env 1002 10) "alice" "pw-b" w3).2.

(** The same two commands, the second sent after the first has returned. *)
Definition registered_in_turn : World :=
  @run example_bcrypt
    [ Bot (example_env 1001 10) (Register "alice" "pw-a");
      Bot (example_env 1002 10) (Register "alice" "pw-b") ] initial_world.

(** ** The session registry *)

Ltac run_monad :=
  unfold mbind, M_bind, mret, M_ret, send, print, emit, query, execute, commit,
    acquire, get_sessions, set_sessions, raise, pass;
  simpl.

(** Settles a decidable closed proposition by evaluation. *)
Ltac by_evaluation :=
  match goal with
  | |- ?P => apply (@bool_decide_unpack P _); vm_compute; exact I
  end.

Lemma is_logged_in_absent now user_id w :
  sessions w !! user_id = None →
  is_logged_in now user_id w = (Ok None, w).
Proof. intros H. unfold is_logged_in. run_monad. by rewrite H. Qed.

Lemma is_logged_in_active now user_id w s :
  sessions w !! user_id = Some s → ¬ expires_at s < now →
  is_logged_in now user_id w = (Ok (Some s), w).
Proof.
  intros H Hexp. unfold is_logged_in. run_monad. rewrite H.
  by destruct (decide (expires_at s < now)).
Qed.

Lemma is_logged_in_expired now user_id w s :
  sessions w !! user_id = Some s → expires_at s < now →
  is_logged_in now user_id w =
    (Ok None, {| sessions := delete user_id (sessions w); db := db w;
                 conn := conn w; trace := trace w |}).
Proof.
  intros H Hexp. unfold is_logged_in. run_monad. rewrite H.
  by destruct (decide (expires_at s < now)).
Qed.

Lemma is_logged_in_logged_out e w :
  logged_out w e →
  is_logged_in (utcnow e) (author_id (ctx e)) w =
    (Ok None, {| sessions := delete (author_id (ctx e)) (sessions w);
                 db := db w; conn := conn w; trace := trace w |}).
Proof.
  intros [H | (s & H & Hexp)].
  - rewrite is_logged_in_absent by done. rewrite delete_id by done.
    by destruct w.
  - by apply is_logged_in_expired with s.
Qed.

Lemma is_logged_in_logged_in e w s :
  logged_in_as w e s →
  is_logged_in (utcnow e) (author_id (ctx e)) w = (Ok (Some s), w).
Proof. intros [H Hexp]. by apply is_logged_in_active. Qed.

(** *** Computations that leave the session table alone *)

Create HintDb sessions.

Lemma keeps_sessions_ret {A} (a : A) : keeps_sessions (mret a).
Proof. by intros w. Qed.

Lemma keeps_sessions_bind {A B} (m : M A) (f : A → M B) :
  keeps_sessions m → (∀ a, keeps_sessions (f a)) → keeps_sessions (m ≫= f).
Proof.
  intros Hm Hf w. unfold mbind, M_bind. specialize (Hm w).
  destruct (m w) as [[a | x] w']; simpl in *; [|done].
  by rewrite Hf.
Qed.

Lemma keeps_sessions_raise {A} x : keeps_sessions (@raise A x).
Proof. by intros w. Qed.

Lemma keeps_sessions_pass : keeps_sessions pass.
Proof. by intros w. Qed.

Lemma keeps_sessions_emit ev : keeps_sessions (emit ev).
Proof. by intros w. Qed.

Lemma keeps_sessions_send r : keeps_sessions (send r).
Proof. by intros w. Qed.

Lemma keeps_sessions_print line : keeps_sessions (print line).
Proof. by intros w. Qed.

Lemma keeps_sessions_acquire : keeps_sessions acquire.
Proof. by intros w. Qed.

Lemma keeps_sessions_query {A} sql (q : DB → A) : keeps_sessions (query sql q).
Proof. by intros w. Qed.

Lemma keeps_sessions_execute sql f : keeps_sessions (execute sql f).
Proof. by intros w. Qed.

Lemma keeps_sessions_commit : keeps_sessions commit.
Proof. by intros w. Qed.

Lemma keeps_sessions_for_each {A} (l : list A) body :
  (∀ x, keeps_sessions (body x)) → keeps_sessions (for_each l body).
Proof.
  intros Hbody. induction l as [|x l IH]; simpl.
  - apply keeps_sessions_pass.
  - by apply keeps_sessions_bind.
Qed.

Lemma keeps_sessions_guild_members c : keeps_sessions (guild_members c).
Proof. unfold guild_members. by destruct (guild c). Qed.

Lemma keeps_sessions_insert_users_select sql ids :
  keeps_sessions (insert_users_select sql ids).
Proof. intros w. unfold insert_users_select. by case_decide. Qed.

#[local] Hint Resolve keeps_sessions_ret keeps_sessions_raise keeps_sessions_pass
  keeps_sessions_emit keeps_sessions_send keeps_sessions_print
  keeps_sessions_acquire keeps_sessions_query keeps_sessions_execute
  keeps_sessions_commit keeps_sessions_guild_members
  keeps_sessions_insert_users_select : sessions.

(** Breaks a command body down to the primitives above. *)
Ltac keeps :=
  repeat first
    [ progress eauto with sessions
    | apply keeps_sessions_bind; [|intros ?]
    | apply keeps_sessions_for_each; intros ?
    | match goal with
      | |- keeps_sessions (match ?x with _ => _ end) => destruct x
      | |- keeps_sessions (if ?x then _ else _) => destruct x
      end ].

Lemma keeps_sessions_register `{Bcrypt} e username password :
  keeps_sessions (register e username password).
Proof. unfold register. keeps. Qed.

Lemma keeps_sessions_approve_pending_users approve_ids reject_ids :
  keeps_sessions (approve_pending_users approve_ids reject_ids).
Proof. unfold approve_pending_users. keeps. Qed.

Lemma keeps_sessions_approve_pending_accounts approve_ids reject_ids :
  keeps_sessions (approve_pending_accounts approve_ids reject_ids).
Proof. unfold approve_pending_accounts, insert_game_accounts_select. keeps. Qed.

(** Behind the login check a session is kept or evicted, never altered. *)
Lemma gated_sessions e (body : LoginSession → M unit) w user_id s' :
  (∀ s, keeps_sessions (body s)) →
  sessions
    ((session ← is_logged_in (utcnow e) (author_id (ctx e));
      match session with
      | None => send PleaseLoginFirst
      | Some session => body session
      end) w).2 !! user_id = Some s' →
  sessions w !! user_id = Some s'.
Proof.
  intros Hbody. unfold mbind at 1, M_bind at 1.
  destruct (sessions w !! author_id (ctx e)) as [s|] eqn:Hs.
  - destruct (decide (expires_at s < utcnow e)) as [Hexp|Hexp].
    + rewrite (is_logged_in_expired _ _ _ s) by done. simpl.
      intros Hl. by apply lookup_delete_Some in Hl as [_ ?].
    + rewrite (is_logged_in_active _ _ _ s) by done. by rewrite Hbody.
  - rewrite is_logged_in_absent by done. done.
Qed.

Lemma protected_sessions `{Bcrypt} e c w user_id s' :
  protected c = true →
  sessions (invoke e c w).2 !! user_id = Some s' →
  sessions w !! user_id = Some s'.
Proof.
  destruct c; try done; intros _; simpl;
    [ unfold upload_account | unfold list_accounts | unfold grant_access
    | unfold confirm_access | unfold share_account | unfold pending_access ];
    apply gated_sessions; intros s; keeps.
Qed.

Lemma login_sessions `{Bcrypt} e username password w :
  sessions (login e username password w).2 = sessions w
  ∨ sessions (login e username password w).2
    = <[author_id (ctx e) := session_of_login e username]> (sessions w).
Proof.
  unfold login, fetch_user. run_monad.
  destruct (fetchone _) as [user|]; simpl; [|by left].
  destruct (verify_secret _ _); simpl; [by right | by left].
Qed.

Lemma login_success `{Bcrypt} e username password w user :
  fetchone (select_where (λ r, u_username r.2 = username) (users (db w)))
    = Some user →
  verify_secret password (u_passhash user.2) = true →
  login e username password w =
    (Ok (),
     {| sessions := <[author_id (ctx e) := session_of_login e username]> (sessions w);
        db := db w; conn := db w;
        trace := trace w ++
          [Execute "SELECT id, username, passhash FROM users WHERE username = %s";
           CtxSend LoginSuccessful] |}).
Proof.
  intros Huser Hok. unfold login, fetch_user. run_monad.
  rewrite Huser. simpl. rewrite Hok. simpl. by rewrite <- app_assoc.
Qed.

(** C7, as stated, fails at the instant of expiry: a session whose
    [expires_at] equals the current time is still returned (and kept). *)
Lemma is_logged_in_at_expiry_instant :
  ¬ active_iff_expiry_after 100 7
      (world_with_session 7 {| username := "alice"; expires_at := 100 |}).
Proof.
  intros Hclaim.
  destruct (Hclaim {| username := "alice"; expires_at := 100 |}) as [Hret _].
  destruct Hret as [_ Hlt]; [by vm_compute|]. simpl in Hlt. lia.
Qed.

(** C7, amended: [is_logged_in] returns the stored session exactly when one
    is present and its expiry is not before the current time, and then
    changes nothing; when the stored expiry is strictly before the current
    time the call returns [None] and removes the entry (and nothing else),
    after which any further call returns [None] and changes nothing. *)
Theorem is_logged_in_lazy_expiry now user_id w :
  (∀ s, (is_logged_in now user_id w).1 = Ok (Some s)
        ↔ sessions w !! user_id = Some s ∧ now ≤ expires_at s)
  ∧ (∀ s, sessions w !! user_id = Some s → now ≤ expires_at s →
          (is_logged_in now user_id w).2 = w)
  ∧ (∀ s, sessions w !! user_id = Some s → expires_at s < now →
          let w' := (is_logged_in now user_id w).2 in
          (is_logged_in now user_id w).1 = Ok None
          ∧ sessions w' = delete user_id (sessions w)
          ∧ db w' = db w ∧ trace w' = trace w
          ∧ ∀ now', is_logged_in now' user_id w' = (Ok None, w')).
Proof.
  split; [|split].
  - intros s. destruct (sessions w !! user_id) as [s0|] eqn:Hs.
    + destruct (decide (expires_at s0 < now)) as [Hexp|Hexp].
      * rewrite (is_logged_in_expired _ _ _ s0) by done. simpl.
        split; [done|]. intros [[= ->] ?]. lia.
      * rewrite (is_logged_in_active _ _ _ s0) by done. simpl.
        split; [intros [= ->]; split; [done|lia] | by intros [[= ->] _]].
    + rewrite is_logged_in_absent by done. simpl. split; [done | by intros [? _]].
  - intros s Hs Hexp. rewrite (is_logged_in_active _ _ _ s); [done..|lia].
  - intros s Hs Hexp. rewrite (is_logged_in_expired _ _ _ s) by done. simpl.
    repeat split. intros now'. apply is_logged_in_absent. simpl.
    apply lookup_delete_eq.
Qed.

Lemma is_logged_in_lazy_expiry_witness :
  let s := {| username := "alice"; expires_at := 100 |} in
  let w := world_with_session 7 s in
  (is_logged_in 100 7 w).2 = w
  ∧ (is_logged_in 101 7 w).1 = Ok None
  ∧ ∀ now', is_logged_in now' 7 (is_logged_in 101 7 w).2
            = (Ok None, (is_logged_in 101 7 w).2).
Proof.
  intros s w.
  destruct (is_logged_in_lazy_expiry 100 7 w) as (_ & Hkeep & _).
  destruct (is_logged_in_lazy_expiry 101 7 w) as (_ & _ & Hevict).
  split; [apply (Hkeep s); [reflexivity | simpl; lia]|].
  destruct (Hevict s) as (Hnone & _ & _ & _ & Hagain);
    [reflexivity | simpl; lia |].
  split; [exact Hnone | exact Hagain].
Defined.

(** C6: a protected command ([upload_account], [list_accounts],
    [grant_access], [confirm_access], [share_account], [pending_access])
    called without a session, or with one past its expiry, only replies
    "Please login first." (the AuthError reply): the body does not run, so
    no statement is executed, nothing is committed, no direct message is
    sent, and the database is as before. The expired entry, if any, is
    dropped from the session table. *)
Theorem protected_command_needs_session `{Bcrypt} e c w :
  protected c = true → logged_out w e →
  invoke e c w =
    (Ok (),
     {| sessions := delete (author_id (ctx e)) (sessions w);
        db := db w; conn := conn w;
        trace := trace w ++ [CtxSend PleaseLoginFirst] |})
  ∧ error_of PleaseLoginFirst = Some AuthError.
Proof.
  intros Hc Hout. split; [|done].
  destruct c; try done; simpl;
    [ unfold upload_account | unfold list_accounts | unfold grant_access
    | unfold confirm_access | unfold share_account | unfold pending_access ];
    unfold mbind at 1, M_bind at 1;
    by rewrite is_logged_in_logged_out.
Qed.

Lemma protected_command_needs_session_witness :
  let w := world_with_session 7 {| username := "alice"; expires_at := 100 |} in
  (@invoke example_bcrypt (example_env 7 101) (ConfirmAccess 1) w).1 = Ok ()
  ∧ trace (@invoke example_bcrypt (example_env 7 101) (ConfirmAccess 1) w).2
    = [CtxSend PleaseLoginFirst].
Proof.
  intros w.
  destruct (@protected_command_needs_session example_bcrypt
              (example_env 7 101) (ConfirmAccess 1) w) as [-> _].
  - reflexivity.
  - right. exists {| username := "alice"; expires_at := 100 |}.
    split; [reflexivity | simpl; lia].
  - split; reflexivity.
Defined.

(** C8: a successful [login] (the user row is found and the password
    verifies) sets the caller's session, new or not, to the given username
    with expiry the login instant plus [SESSION_DURATION], which is two
    hours; no step of the system (a chat command by anyone, a console
    resolution) changes a stored session other than by removing it, except a
    successful [login] by that same caller; [logout] always succeeds and
    removes the caller's session, leaving the table as it was when there
    was none. *)
Theorem session_expiry_fixed `{Bcrypt} :
  SESSION_DURATION = 2 * (60 * 60 * 1000000)
  ∧ (∀ e username password w user,
       fetchone (select_where (λ r, u_username r.2 = username) (users (db w)))
         = Some user →
       verify_secret password (u_passhash user.2) = true →
       sessions (login e username password w).2
       = <[author_id (ctx e) :=
             {| username := username;
                expires_at := utcnow e + SESSION_DURATION |}]> (sessions w))
  ∧ (∀ st w user_id s',
       sessions (after st w) !! user_id = Some s' →
       sessions w !! user_id = Some s'
       ∨ ∃ e username password,
           st = Bot e (Login username password)
           ∧ author_id (ctx e) = user_id
           ∧ s' = {| username := username;
                     expires_at := utcnow e + SESSION_DURATION |})
  ∧ (∀ e w,
       (logout e w).1 = Ok ()
       ∧ sessions (logout e w).2 = delete (author_id (ctx e)) (sessions w)
       ∧ db (logout e w).2 = db w)
  ∧ (∀ e w,
       sessions w !! author_id (ctx e) = None →
       sessions (logout e w).2 = sessions w).
Proof.
  split; [done|]. split; [|split; [|split]].
  - intros e username password w user Huser Hok.
    by rewrite (login_success _ _ _ _ user).
  - intros st w user_id s'. unfold after.
    destruct st as [e c|approve_ids reject_ids|approve_ids reject_ids]; simpl.
    + destruct (protected c) eqn:Hc; [left; by eapply protected_sessions|].
      destruct c; try done; simpl.
      * rewrite keeps_sessions_register. by left.
      * destruct (login_sessions e username0 password w) as [-> | ->];
          [by left|].
        destruct (decide (author_id (ctx e) = user_id)) as [<-|Hne].
        -- rewrite lookup_insert_eq. intros [= <-]. right.
           by exists e, username0, password.
        -- rewrite lookup_insert_ne by done. by left.
      * unfold logout. run_monad. intros Hl.
        apply lookup_delete_Some in Hl as [_ ?]. by left.
    + rewrite keeps_sessions_approve_pending_users. by left.
    + rewrite keeps_sessions_approve_pending_accounts. by left.
  - intros e w. by unfold logout; run_monad.
  - intros e w Hnone. unfold logout. run_monad. by apply delete_id.
Qed.

Lemma session_expiry_fixed_witness :
  let alice := {| username := "alice"; expires_at := 100 |} in
  let w := world_with_session 7 alice in
  let w0 := world_with_user {| u_username := "alice"; u_passhash := "s0$pw" |} in
  sessions (@login example_bcrypt (example_env 7 50) "alice" "pw" w0).2 !! 7
    = Some {| username := "alice"; expires_at := 50 + 7200000000 |}
  ∧ sessions w !! 7 = Some alice
  ∧ sessions (logout (example_env 8 50) w).2 = sessions w.
Proof.
  intros alice w w0.
  destruct (@session_expiry_fixed example_bcrypt)
    as (_ & Hlogin & Hfixed & _ & Hout).
  split; [|split].
  - rewrite (Hlogin (example_env 7 50) "alice" "pw" w0
               (1, {| u_username := "alice"; u_passhash := "s0$pw" |}));
      [| reflexivity | reflexivity].
    apply lookup_insert_eq.
  - destruct (Hfixed (Bot (example_env 7 50) PendingAccess) w 7 alice)
      as [Hsame | (? & ? & ? & Hst & _)];
      [vm_compute; reflexivity | exact Hsame | discriminate Hst].
  - apply Hout. reflexivity.
Defined.

(** ** Queries *)

Lemma fetchone_None {A} (P : Z * A → Prop) `{∀ r, Decision (P r)} (t : Table A) :
  fetchone (select_where P t) = None ↔ ∀ r, r ∈ rows t → ¬ P r.
Proof.
  unfold fetchone, select_where. rewrite head_None. split.
  - intros Hnil r Hr HP. by eapply filter_nil_not_elem_of.
  - intros Hnone. destruct (filter P (rows t)) as [|r l] eqn:Hf; [done|].
    assert (r ∈ filter P (rows t)) as Hr by (rewrite Hf; left).
    apply list_elem_of_filter in Hr as [HP Hr]. by destruct (Hnone r).
Qed.

Lemma fetchone_is_Some {A} (P : Z * A → Prop) `{∀ r, Decision (P r)}
    (t : Table A) :
  is_Some (fetchone (select_where P t)) ↔ ∃ r, r ∈ rows t ∧ P r.
Proof.
  split.
  - intros [r Hr]. apply head_Some in Hr as [l Hl].
    assert (r ∈ filter P (rows t)) as Hin
      by (unfold select_where in Hl; rewrite Hl; left).
    apply list_elem_of_filter in Hin as [? ?]. eauto.
  - intros (r & Hr & HP).
    destruct (fetchone (select_where P t)) eqn:Hf; [done|].
    by destruct (proj1 (fetchone_None P t) Hf r).
Qed.

Lemma registered_fetchone d who :
  registered d who
  ↔ is_Some (fetchone (select_where (λ r, u_username r.2 = who) (users d))).
Proof.
  rewrite fetchone_is_Some. unfold registered. rewrite list_elem_of_fmap.
  split; intros (r & H1 & H2); exists r; by split.
Qed.

Lemma pending_fetchone d who :
  pending d who
  ↔ is_Some (fetchone (select_where (λ r, pu_username r.2 = who)
                         (pending_users d))).
Proof.
  rewrite fetchone_is_Some. unfold pending. rewrite list_elem_of_fmap.
  split; intros (r & H1 & H2); exists r; by split.
Qed.

(** ** Registration *)

Lemma usernames_unique_insert_pending d p :
  usernames_unique d → ¬ registered d (pu_username p) →
  ¬ pending d (pu_username p) →
  usernames_unique (with_pending_users (insert_row p) d).
Proof.
  unfold usernames_unique, registered, pending. simpl.
  intros Hnd Hreg Hpend. rewrite fmap_app, app_assoc. simpl.
  apply NoDup_app. split; [done|]. split; [|apply NoDup_singleton].
  intros x Hx Hx'. apply list_elem_of_singleton in Hx' as ->.
  apply elem_of_app in Hx as [?|?]; done.
Qed.

(** X23: [register] run from its first statement to its last with no other
    command in between: with a username that has a [users] row it replies
    "Username already registered.", with one that has only a
    [pending_users] row "Registration already pending approval." (both
    DuplicateError replies), and in either case executes no INSERT, commits
    nothing and leaves the database as it was; otherwise it appends exactly
    one [pending_users] row, holding the username and, for the password,
    what [bcrypt.hashpw] returns for it and a fresh salt, and commits. Hence
    a database where no username occurs twice over [users] and
    [pending_users] stays so. *)
Theorem register_keeps_usernames_unique `{Bcrypt} e username password w :
  let w' := (register e username password w).2 in
  let row := {| pu_username := username;
                pu_passhash := hashpw password (gensalt e 0);
                pu_requested_by := pretty (author_id (ctx e));
                pu_created_at := submission_timestamp e |} in
  (register e username password w).1 = Ok ()
  ∧ (registered (db w) username →
       db w' = db w
       ∧ trace w' = trace w ++
           [Execute "SELECT 1 FROM users WHERE username = %s";
            CtxSend UsernameAlreadyRegistered])
  ∧ (¬ registered (db w) username → pending (db w) username →
       db w' = db w
       ∧ trace w' = trace w ++
           [Execute "SELECT 1 FROM users WHERE username = %s";
            Execute "SELECT 1 FROM pending_users WHERE username = %s";
            CtxSend RegistrationAlreadyPending])
  ∧ (¬ registered (db w) username → ¬ pending (db w) username →
       db w' = with_pending_users (insert_row row) (db w)
       ∧ rows (pending_users (db w'))
         = rows (pending_users (db w))
           ++ [(auto_increment (pending_users (db w)), row)]
       ∧ users (db w') = users (db w)
       ∧ trace w' = trace w ++
           [Execute "SELECT 1 FROM users WHERE username = %s";
            Execute "SELECT 1 FROM pending_users WHERE username = %s";
            Execute "INSERT INTO pending_users (username, passhash, requested_by) VALUES (%s, %s, %s)";
            Commit;
            CtxSend RegistrationSubmitted])
  ∧ (usernames_unique (db w) → usernames_unique (db w'))
  ∧ error_of UsernameAlreadyRegistered = Some DuplicateError
  ∧ error_of RegistrationAlreadyPending = Some DuplicateError.
Proof.
  intros w' row. subst w' row.
  pose proof (registered_fetchone (db w) username) as Hreg.
  pose proof (pending_fetchone (db w) username) as Hpend.
  unfold register. run_monad.
  destruct (fetchone (select_where _ (users (db w)))) as [u|] eqn:Hu; simpl.
  { assert (registered (db w) username) as Hyes by (apply Hreg; eauto).
    split; [done|].
    split; [intros _; split; [done | by rewrite <- app_assoc]|].
    split; [intros Hno; by destruct Hno|].
    split; [intros Hno; by destruct Hno|].
    done. }
  assert (¬ registered (db w) username) as Hnreg
    by (intros [? [=]]%Hreg).
  destruct (fetchone (select_where _ (pending_users (db w)))) as [p|] eqn:Hp;
    simpl.
  { assert (pending (db w) username) as Hyes by (apply Hpend; eauto).
    split; [done|].
    split; [intros Hno; by destruct Hnreg|].
    split; [intros _ _; split; [done | by repeat rewrite <- app_assoc]|].
    split; [intros _ Hno; by destruct Hno|].
    done. }
  assert (¬ pending (db w) username) as Hnpend
    by (intros [? [=]]%Hpend).
  split; [done|].
  split; [intros Hno; by destruct Hnreg|].
  split; [intros _ Hno; by destruct Hnpend|].
  split; [intros _ _; repeat split; by repeat rewrite <- app_assoc|].
  split; [|done].
  intros Hnd.
  by apply (usernames_unique_insert_pending (db w)
              (registration e username password)).
Qed.

Lemma register_keeps_usernames_unique_witness :
  let w := world_with_user {| u_username := "alice"; u_passhash := "s0$pw" |} in
  let taken := @register example_bcrypt (example_env 7 10) "alice" "pw2" w in
  let fresh := @register example_bcrypt (example_env 8 10) "bob" "pw3" w in
  db taken.2 = db w
  ∧ rows (pending_users (db fresh.2))
    = [(1, {| pu_username := "bob"; pu_passhash := "s0$pw3";
              pu_requested_by := "8"; pu_created_at := 10 |})]
  ∧ usernames_unique (db fresh.2).
Proof.
  intros w taken fresh. subst taken fresh.
  destruct (@register_keeps_usernames_unique example_bcrypt
              (example_env 7 10) "alice" "pw2" w) as (_ & Hdup & _).
  destruct (@register_keeps_usernames_unique example_bcrypt
              (example_env 8 10) "bob" "pw3" w)
    as (_ & _ & _ & Hnew & Hinv & _).
  split; [|split].
  - apply Hdup. by_evaluation.
  - destruct Hnew as (_ & -> & _); [by_evaluation | by_evaluation |].
    reflexivity.
  - apply Hinv. by_evaluation.
Defined.

(** *** Two registrations at once *)

(** Run with nothing in between, the two halves are [register]. *)
Lemma register_in_two `{Bcrypt} e username password w :
  register e username password w
  = (go ← register_checks e username;
     if go : bool then register_insert e username password else pass) w.
Proof.
  unfold register, register_checks, register_insert, resume. run_monad.
  destruct (fetchone (select_where _ (users (db w)))); simpl; [done|].
  by destruct (fetchone (select_where _ (pending_users (db w)))).
Qed.

(** C9: the check of [register] does not hold where two registrations of
    one username are in flight together. When the second command is
    dispatched while the first is suspended between its second SELECT and
    its INSERT, neither finds a row: both go on, both are answered
    "Registration submitted for approval.", and [pending_users] ends with
    two rows of the same username, so the usernames are no longer unique;
    a resolution that approves both rows then fails with IntegrityError.
    Sent one after the other, the same two commands leave one row and the
    second is answered "Registration already pending approval.". *)
Theorem register_at_once_duplicates :
  let first := example_env 1001 10 in
  let second := example_env 1002 10 in
  let suspended := (register_checks first "alice" initial_world).2 in
  (register_checks first "alice" initial_world).1 = Ok true
  ∧ (register_checks second "alice" suspended).1 = Ok true
  ∧ replies (trace registered_at_once)
    = [RegistrationSubmitted; RegistrationSubmitted]
  ∧ (snd <$> rows (pending_users (db registered_at_once)))
    = [ {| pu_username := "alice"; pu_passhash := "s0$pw-a";
           pu_requested_by := "1001"; pu_created_at := 10 |};
        {| pu_username := "alice"; pu_passhash := "s0$pw-b";
           pu_requested_by := "1002"; pu_created_at := 10 |} ]
  ∧ ¬ usernames_unique (db registered_at_once)
  ∧ (approve_pending_users [1; 2] [] registered_at_once).1
    = Raise IntegrityError
  ∧ replies (trace registered_in_turn)
    = [RegistrationSubmitted; RegistrationAlreadyPending]
  ∧ (pu_username ∘ snd <$> rows (pending_users (db registered_in_turn)))
    = ["alice"]
  ∧ usernames_unique (db registered_in_turn).
Proof.
  intros first second suspended. subst first second suspended.
  split; [vm_compute; reflexivity|].
  split; [vm_compute; reflexivity|].
  split; [vm_compute; reflexivity|].
  split; [vm_compute; reflexivity|].
  split.
  { intros Hunique. unfold usernames_unique in Hunique.
    assert ((u_username ∘ snd <$> rows (users (db registered_at_once)))
            ++ (pu_username ∘ snd
                  <$> rows (pending_users (db registered_at_once)))
            = ["alice"; "alice"]) as Heq by (vm_compute; reflexivity).
    rewrite Heq in Hunique. apply NoDup_cons in Hunique as [Hin _].
    apply Hin. left. }
  split; [vm_compute; reflexivity|].
  split; [vm_compute; reflexivity|].
  split; [vm_compute; reflexivity|].
  by_evaluation.
Qed.

(** ** Access requests *)

Lemma with_access_requests_id d :
  with_access_requests (λ t, t) d = d.
Proof. by destruct d. Qed.

Lemma new_requests_with_access_requests f d account_id requested_by usernames :
  new_requests (with_access_requests f d) account_id requested_by usernames
  = new_requests d account_id requested_by usernames.
Proof. reflexivity. Qed.

Lemma loop_trace_with_access_requests f d usernames :
  loop_trace (with_access_requests f d) usernames = loop_trace d usernames.
Proof. reflexivity. Qed.

Lemma grant_access_loop account_id requested_by usernames w :
  for_each usernames (λ username,
    found ← query "SELECT 1 FROM users WHERE username = %s"
      (λ d, fetchone (select_where (λ r, u_username r.2 = username) (users d)));
    match found with
    | None => send (UserNotRegistered username)
    | Some _ =>
        execute "INSERT INTO access_requests (account_id, username, requested_by) VALUES (%s, %s, %s)"
          (with_access_requests (insert_row
             {| ar_account_id := account_id; ar_username := username;
                ar_requested_by := requested_by |}))
    end) w
  = (Ok (),
     {| sessions := sessions w; db := db w;
        conn := with_access_requests
                  (insert_rows (new_requests (conn w) account_id requested_by
                                  usernames)) (conn w);
        trace := trace w ++ loop_trace (conn w) usernames |}).
Proof.
  revert w. induction usernames as [|username usernames IH]; intros w.
  - simpl. unfold pass. run_monad. rewrite app_nil_r.
    unfold new_requests, insert_rows. simpl.
    rewrite with_access_requests_id. by destruct w.
  - cbn [for_each]. unfold mbind at 1, M_bind at 1.
    pose proof (registered_fetchone (conn w) username) as Hreg.
    unfold new_requests, loop_trace. rewrite filter_cons. cbn [mbind list_bind].
    fold (loop_trace (conn w) usernames).
    run_monad.
    destruct (fetchone (select_where _ (users (conn w)))) as [u|] eqn:Hu; simpl.
    + rewrite IH. simpl.
      rewrite new_requests_with_access_requests, loop_trace_with_access_requests.
      rewrite !decide_True by (apply Hreg; eauto).
      simpl. by rewrite <- !app_assoc.
    + rewrite IH. simpl.
      rewrite !decide_False by (by intros [? [=]]%Hreg).
      simpl. by rewrite <- !app_assoc.
Qed.

Lemma owned_nil d account_id who :
  owned d account_id who = []
  ↔ ∀ r, r ∈ rows (game_accounts d) → r.1 = account_id →
         ga_uploader_username r.2 ≠ who.
Proof.
  unfold owned. rewrite <- head_None.
  change (head (select_where ?P ?t)) with (fetchone (select_where P t)).
  rewrite fetchone_None. split.
  - intros Hno r Hr Hid Hup. by apply (Hno r).
  - intros Hno r Hr [Hid Hup]. by apply (Hno r).
Qed.

Lemma grant_access_owner e account_id usernames w s :
  logged_in_as w e s → usernames ≠ [] →
  owned (db w) account_id (username s) ≠ [] →
  let d' := with_access_requests
              (insert_rows (new_requests (db w) account_id (username s)
                              usernames)) (db w) in
  grant_access e account_id usernames w =
    (Ok (),
     {| sessions := sessions w; db := d'; conn := d';
        trace := trace w ++
          [Execute "SELECT id FROM game_accounts WHERE id = %s AND uploader_username = %s"]
          ++ loop_trace (db w) usernames
          ++ [Commit; CtxSend AccessRequestsSent] |}).
Proof.
  intros Hs Hne Hown d'. unfold grant_access.
  unfold mbind at 1, M_bind at 1. rewrite (is_logged_in_logged_in _ _ s) by done.
  destruct usernames as [|grantee usernames]; [done|].
  unfold mbind at 1, M_bind at 1. unfold acquire at 1.
  unfold mbind at 1, M_bind at 1. unfold query at 1. cbn [conn].
  fold (owned (db w) account_id (username s)).
  destruct (owned (db w) account_id (username s)) as [|acct rest] eqn:Hacct;
    [done|]. cbn [fetchone head].
  unfold mbind at 1, M_bind at 1. rewrite grant_access_loop. cbn [conn trace].
  run_monad. subst d'. by rewrite <- !app_assoc.
Qed.

Lemma grant_access_empty e account_id w s :
  logged_in_as w e s →
  grant_access e account_id [] w =
    (Ok (),
     {| sessions := sessions w; db := db w; conn := conn w;
        trace := trace w ++ [CtxSend ProvideAtLeastOneUsername] |}).
Proof.
  intros Hs. unfold grant_access. unfold mbind at 1, M_bind at 1.
  by rewrite (is_logged_in_logged_in _ _ s).
Qed.

Lemma grant_access_not_owner e account_id usernames w s :
  logged_in_as w e s → usernames ≠ [] →
  owned (db w) account_id (username s) = [] →
  grant_access e account_id usernames w =
    (Ok (),
     {| sessions := sessions w; db := db w; conn := db w;
        trace := trace w ++
          [Execute "SELECT id FROM game_accounts WHERE id = %s AND uploader_username = %s";
           CtxSend AccountNotFoundOrNotOwned] |}).
Proof.
  intros Hs Hne Hown. unfold grant_access.
  unfold mbind at 1, M_bind at 1. rewrite (is_logged_in_logged_in _ _ s) by done.
  destruct usernames as [|grantee usernames]; [done|].
  unfold mbind at 1, M_bind at 1. unfold acquire at 1.
  unfold mbind at 1, M_bind at 1. unfold query at 1. cbn [conn].
  fold (owned (db w) account_id (username s)). rewrite Hown.
  run_monad. by rewrite <- app_assoc.
Qed.

(** C5, as stated, fails for the empty list: Bob, logged in, names Alice's
    credential and no username, and the reply is "Provide at least one
    username to grant access.", the ValidationError reply, not the
    OwnershipError one: the list is looked at before the credential. *)
Lemma grant_access_unowned_without_usernames :
  @reachable example_bcrypt invited
  ∧ ¬ refused_as_unowned (example_env 1002 41) 1 [] invited.
Proof.
  split; [exists onboarding; unfold invited; reflexivity|].
  intros Hclaim.
  destruct (Hclaim {| username := "bob"; expires_at := 21 + SESSION_DURATION |})
    as [Hreply _].
  - split; [vm_compute; reflexivity | vm_compute; discriminate].
  - vm_compute. reflexivity.
  - vm_compute in Hreply. discriminate Hreply.
Qed.

(** C5, amended: [grant_access] by a logged-in caller with no username given
    replies "Provide at least one username to grant access." (the
    ValidationError reply) before any statement is executed, whether or not
    the caller uploaded the credential; with at least one username and an
    [account_id] for which [game_accounts] has no row uploaded by the caller
    (no such id, or another uploader) it replies "Account not found or not
    owned by you." (the OwnershipError reply) after the one SELECT. Either
    way no INSERT is executed, nothing is committed and the database,
    [access_requests] included, is as before. *)
Theorem grant_access_refused e account_id usernames w s :
  logged_in_as w e s →
  let w' := (grant_access e account_id usernames w).2 in
  (usernames = [] →
     (grant_access e account_id usernames w).1 = Ok ()
     ∧ db w' = db w
     ∧ trace w' = trace w ++ [CtxSend ProvideAtLeastOneUsername])
  ∧ (usernames ≠ [] →
       (∀ r, r ∈ rows (game_accounts (db w)) → r.1 = account_id →
             ga_uploader_username r.2 ≠ username s) →
       (grant_access e account_id usernames w).1 = Ok ()
       ∧ db w' = db w
       ∧ access_requests (db w') = access_requests (db w)
       ∧ trace w' = trace w ++
           [Execute "SELECT id FROM game_accounts WHERE id = %s AND uploader_username = %s";
            CtxSend AccountNotFoundOrNotOwned])
  ∧ error_of ProvideAtLeastOneUsername = Some ValidationError
  ∧ error_of AccountNotFoundOrNotOwned = Some OwnershipError.
Proof.
  intros Hs w'. subst w'. split; [|split; [|done]].
  - intros ->. by rewrite (grant_access_empty _ _ _ s).
  - intros Hne Hno. apply owned_nil in Hno.
    by rewrite (grant_access_not_owner _ _ _ _ s).
Qed.

Lemma grant_access_refused_witness :
  let alice := {| username := "alice"; expires_at := 20 + SESSION_DURATION |} in
  let bob := {| username := "bob"; expires_at := 21 + SESSION_DURATION |} in
  trace (grant_access (example_env 1001 41) 1 [] invited).2
    = trace invited ++ [CtxSend ProvideAtLeastOneUsername]
  ∧ trace (grant_access (example_env 1002 41) 1 ["alice"] invited).2
    = trace invited ++
        [Execute "SELECT id FROM game_accounts WHERE id = %s AND uploader_username = %s";
         CtxSend AccountNotFoundOrNotOwned]
  ∧ access_requests (db (grant_access (example_env 1001 41) 2 ["bob"] invited).2)
    = access_requests (db invited).
Proof.
  intros alice bob.
  destruct (grant_access_refused (example_env 1001 41) 1 [] invited alice)
    as (Hempty & _);
    [split; [vm_compute; reflexivity | vm_compute; discriminate]|].
  destruct (grant_access_refused (example_env 1002 41) 1 ["alice"] invited bob)
    as (_ & Hother & _);
    [split; [vm_compute; reflexivity | vm_compute; discriminate]|].
  destruct (grant_access_refused (example_env 1001 41) 2 ["bob"] invited alice)
    as (_ & Hmissing & _);
    [split; [vm_compute; reflexivity | vm_compute; discriminate]|].
  split; [|split].
  - by destruct Hempty as (_ & _ & ->).
  - destruct Hother as (_ & _ & _ & ->); [done| |done].
    intros r Hr Hid Hname. vm_compute in Hr.
    apply list_elem_of_singleton in Hr as ->. discriminate Hname.
  - destruct Hmissing as (_ & _ & -> & _); [done| |done].
    intros r Hr Hid _. vm_compute in Hr.
    apply list_elem_of_singleton in Hr as ->. discriminate Hid.
Defined.

(** *** Counting the requests of a pair *)

Lemma rows_insert_row {A} (a : A) t :
  snd <$> rows (insert_row a t) = (snd <$> rows t) ++ [a].
Proof. unfold insert_row. simpl. by rewrite fmap_app. Qed.

Lemma rows_insert_rows {A} (l : list A) t :
  snd <$> rows (insert_rows l t) = (snd <$> rows t) ++ l.
Proof.
  revert t. induction l as [|a l IH]; intros t; simpl.
  - by rewrite app_nil_r.
  - unfold insert_rows in *. simpl. rewrite IH, rows_insert_row.
    by rewrite <- app_assoc.
Qed.

Lemma length_filter_snd {A} (Q : A → Prop) (P : Z * A → Prop)
    `{∀ x, Decision (Q x)} `{∀ r, Decision (P r)} (l : list (Z * A)) :
  (∀ r, P r ↔ Q r.2) →
  length (filter P l) = length (filter Q (snd <$> l)).
Proof.
  intros HPQ. induction l as [|r l IH]; [done|].
  rewrite fmap_cons, !filter_cons.
  destruct (decide (P r)) as [HP|HP], (decide (Q r.2)) as [HQ|HQ]; simpl;
    rewrite ?IH; try done; by apply HPQ in HP || apply HPQ in HQ.
Qed.

Lemma length_requested d account_id who :
  length (requested d account_id who)
  = length (filter (λ x, ar_account_id x = account_id ∧ ar_username x = who)
              (snd <$> rows (access_requests d))).
Proof.
  unfold requested, select_where. by apply length_filter_snd.
Qed.

Lemma count_new_requests d account_id requested_by usernames who :
  length (filter (λ x, ar_account_id x = account_id ∧ ar_username x = who)
            (new_requests d account_id requested_by usernames))
  = if decide (registered d who)
    then length (filter (λ u, u = who) usernames) else 0%nat.
Proof.
  unfold new_requests.
  induction usernames as [|u usernames IH].
  - by destruct (decide (registered d who)).
  - rewrite (filter_cons (registered d)), (filter_cons (λ u, u = who)).
    destruct (decide (registered d u)) as [Hu|Hu].
    + rewrite fmap_cons, filter_cons. simpl.
      destruct (decide (u = who)) as [->|Hne].
      * rewrite decide_True by done. simpl. rewrite IH.
        by case_decide.
      * rewrite decide_False by (by intros [_ ?]). done.
    + rewrite IH. destruct (decide (u = who)) as [->|Hne]; [|done].
      by case_decide.
Qed.

Lemma reachable_after `{Bcrypt} w st : reachable w → reachable (after st w).
Proof.
  intros [steps <-]. exists (steps ++ [st]). unfold run. by rewrite foldl_snoc.
Qed.

(** C4, as stated, fails: after Alice has asked access for Bob, asking again
    adds a second row for the same pair, in a state the system reaches. *)
Lemma grant_access_repeats_request :
  let e := example_env 1001 41 in
  let again := @after example_bcrypt (Bot e (GrantAccess 1 ["bob"])) invited in
  ¬ skips_existing_request e 1 ["bob"] invited
  ∧ @reachable example_bcrypt again
  ∧ ¬ at_most_one_request (db again).
Proof.
  intros e again. split; [|split].
  - intros Hskip.
    assert ("bob" ∈ ["bob"]) as Hin by left.
    assert (requested (db invited) 1 "bob" ≠ []) as Hrow
      by (vm_compute; discriminate).
    pose proof (Hskip "bob" Hin Hrow) as Heq.
    apply (f_equal length) in Heq. vm_compute in Heq. discriminate Heq.
  - apply reachable_after. exists onboarding. unfold invited. reflexivity.
  - intros Hone. specialize (Hone 1 "bob"). vm_compute in Hone. lia.
Qed.

(** C4, amended: [grant_access] is not idempotent per grantee. Called by a
    logged-in caller who uploaded the credential, with a non-empty list, it
    appends to [access_requests] one row per listed username that has a
    [users] row, in list order and once per occurrence, attributed to the
    caller, whether or not the pair has a row already, and commits; so the
    number of rows of a pair grows by the number of times the grantee is
    listed when the grantee is registered, and stays the same otherwise. *)
Theorem grant_access_adds_requests e account_id usernames w s :
  logged_in_as w e s → usernames ≠ [] →
  owned (db w) account_id (username s) ≠ [] →
  let w' := (grant_access e account_id usernames w).2 in
  (grant_access e account_id usernames w).1 = Ok ()
  ∧ db w' = with_access_requests
              (insert_rows (new_requests (db w) account_id (username s)
                              usernames)) (db w)
  ∧ (snd <$> rows (access_requests (db w')))
    = (snd <$> rows (access_requests (db w)))
      ++ new_requests (db w) account_id (username s) usernames
  ∧ ∀ who,
      length (requested (db w') account_id who)
      = (length (requested (db w) account_id who)
         + if decide (registered (db w) who)
           then length (filter (λ u, u = who) usernames) else 0)%nat.
Proof.
  intros Hs Hne Hown w'. subst w'. rewrite (grant_access_owner _ _ _ _ s) by done.
  cbn [fst snd db]. split; [done|]. split; [done|].
  split; [apply rows_insert_rows|].
  intros who. rewrite !length_requested. cbn [access_requests with_access_requests].
  rewrite rows_insert_rows, filter_app, length_app.
  by rewrite count_new_requests.
Qed.

Lemma grant_access_adds_requests_witness :
  let e := example_env 1001 41 in
  length (requested (db (grant_access e 1 ["bob"; "carol"; "bob"] invited).2)
            1 "bob") = 3%nat.
Proof.
  intros e.
  destruct (grant_access_adds_requests e 1 ["bob"; "carol"; "bob"] invited
              {| username := "alice"; expires_at := 20 + SESSION_DURATION |})
    as (_ & _ & _ & Hcount).
  - split; [vm_compute; reflexivity | vm_compute; discriminate].
  - discriminate.
  - vm_compute. discriminate.
  - rewrite Hcount. vm_compute. reflexivity.
Defined.

(** ** Confirmation *)

Lemma confirm_access_found e account_id w s row rest :
  logged_in_as w e s →
  requested (db w) account_id (username s) = row :: rest →
  confirm_access e account_id w =
    (Ok (),
     {| sessions := sessions w;
        db := confirmed (db w) account_id s row;
        conn := confirmed (db w) account_id s row;
        trace := trace w ++
          [Execute "SELECT id, requested_by FROM access_requests WHERE account_id = %s AND username = %s";
           Execute "INSERT INTO access_grants (account_id, username, granted_by) VALUES (%s, %s, %s)";
           Execute "DELETE FROM access_requests WHERE id = %s";
           Commit;
           CtxSend AccessConfirmed] |}).
Proof.
  intros Hs Hrow. unfold confirm_access.
  unfold mbind at 1, M_bind at 1. rewrite (is_logged_in_logged_in _ _ s) by done.
  unfold mbind at 1, M_bind at 1. unfold acquire at 1.
  unfold mbind at 1, M_bind at 1. unfold query at 1. cbn [conn].
  fold (requested (db w) account_id (username s)). rewrite Hrow.
  run_monad. by rewrite <- !app_assoc.
Qed.

Lemma confirm_access_none e account_id w s :
  logged_in_as w e s →
  requested (db w) account_id (username s) = [] →
  confirm_access e account_id w =
    (Ok (),
     {| sessions := sessions w; db := db w; conn := db w;
        trace := trace w ++
          [Execute "SELECT id, requested_by FROM access_requests WHERE account_id = %s AND username = %s";
           CtxSend NoPendingAccessRequestFound] |}).
Proof.
  intros Hs Hrow. unfold confirm_access.
  unfold mbind at 1, M_bind at 1. rewrite (is_logged_in_logged_in _ _ s) by done.
  unfold mbind at 1, M_bind at 1. unfold acquire at 1.
  unfold mbind at 1, M_bind at 1. unfold query at 1. cbn [conn].
  fold (requested (db w) account_id (username s)). rewrite Hrow.
  run_monad. by rewrite <- !app_assoc.
Qed.

Lemma requested_confirmed d account_id s row who :
  requested (confirmed d account_id s row) account_id who
  = filter (λ r, r.1 ≠ row.1) (requested d account_id who).
Proof.
  unfold requested, confirmed, select_where. simpl.
  rewrite !list_filter_filter. apply list_filter_iff. intros r. tauto.
Qed.

(** C1, as stated, fails where the pair has two request rows (Alice asked
    twice, a state the system reaches): Bob's second confirmation succeeds
    as well and adds a second grant row. *)
Lemma confirm_access_twice :
  @reachable example_bcrypt invited_twice
  ∧ ¬ confirm_exactly_once (example_env 1002 50) (example_env 1002 51) 1
        invited_twice.
Proof.
  split.
  { apply reachable_after. exists onboarding. unfold invited. reflexivity. }
  intros Hclaim.
  destruct (Hclaim {| username := "bob"; expires_at := 21 + SESSION_DURATION |}
              (1, {| ar_account_id := 1; ar_username := "bob";
                     ar_requested_by := "alice" |})
              [(2, {| ar_account_id := 1; ar_username := "bob";
                      ar_requested_by := "alice" |})])
    as [_ Hsecond].
  - split; [vm_compute; reflexivity | vm_compute; discriminate].
  - vm_compute. reflexivity.
  - destruct Hsecond as [Hdb _].
    + reflexivity.
    + split; [vm_compute; reflexivity | vm_compute; discriminate].
    + apply (f_equal (λ d, length (rows (access_grants d)))) in Hdb.
      vm_compute in Hdb. discriminate Hdb.
Qed.

(** C1, amended: with a request row for (credential, caller),
    [confirm_access] inserts a grant row for the pair whose [granted_by] is
    the [requested_by] of the first such row and deletes the request rows
    with that row's id, both published by one commit, and replies "Access
    confirmed."; the row is then gone from [access_requests]. When that
    row was the pair's only request, a second call by the same caller,
    still logged in, replies "No pending access request found." (the
    NotFoundError reply) and leaves the database as it was. *)
Theorem confirm_access_consumes_request e e' account_id w s row rest :
  logged_in_as w e s →
  requested (db w) account_id (username s) = row :: rest →
  let w1 := (confirm_access e account_id w).2 in
  (confirm_access e account_id w).1 = Ok ()
  ∧ db w1 = confirmed (db w) account_id s row
  ∧ trace w1 = trace w ++
      [Execute "SELECT id, requested_by FROM access_requests WHERE account_id = %s AND username = %s";
       Execute "INSERT INTO access_grants (account_id, username, granted_by) VALUES (%s, %s, %s)";
       Execute "DELETE FROM access_requests WHERE id = %s";
       Commit;
       CtxSend AccessConfirmed]
  ∧ (snd <$> rows (access_grants (db w1)))
    = (snd <$> rows (access_grants (db w)))
      ++ [{| ag_account_id := account_id; ag_username := username s;
             ag_granted_by := ar_requested_by row.2 |}]
  ∧ (row ∉ rows (access_requests (db w1)))
  ∧ (rest = [] → author_id (ctx e') = author_id (ctx e) →
     logged_in_as w1 e' s →
     let w2 := (confirm_access e' account_id w1).2 in
     (confirm_access e' account_id w1).1 = Ok ()
     ∧ db w2 = db w1
     ∧ trace w2 = trace w1 ++
         [Execute "SELECT id, requested_by FROM access_requests WHERE account_id = %s AND username = %s";
          CtxSend NoPendingAccessRequestFound]
     ∧ error_of NoPendingAccessRequestFound = Some NotFoundError).
Proof.
  intros Hs Hrow w1. subst w1.
  rewrite (confirm_access_found _ _ _ s row rest) by done. cbn [fst snd db trace].
  split; [done|]. split; [done|]. split; [done|].
  split; [apply rows_insert_row|]. split.
  - unfold confirmed, delete_where. simpl. intros Hin.
    apply list_elem_of_filter in Hin as [Hid _]. by destruct Hid.
  - intros -> Hsame Hs1.
    assert (requested (confirmed (db w) account_id s row) account_id (username s)
            = []) as Hnone.
    { rewrite requested_confirmed, Hrow, filter_cons.
      by rewrite decide_False by (by intros Hne; destruct Hne). }
    rewrite (confirm_access_none _ _ _ s) by done. done.
Qed.

Lemma confirm_access_consumes_request_witness :
  let bob := {| username := "bob"; expires_at := 21 + SESSION_DURATION |} in
  let once := (confirm_access (example_env 1002 50) 1 invited).2 in
  let twice := (confirm_access (example_env 1002 51) 1 once).2 in
  (snd <$> rows (access_grants (db once)))
    = [{| ag_account_id := 1; ag_username := "bob"; ag_granted_by := "alice" |}]
  ∧ rows (access_requests (db once)) = []
  ∧ db twice = db once.
Proof.
  intros bob once twice. subst once twice.
  destruct (confirm_access_consumes_request
              (example_env 1002 50) (example_env 1002 51) 1 invited bob
              (1, {| ar_account_id := 1; ar_username := "bob";
                     ar_requested_by := "alice" |}) [])
    as (_ & _ & _ & Hgrant & _ & Hsecond).
  - split; [vm_compute; reflexivity | vm_compute; discriminate].
  - vm_compute. reflexivity.
  - split; [rewrite Hgrant; vm_compute; reflexivity|].
    split; [vm_compute; reflexivity|].
    apply Hsecond; [reflexivity | reflexivity |].
    split; [vm_compute; reflexivity | vm_compute; discriminate].
Defined.

(** ** Disclosure *)

Lemma share_account_checked e account_id target_username game_username
    game_password w s account rest :
  logged_in_as w e s →
  owned (db w) account_id (username s) = account :: rest →
  share_account e account_id target_username game_username game_password w =
    let w' :=
      {| sessions := sessions w; db := db w; conn := db w;
         trace := trace w ++
           [Execute "SELECT id, game FROM game_accounts WHERE id = %s AND uploader_username = %s";
            Execute "SELECT 1 FROM access_grants WHERE account_id = %s AND username = %s"] |} in
    match granted (db w) account_id target_username with
    | [] => send UserDoesNotHaveConfirmedAccess w'
    | _ =>
        match guild (ctx e) with
        | None => (Raise AttributeError, w')
        | Some members =>
            match get_by_name members target_username with
            | None => send RecipientNotFound w'
            | Some recipient =>
                (emit (DirectMessage (member_id recipient)
                         (shared_details (ga_game account.2) (username s)
                            game_username game_password)) ;;
                 send AccountDetailsShared) w'
            end
        end
    end.
Proof.
  intros Hs Hown. unfold share_account.
  unfold mbind at 1, M_bind at 1. rewrite (is_logged_in_logged_in _ _ s) by done.
  unfold mbind at 1, M_bind at 1. unfold acquire at 1.
  unfold mbind at 1, M_bind at 1. unfold query at 1. cbn [conn].
  fold (owned (db w) account_id (username s)). rewrite Hown.
  cbn [fetchone head].
  unfold mbind at 1, M_bind at 1. unfold query at 1. cbn [conn trace db sessions].
  fold (granted (db w) account_id target_username).
  rewrite <- app_assoc. simpl.
  destruct (granted (db w) account_id target_username) as [|g grest];
    [done|]. cbn [fetchone head].
  unfold guild_members. destruct (guild (ctx e)) as [members|]; [|done].
  unfold mbind at 1, M_bind at 1. unfold mret, M_ret.
  by destruct (get_by_name members target_username).
Qed.

(** C2, as stated, fails where the grantee is not a member of the server
    the command is sent in: the grant row exists, yet nothing is sent. *)
Lemma share_account_without_recipient :
  @reachable example_bcrypt accepted
  ∧ ¬ discloses_iff_granted (env_without_bob 60) 1 "bob" "u" "p" accepted.
Proof.
  split.
  { apply reachable_after. exists onboarding. unfold invited. reflexivity. }
  intros Hclaim.
  destruct (Hclaim {| username := "alice"; expires_at := 20 + SESSION_DURATION |}
              (1, {| ga_uploader_username := "alice"; ga_game := "wow";
                     ga_game_username_hash := "s0$u";
                     ga_game_password_hash := "s1$p" |}) [])
    as [_ Hsend].
  - split; [vm_compute; reflexivity | vm_compute; discriminate].
  - vm_compute. reflexivity.
  - destruct Hsend as [recipient Htrace]; [vm_compute; discriminate|].
    apply (f_equal length) in Htrace. vm_compute in Htrace.
    discriminate Htrace.
Qed.

(** C10: [share_account] by a logged-in caller who uploaded the credential,
    for a target with a grant row, sent in a server none of whose members
    has the target's name, replies "Recipient not found in this server.",
    which stands for none of the five error classes, and sends no direct
    message to anyone; the database is as before. *)
Theorem share_account_recipient_missing e account_id target_username
    game_username game_password w s account rest members :
  logged_in_as w e s →
  owned (db w) account_id (username s) = account :: rest →
  granted (db w) account_id target_username ≠ [] →
  guild (ctx e) = Some members →
  (∀ m, m ∈ members → name m ≠ target_username) →
  let result := share_account e account_id target_username game_username
                  game_password w in
  result.1 = Ok ()
  ∧ db result.2 = db w
  ∧ trace result.2 = trace w ++
      [Execute "SELECT id, game FROM game_accounts WHERE id = %s AND uploader_username = %s";
       Execute "SELECT 1 FROM access_grants WHERE account_id = %s AND username = %s";
       CtxSend RecipientNotFound]
  ∧ direct_messages (trace result.2) = direct_messages (trace w)
  ∧ render RecipientNotFound = "Recipient not found in this server."
  ∧ error_of RecipientNotFound = None.
Proof.
  intros Hs Hown Hgrant Hguild Hnone result. subst result.
  rewrite (share_account_checked _ _ _ _ _ _ s account rest) by done.
  destruct (granted (db w) account_id target_username); [done|].
  rewrite Hguild.
  assert (get_by_name members target_username = None) as ->.
  { unfold get_by_name. apply head_None.
    destruct (filter _ members) as [|m ms] eqn:Hf; [done|].
    assert (m ∈ filter (λ m, name m = target_username) members) as Hin
      by (rewrite Hf; left).
    apply list_elem_of_filter in Hin as [Hname Hin]. by destruct (Hnone m). }
  run_monad. rewrite <- app_assoc. simpl.
  split; [done|]. split; [done|]. split; [done|]. split; [|done].
  unfold direct_messages. rewrite bind_app. simpl. by rewrite app_nil_r.
Qed.

Lemma share_account_recipient_missing_witness :
  trace (share_account (env_without_bob 60) 1 "bob" "u" "p" accepted).2
  = trace accepted ++
      [Execute "SELECT id, game FROM game_accounts WHERE id = %s AND uploader_username = %s";
       Execute "SELECT 1 FROM access_grants WHERE account_id = %s AND username = %s";
       CtxSend RecipientNotFound].
Proof.
  apply (share_account_recipient_missing (env_without_bob 60) 1 "bob" "u" "p"
           accepted
           {| username := "alice"; expires_at := 20 + SESSION_DURATION |}
           (1, {| ga_uploader_username := "alice"; ga_game := "wow";
                  ga_game_username_hash := "s0$u";
                  ga_game_password_hash := "s1$p" |}) []
           [ {| member_id := 1001; name := "alice" |} ]).
  - split; [vm_compute; reflexivity | vm_compute; discriminate].
  - vm_compute. reflexivity.
  - vm_compute. discriminate.
  - reflexivity.
  - intros m Hm. apply list_elem_of_singleton in Hm as ->. discriminate.
Defined.

(** ** Invariants of the database *)

Section db_invariant.
Context (J : DB → Prop).

Lemma preserves_ret {A} (a : A) : preserves J (mret a).
Proof. by intros w. Qed.

Lemma preserves_bind {A B} (m : M A) (f : A → M B) :
  preserves J m → (∀ a, preserves J (f a)) → preserves J (m ≫= f).
Proof.
  intros Hm Hf w Hw. unfold mbind, M_bind. specialize (Hm w Hw).
  destruct (m w) as [[a | x] w']; simpl in *; [|done].
  by apply Hf.
Qed.

Lemma preserves_raise {A} x : preserves J (@raise A x).
Proof. by intros w. Qed.

Lemma preserves_pass : preserves J pass.
Proof. by intros w. Qed.

Lemma preserves_emit ev : preserves J (emit ev).
Proof. by intros w. Qed.

Lemma preserves_send r : preserves J (send r).
Proof. by intros w. Qed.

Lemma preserves_print line : preserves J (print line).
Proof. by intros w. Qed.

Lemma preserves_get_sessions : preserves J get_sessions.
Proof. by intros w. Qed.

Lemma preserves_set_sessions ss : preserves J (set_sessions ss).
Proof. by intros w. Qed.

Lemma preserves_acquire : preserves J acquire.
Proof. intros w [Hdb _]. by split. Qed.

Lemma preserves_query {A} sql (q : DB → A) : preserves J (query sql q).
Proof. by intros w. Qed.

Lemma preserves_commit : preserves J commit.
Proof. intros w [_ Hconn]. by split. Qed.

Lemma preserves_execute sql f :
  (∀ d, J d → J (f d)) → preserves J (execute sql f).
Proof. intros Hf w [Hdb Hconn]. split; [done|]. by apply Hf. Qed.

Lemma preserves_for_each {A} (l : list A) body :
  (∀ x, preserves J (body x)) → preserves J (for_each l body).
Proof.
  intros Hbody. induction l as [|x l IH]; simpl.
  - apply preserves_pass.
  - by apply preserves_bind.
Qed.

Lemma preserves_guild_members c : preserves J (guild_members c).
Proof. unfold guild_members. by destruct (guild c); intros w. Qed.

Lemma preserves_is_logged_in now user_id :
  preserves J (is_logged_in now user_id).
Proof.
  intros w [Hdb Hconn]. unfold is_logged_in. run_monad.
  destruct (sessions w !! user_id) as [s|]; [|by split].
  destruct (decide (expires_at s < now)); by split.
Qed.

Lemma preserves_insert_users_select sql ids :
  (∀ f d, J d → J (with_users f d)) →
  preserves J (insert_users_select sql ids).
Proof.
  intros Hf w Hw. unfold insert_users_select. case_decide.
  - by apply preserves_execute; [intros d; apply Hf|].
  - done.
Qed.
End db_invariant.

Create HintDb db_invariant.

#[local] Hint Resolve preserves_ret preserves_raise preserves_pass
  preserves_emit preserves_send preserves_print preserves_get_sessions
  preserves_set_sessions preserves_acquire preserves_query preserves_commit
  preserves_guild_members preserves_is_logged_in : db_invariant.

(** Breaks a command body down to the primitives; what remains is that
    each INSERT or DELETE keeps the invariant. *)
Ltac preserving :=
  repeat first
    [ progress eauto with db_invariant
    | apply preserves_bind; [|intros ?]
    | apply preserves_for_each; intros ?
    | apply preserves_execute; intros ? ?
    | apply preserves_insert_users_select; intros ? ? ?
    | match goal with
      | |- preserves _ (match ?x with _ => _ end) => destruct x
      | |- preserves _ (if ?x then _ else _) => destruct x
      end ].

Lemma ungranted_insert account_id who g d :
  ¬ (ag_account_id g = account_id ∧ ag_username g = who) →
  ungranted account_id who d →
  ungranted account_id who (with_access_grants (insert_row g) d).
Proof.
  intros Hne Hd r Hr. simpl in Hr. apply elem_of_app in Hr as [Hr|Hr].
  - by apply Hd.
  - by apply list_elem_of_singleton in Hr as ->.
Qed.

Lemma other_steps_keep_ungranted `{Bcrypt} account_id who st :
  (∀ e confirmed_id, st ≠ Bot e (ConfirmAccess confirmed_id)) →
  preserves (ungranted account_id who) (step st).
Proof.
  intros Hst. destruct st as [e c|approve_ids reject_ids|approve_ids reject_ids];
    simpl.
  - destruct c; simpl;
      [ unfold register | unfold login, fetch_user | unfold logout
      | unfold upload_account | unfold list_accounts | unfold grant_access
      | by destruct (Hst e account_id0)
      | unfold share_account | unfold pending_access ];
      preserving; done.
  - unfold approve_pending_users. preserving; done.
  - unfold approve_pending_accounts, insert_game_accounts_select.
    preserving; done.
Qed.

Lemma confirm_access_keeps_ungranted account_id who e confirmed_id w :
  ¬ confirms account_id who (Bot e (ConfirmAccess confirmed_id)) w →
  holds (ungranted account_id who) w →
  holds (ungranted account_id who) (confirm_access e confirmed_id w).2.
Proof.
  unfold confirms, confirm_access. intros Hnot Hw.
  unfold mbind at 1, M_bind at 1.
  pose proof (preserves_is_logged_in (ungranted account_id who) (utcnow e)
                (author_id (ctx e)) w Hw) as Hw0.
  revert Hnot Hw0.
  destruct (is_logged_in (utcnow e) (author_id (ctx e)) w)
    as [[[session|]|x] w0]; cbn [fst snd]; intros Hnot Hw0; [| |done].
  - revert w0 Hw0.
    match goal with
    | |- ∀ w0, holds ?J w0 → holds ?J (@?m w0).2 => change (preserves J m)
    end.
    preserving; try done.
    apply ungranted_insert; [|done]. simpl. intros [-> Hname].
    by apply Hnot.
  - by apply preserves_send.
Qed.

Lemma after_keeps_ungranted `{Bcrypt} account_id who st w :
  ¬ confirms account_id who st w →
  holds (ungranted account_id who) w →
  holds (ungranted account_id who) (after st w).
Proof.
  intros Hnot Hw. unfold after.
  destruct st as [e c|approve_ids reject_ids|approve_ids reject_ids];
    [destruct c|..];
    try (by apply other_steps_keep_ungranted).
  by apply confirm_access_keeps_ungranted.
Qed.

Lemma run_keeps_ungranted `{Bcrypt} account_id who steps w :
  never_confirmed account_id who steps w →
  holds (ungranted account_id who) w →
  holds (ungranted account_id who) (run steps w).
Proof.
  revert w. induction steps as [|st steps IH]; intros w Hsteps Hw; [done|].
  destruct Hsteps as [Hst Hsteps]. simpl. apply IH; [done|].
  by apply after_keeps_ungranted.
Qed.

Lemma granted_ungranted d account_id who :
  ungranted account_id who d → granted d account_id who = [].
Proof.
  intros Hd. unfold granted. apply head_None.
  change (head (select_where ?P ?t)) with (fetchone (select_where P t)).
  apply fetchone_None. intros r Hr Hpair. by apply (Hd r).
Qed.

(** Before any [confirm_access] for a pair there is no grant row for it,
    whatever else has happened, confirmations of other grantees for the
    same credential included. *)
Lemma no_grant_before_confirm `{Bcrypt} account_id who steps :
  never_confirmed account_id who steps initial_world →
  granted (db (run steps initial_world)) account_id who = [].
Proof.
  intros Hsteps. apply granted_ungranted.
  apply (run_keeps_ungranted account_id who steps initial_world Hsteps).
  split; intros r Hr; by apply elem_of_nil in Hr.
Qed.

Lemma get_by_name_first before recipient others :
  (∀ m, m ∈ before → name m ≠ name recipient) →
  get_by_name (before ++ recipient :: others) (name recipient)
  = Some recipient.
Proof.
  intros Hbefore. unfold get_by_name. rewrite filter_app, filter_cons.
  rewrite decide_True by done.
  replace (filter _ before) with (@nil Member); [done|].
  symmetry. apply head_None.
  induction before as [|m before IH]; [done|].
  rewrite filter_cons, decide_False by (apply Hbefore; left).
  apply IH. intros m' Hm'. apply Hbefore. by right.
Qed.

(** C2, amended: for a logged-in caller who uploaded the credential,
    [share_account] replies "User does not have confirmed access." (the
    NotFoundError reply) when [access_grants] has no row for (credential,
    target), sending no direct message; that is the case in every state
    reached before a [confirm_access] for that pair, whatever else has
    happened. When there is such a row and the command is sent in a server
    with a member named as the target, it sends the first such member
    exactly one direct message, whose text is "Shared <game> account from
    <caller>:", "Username: " and "Password: " on three lines with the two
    strings of the command line as they were given, and replies "Account
    details shared via DM.". In both cases only the two SELECTs are
    executed (neither reads a stored hash, and no hash is computed or
    checked) and the database is as before. *)
Theorem share_account_needs_grant `{Bcrypt} e account_id target_username
    game_username game_password w s account rest :
  logged_in_as w e s →
  owned (db w) account_id (username s) = account :: rest →
  let result := share_account e account_id target_username game_username
                  game_password w in
  let line_feed := String (Ascii.ascii_of_nat 10) EmptyString in
  let text := "Shared " +:+ ga_game account.2 +:+ " account from "
              +:+ username s +:+ ":" +:+ line_feed
              +:+ "Username: " +:+ game_username +:+ line_feed
              +:+ "Password: " +:+ game_password in
  (granted (db w) account_id target_username = [] →
     result.1 = Ok ()
     ∧ db result.2 = db w
     ∧ trace result.2 = trace w ++
         [Execute "SELECT id, game FROM game_accounts WHERE id = %s AND uploader_username = %s";
          Execute "SELECT 1 FROM access_grants WHERE account_id = %s AND username = %s";
          CtxSend UserDoesNotHaveConfirmedAccess]
     ∧ direct_messages (trace result.2) = direct_messages (trace w))
  ∧ (granted (db w) account_id target_username ≠ [] →
     ∀ before recipient others,
       guild (ctx e) = Some (before ++ recipient :: others) →
       name recipient = target_username →
       (∀ m, m ∈ before → name m ≠ target_username) →
       result.1 = Ok ()
       ∧ db result.2 = db w
       ∧ trace result.2 = trace w ++
           [Execute "SELECT id, game FROM game_accounts WHERE id = %s AND uploader_username = %s";
            Execute "SELECT 1 FROM access_grants WHERE account_id = %s AND username = %s";
            DirectMessage (member_id recipient) text;
            CtxSend AccountDetailsShared]
       ∧ direct_messages (trace result.2)
         = direct_messages (trace w) ++ [(member_id recipient, text)])
  ∧ (∀ steps, never_confirmed account_id target_username steps initial_world →
       w = run steps initial_world →
       granted (db w) account_id target_username = [])
  ∧ error_of UserDoesNotHaveConfirmedAccess = Some NotFoundError.
Proof.
  intros Hs Hown result line_feed text. subst result line_feed text.
  rewrite (share_account_checked _ _ _ _ _ _ s account rest) by done.
  split; [|split; [|split; [|done]]];
    [| | intros steps Hsteps ->; by apply no_grant_before_confirm].
  - intros ->. run_monad. rewrite <- app_assoc. simpl.
    split; [done|]. split; [done|]. split; [done|].
    unfold direct_messages. rewrite bind_app. simpl. by rewrite app_nil_r.
  - intros Hgrant before recipient others Hguild Hname Hbefore.
    destruct (granted (db w) account_id target_username); [done|].
    subst target_username.
    rewrite Hguild, get_by_name_first by done.
    run_monad. rewrite <- !app_assoc. simpl.
    split; [done|]. split; [done|]. split; [done|].
    unfold direct_messages. by rewrite bind_app.
Qed.

Lemma share_account_needs_grant_witness :
  let alice := {| username := "alice"; expires_at := 20 + SESSION_DURATION |} in
  let line_feed := String (Ascii.ascii_of_nat 10) EmptyString in
  direct_messages
    (trace (share_account (example_env 1001 45) 1 "bob" "u" "p"
              (@run example_bcrypt confirmed_by_owner initial_world)).2) = []
  ∧ direct_messages
      (trace (share_account (example_env 1001 60) 1 "bob" "u" "p" accepted).2)
    = [(1002, "Shared wow account from alice:" +:+ line_feed
              +:+ "Username: u" +:+ line_feed +:+ "Password: p")].
Proof.
  intros alice line_feed.
  pose (account := (1, {| ga_uploader_username := "alice"; ga_game := "wow";
                          ga_game_username_hash := "s0$u";
                          ga_game_password_hash := "s1$p" |}) : Z * GameAccount).
  destruct (@share_account_needs_grant example_bcrypt (example_env 1001 45) 1
              "bob" "u" "p" (@run example_bcrypt confirmed_by_owner initial_world)
              alice account [])
    as (Hbefore & _ & Hnone & _).
  { split; [vm_compute; reflexivity | vm_compute; discriminate]. }
  { vm_compute. reflexivity. }
  destruct (@share_account_needs_grant example_bcrypt (example_env 1001 60) 1
              "bob" "u" "p" accepted alice account []) as (_ & Hafter & _).
  { split; [vm_compute; reflexivity | vm_compute; discriminate]. }
  { vm_compute. reflexivity. }
  split.
  - destruct Hbefore as (_ & _ & _ & ->).
    + apply (Hnone confirmed_by_owner); [by_evaluation | reflexivity].
    + vm_compute. reflexivity.
  - destruct (Hafter ltac:(vm_compute; discriminate)
                [ {| member_id := 1001; name := "alice" |} ]
                {| member_id := 1002; name := "bob" |} [])
      as (_ & _ & _ & ->).
    + reflexivity.
    + reflexivity.
    + intros m Hm. apply list_elem_of_singleton in Hm as ->. discriminate.
    + vm_compute. reflexivity.
Defined.

(** ** Queue resolution *)

Lemma for_each_print {A} (l : list A) (line : A → string) w :
  for_each l (λ row, print (line row)) w
  = (Ok (), mk_world (sessions w) (db w) (conn w)
              (trace w ++ (Print ∘ line <$> l))).
Proof.
  revert w. induction l as [|x l IH]; intros w; simpl.
  - unfold pass. run_monad. rewrite app_nil_r. by destruct w.
  - unfold mbind at 1, M_bind at 1. unfold print at 1, emit at 1.
    rewrite IH. unfold mk_world. simpl. by rewrite <- app_assoc.
Qed.

Lemma approve_pending_users_run approve_ids reject_ids w :
  approve_pending_users approve_ids reject_ids w =
    let listing :=
      merge_sort (earlier pu_created_at) (rows (pending_users (db w))) in
    let listed :=
      trace w ++
      [Execute "SELECT id, username, requested_by, created_at FROM pending_users ORDER BY created_at"] in
    let insert :=
      "INSERT INTO users (username, passhash) SELECT username, passhash FROM pending_users WHERE id IN "
      +:+ build_in_clause approve_ids in
    match listing with
    | [] =>
        (Ok (), mk_world (sessions w) (db w) (db w)
                  (listed ++ [Print "No pending user registrations."]))
    | _ =>
        let shown :=
          listed ++ [Print "Pending user registrations:"]
          ++ (Print ∘ (λ row : Z * PendingUser,
                "  ID " +:+ pretty row.1 +:+ ": " +:+ pu_username row.2
                +:+ " requested by " +:+ pu_requested_by row.2) <$> listing) in
        match approve_ids with
        | [] =>
            reject_and_commit "DELETE FROM pending_users WHERE id IN "
              delete_pending_users reject_ids
              (mk_world (sessions w) (db w) (db w) shown)
        | _ =>
            if decide (users_accepts (users (db w))
                         (approved_users approve_ids (db w))) then
              reject_and_commit "DELETE FROM pending_users WHERE id IN "
                delete_pending_users reject_ids
                (mk_world (sessions w) (db w)
                   (delete_pending_users approve_ids
                      (with_users
                         (insert_rows (approved_users approve_ids (db w)))
                         (db w)))
                   (shown ++
                    [Execute insert;
                     Execute ("DELETE FROM pending_users WHERE id IN "
                              +:+ build_in_clause approve_ids)]))
            else
              (Raise IntegrityError,
               mk_world (sessions w) (db w) (db w) (shown ++ [Execute insert]))
        end
    end.
Proof.
  unfold approve_pending_users.
  unfold mbind at 1, M_bind at 1. unfold acquire at 1.
  unfold mbind at 1, M_bind at 1. unfold query at 1. cbn [conn db sessions trace].
  destruct (merge_sort _ _) as [|row listing] eqn:Hlisting; [done|].
  cbv zeta.
  unfold mbind at 1, M_bind at 1. unfold print at 1, emit at 1.
  unfold mbind at 1, M_bind at 1. rewrite for_each_print.
  unfold insert_users_select, reject_and_commit, mk_world, approved_users,
    delete_pending_users.
  destruct approve_ids as [|id approve_ids], reject_ids as [|rid reject_ids];
    run_monad; try case_decide; simpl; by rewrite <- ?app_assoc.
Qed.

Lemma approve_pending_accounts_run approve_ids reject_ids w :
  approve_pending_accounts approve_ids reject_ids w =
    let listing :=
      merge_sort (earlier pga_created_at)
        (rows (pending_game_accounts (db w))) in
    let listed :=
      trace w ++
      [Execute "SELECT id, uploader_username, game, created_at FROM pending_game_accounts ORDER BY created_at"] in
    match listing with
    | [] =>
        (Ok (), mk_world (sessions w) (db w) (db w)
                  (listed ++ [Print "No pending game account uploads."]))
    | _ =>
        let shown :=
          listed ++ [Print "Pending game account uploads:"]
          ++ (Print ∘ (λ row : Z * PendingGameAccount,
                "  ID " +:+ pretty row.1 +:+ ": " +:+ pga_game row.2
                +:+ " uploaded by " +:+ pga_uploader_username row.2) <$> listing) in
        match approve_ids with
        | [] =>
            reject_and_commit "DELETE FROM pending_game_accounts WHERE id IN "
              delete_pending_game_accounts reject_ids
              (mk_world (sessions w) (db w) (db w) shown)
        | _ =>
            reject_and_commit "DELETE FROM pending_game_accounts WHERE id IN "
              delete_pending_game_accounts reject_ids
              (mk_world (sessions w) (db w)
                 (delete_pending_game_accounts approve_ids
                    (with_game_accounts
                       (insert_rows (approved_accounts approve_ids (db w)))
                       (db w)))
                 (shown ++
                  [Execute ("INSERT INTO game_accounts (uploader_username, game, game_username_hash, game_password_hash) SELECT uploader_username, game, game_username_hash, game_password_hash FROM pending_game_accounts WHERE id IN "
                            +:+ build_in_clause approve_ids);
                   Execute ("DELETE FROM pending_game_accounts WHERE id IN "
                            +:+ build_in_clause approve_ids)]))
        end
    end.
Proof.
  unfold approve_pending_accounts.
  unfold mbind at 1, M_bind at 1. unfold acquire at 1.
  unfold mbind at 1, M_bind at 1. unfold query at 1. cbn [conn db sessions trace].
  destruct (merge_sort _ _) as [|row listing] eqn:Hlisting; [done|].
  cbv zeta.
  unfold mbind at 1, M_bind at 1. unfold print at 1, emit at 1.
  unfold mbind at 1, M_bind at 1. rewrite for_each_print.
  unfold insert_game_accounts_select, reject_and_commit, mk_world,
    approved_accounts, delete_pending_game_accounts.
  destruct approve_ids as [|id approve_ids], reject_ids as [|rid reject_ids];
    run_monad; by rewrite <- ?app_assoc.
Qed.

(** *** Deleting by overlapping id lists *)

Lemma filter_all {A} (P : A → Prop) `{∀ x, Decision (P x)} (l : list A) :
  (∀ x, P x) → filter P l = l.
Proof.
  intros HP. induction l as [|x l IH]; [done|].
  by rewrite filter_cons_True, IH.
Qed.

Lemma delete_where_none {A} (t : Table A) :
  delete_where (λ r, r.1 ∈ @nil Z) t = t.
Proof.
  unfold delete_where. rewrite filter_all; [by destruct t|].
  intros r Hr. by apply elem_of_nil in Hr.
Qed.

Lemma delete_where_overlap {A} (t : Table A) (approve_ids reject_ids : list Z) :
  delete_where (λ r, r.1 ∈ reject_ids)
    (delete_where (λ r, r.1 ∈ approve_ids) t)
  = delete_where (λ r, r.1 ∈ filter (λ id, id ∉ approve_ids) reject_ids)
      (delete_where (λ r, r.1 ∈ approve_ids) t).
Proof.
  unfold delete_where. simpl. f_equal.
  rewrite !list_filter_filter. apply list_filter_iff. intros r.
  rewrite list_elem_of_filter. tauto.
Qed.

Lemma merge_sort_nil {A} (R : relation A) `{∀ x y, Decision (R x y)} l :
  merge_sort R l = [] → l = [].
Proof.
  intros Hnil. apply Permutation_nil_r. rewrite <- Hnil.
  by rewrite merge_sort_Permutation.
Qed.

(** The committed database after the second half of a resolution. *)
Lemma db_reject_and_commit sql f reject_ids w :
  db (reject_and_commit sql f reject_ids w).2
  = match reject_ids with [] => conn w | _ => f reject_ids (conn w) end.
Proof. by destruct reject_ids. Qed.

Lemma ok_reject_and_commit sql f reject_ids w :
  (reject_and_commit sql f reject_ids w).1 = Ok ().
Proof. by destruct reject_ids. Qed.

Lemma delete_pending_users_overlap approve_ids reject_ids d :
  match reject_ids with
  | [] => delete_pending_users approve_ids d
  | _ => delete_pending_users reject_ids (delete_pending_users approve_ids d)
  end
  = match filter (λ id, id ∉ approve_ids) reject_ids with
    | [] => delete_pending_users approve_ids d
    | _ => delete_pending_users (filter (λ id, id ∉ approve_ids) reject_ids)
             (delete_pending_users approve_ids d)
    end.
Proof.
  assert (delete_pending_users reject_ids (delete_pending_users approve_ids d)
          = delete_pending_users (filter (λ id, id ∉ approve_ids) reject_ids)
              (delete_pending_users approve_ids d)) as Hstrip.
  { unfold delete_pending_users, with_pending_users. simpl.
    by rewrite delete_where_overlap. }
  destruct reject_ids as [|rid reject_ids]; [done|]. rewrite Hstrip.
  destruct (filter _ (rid :: reject_ids)); [|done].
  unfold delete_pending_users at 1, with_pending_users. simpl.
  by rewrite delete_where_none.
Qed.

Lemma delete_pending_game_accounts_overlap approve_ids reject_ids d :
  match reject_ids with
  | [] => delete_pending_game_accounts approve_ids d
  | _ => delete_pending_game_accounts reject_ids
           (delete_pending_game_accounts approve_ids d)
  end
  = match filter (λ id, id ∉ approve_ids) reject_ids with
    | [] => delete_pending_game_accounts approve_ids d
    | _ => delete_pending_game_accounts
             (filter (λ id, id ∉ approve_ids) reject_ids)
             (delete_pending_game_accounts approve_ids d)
    end.
Proof.
  assert (delete_pending_game_accounts reject_ids
            (delete_pending_game_accounts approve_ids d)
          = delete_pending_game_accounts
              (filter (λ id, id ∉ approve_ids) reject_ids)
              (delete_pending_game_accounts approve_ids d)) as Hstrip.
  { unfold delete_pending_game_accounts, with_pending_game_accounts. simpl.
    by rewrite delete_where_overlap. }
  destruct reject_ids as [|rid reject_ids]; [done|]. rewrite Hstrip.
  destruct (filter _ (rid :: reject_ids)); [|done].
  unfold delete_pending_game_accounts at 1, with_pending_game_accounts. simpl.
  by rewrite delete_where_none.
Qed.

(** C3, as stated, fails: with the same ids in both lists the resolution
    goes through, and the rows are promoted. *)
Lemma resolution_with_overlap :
  @reachable example_bcrypt queued
  ∧ ¬ overlap_refused [1; 2] [1; 2] queued
  ∧ (u_username ∘ snd <$>
       rows (users (db (approve_pending_users [1; 2] [1; 2] queued).2)))
    = ["alice"; "bob"]
  ∧ (ga_game ∘ snd <$>
       rows (game_accounts
               (db (approve_pending_accounts [1; 2] [1; 2] queued).2)))
    = ["wow"].
Proof.
  split; [eexists; unfold queued; reflexivity|].
  split; [|split; vm_compute; reflexivity].
  intros Hclaim. destruct Hclaim as [[Hfail _] _].
  - exists 1. split; left.
  - apply Hfail. vm_compute. reflexivity.
Qed.

(** C3, amended: an id present in both lists is approved, not refused.
    Either resolution has the outcome and the committed database of the
    same call with the approved ids taken out of the reject list; a pending
    row whose id is in the approve list is promoted and gone from the queue
    once the call has returned. The resolution of registrations fails only
    when the promotion would repeat a username of [users] (IntegrityError,
    nothing committed); the resolution of credentials does not fail. *)
Theorem resolution_overlap_approves approve_ids reject_ids w :
  let stripped := filter (λ id, id ∉ approve_ids) reject_ids in
  let ru := approve_pending_users approve_ids reject_ids w in
  let ra := approve_pending_accounts approve_ids reject_ids w in
  (ru.1 = (approve_pending_users approve_ids stripped w).1
   ∧ db ru.2 = db (approve_pending_users approve_ids stripped w).2)
  ∧ (ra.1 = (approve_pending_accounts approve_ids stripped w).1
     ∧ db ra.2 = db (approve_pending_accounts approve_ids stripped w).2)
  ∧ (∀ id p, id ∈ approve_ids → (id, p) ∈ rows (pending_users (db w)) →
       (users_accepts (users (db w)) (approved_users approve_ids (db w)) →
          ru.1 = Ok ()
          ∧ {| u_username := pu_username p; u_passhash := pu_passhash p |}
            ∈ (snd <$> rows (users (db ru.2)))
          ∧ ∀ q, (id, q) ∉ rows (pending_users (db ru.2)))
       ∧ (¬ users_accepts (users (db w)) (approved_users approve_ids (db w)) →
          ru.1 = Raise IntegrityError ∧ db ru.2 = db w))
  ∧ (∀ id p, id ∈ approve_ids →
       (id, p) ∈ rows (pending_game_accounts (db w)) →
       ra.1 = Ok ()
       ∧ {| ga_uploader_username := pga_uploader_username p;
            ga_game := pga_game p;
            ga_game_username_hash := pga_game_username_hash p;
            ga_game_password_hash := pga_game_password_hash p |}
         ∈ (snd <$> rows (game_accounts (db ra.2)))
       ∧ ∀ q, (id, q) ∉ rows (pending_game_accounts (db ra.2))).
Proof.
  intros stripped ru ra. subst ru ra.
  rewrite !approve_pending_users_run, !approve_pending_accounts_run. cbv zeta.
  split; [|split; [|split]].
  - destruct (merge_sort _ (rows (pending_users (db w)))); [done|].
    destruct approve_ids as [|a approve_ids].
    + subst stripped. rewrite filter_all; [done|].
      intros id Hid. by apply elem_of_nil in Hid.
    + case_decide; [|done].
      rewrite !ok_reject_and_commit, !db_reject_and_commit. split; [done|].
      unfold mk_world. cbn [conn]. subst stripped.
      apply delete_pending_users_overlap.
  - destruct (merge_sort _ (rows (pending_game_accounts (db w)))); [done|].
    destruct approve_ids as [|a approve_ids].
    + subst stripped. rewrite filter_all; [done|].
      intros id Hid. by apply elem_of_nil in Hid.
    + rewrite !ok_reject_and_commit, !db_reject_and_commit. split; [done|].
      unfold mk_world. cbn [conn]. subst stripped.
      apply delete_pending_game_accounts_overlap.
  - intros id p Hid Hp.
    destruct (merge_sort _ (rows (pending_users (db w)))) eqn:Hsort.
    { apply merge_sort_nil in Hsort. rewrite Hsort in Hp.
      by apply elem_of_nil in Hp. }
    destruct approve_ids as [|a approve_ids]; [by apply elem_of_nil in Hid|].
    case_decide; (split; [|done]); [|done]. intros _.
    rewrite ok_reject_and_commit, db_reject_and_commit. split; [done|].
    unfold mk_world. cbn [conn].
    assert (∀ d, users (match reject_ids with
                        | [] => d
                        | _ => delete_pending_users reject_ids d
                        end) = users d) as -> by (by destruct reject_ids).
    split.
    + unfold delete_pending_users. simpl. rewrite rows_insert_rows.
      apply elem_of_app. right. unfold approved_users.
      apply list_elem_of_fmap. exists (id, p). split; [done|].
      by apply list_elem_of_filter.
    + intros q Hq.
      assert ((id, q) ∈ rows (pending_users
                (delete_pending_users (a :: approve_ids)
                   (with_users
                      (insert_rows (approved_users (a :: approve_ids) (db w)))
                      (db w))))) as Hin.
      { destruct reject_ids; [done|]. unfold delete_pending_users in Hq at 1.
        simpl in Hq. by apply list_elem_of_filter in Hq as [_ ?]. }
      unfold delete_pending_users in Hin. simpl in Hin.
      apply list_elem_of_filter in Hin as [Hno _]. by destruct Hno.
  - intros id p Hid Hp.
    destruct (merge_sort _ (rows (pending_game_accounts (db w)))) eqn:Hsort.
    { apply merge_sort_nil in Hsort. rewrite Hsort in Hp.
      by apply elem_of_nil in Hp. }
    destruct approve_ids as [|a approve_ids]; [by apply elem_of_nil in Hid|].
    rewrite ok_reject_and_commit, db_reject_and_commit. split; [done|].
    unfold mk_world. cbn [conn].
    assert (∀ d, game_accounts (match reject_ids with
                                | [] => d
                                | _ => delete_pending_game_accounts reject_ids d
                                end) = game_accounts d) as ->
      by (by destruct reject_ids).
    split.
    + unfold delete_pending_game_accounts. simpl. rewrite rows_insert_rows.
      apply elem_of_app. right. unfold approved_accounts.
      apply list_elem_of_fmap. exists (id, p). split; [done|].
      by apply list_elem_of_filter.
    + intros q Hq.
      assert ((id, q) ∈ rows (pending_game_accounts
                (delete_pending_game_accounts (a :: approve_ids)
                   (with_game_accounts
                      (insert_rows (approved_accounts (a :: approve_ids) (db w)))
                      (db w))))) as Hin.
      { destruct reject_ids; [done|].
        unfold delete_pending_game_accounts in Hq at 1.
        simpl in Hq. by apply list_elem_of_filter in Hq as [_ ?]. }
      unfold delete_pending_game_accounts in Hin. simpl in Hin.
      apply list_elem_of_filter in Hin as [Hno _]. by destruct Hno.
Qed.

Lemma resolution_overlap_approves_witness :
  let bob := {| pu_username := "bob"; pu_passhash := "s0$pw-b";
                pu_requested_by := "1002"; pu_created_at := 11 |} in
  let ru := approve_pending_users [1; 2] [1; 2] queued in
  ru.1 = Ok ()
  ∧ {| u_username := "bob"; u_passhash := "s0$pw-b" |}
    ∈ (snd <$> rows (users (db ru.2)))
  ∧ ∀ q, (2, q) ∉ rows (pending_users (db ru.2)).
Proof.
  intros bob ru. subst ru.
  destruct (resolution_overlap_approves [1; 2] [1; 2] queued)
    as (_ & _ & Husers & _).
  destruct (Husers 2 bob) as [Hok _].
  - right. left.
  - vm_compute. left.
  - apply Hok. by_evaluation.
Defined.

(** * Further properties of the two programs *)

(** ** What a command may emit *)

Lemma emits_ret P {A} (a : A) : emits P (mret a).
Proof. intros w. exists []. by rewrite app_nil_r. Qed.

Lemma emits_bind P {A B} (m : M A) (f : A → M B) :
  emits P m → (∀ a, emits P (f a)) → emits P (m ≫= f).
Proof.
  intros Hm Hf w. unfold mbind, M_bind. destruct (Hm w) as (evs & Htr & Hevs).
  destruct (m w) as [[a | x] w']; simpl in *; [|by exists evs].
  destruct (Hf a w') as (evs' & Htr' & Hevs'). exists (evs ++ evs').
  rewrite Htr', Htr, app_assoc. split; [done|]. by apply Forall_app.
Qed.

Lemma emits_raise P {A} x : emits P (@raise A x).
Proof. intros w. exists []. by rewrite app_nil_r. Qed.

Lemma emits_pass P : emits P pass.
Proof. intros w. exists []. by rewrite app_nil_r. Qed.

Lemma emits_emit (P : Event → Prop) ev : P ev → emits P (emit ev).
Proof. intros Hev w. exists [ev]. split; [done|]. by apply Forall_singleton. Qed.

Lemma emits_send (P : Event → Prop) r : P (CtxSend r) → emits P (send r).
Proof. apply emits_emit. Qed.

Lemma emits_print (P : Event → Prop) line : P (Print line) → emits P (print line).
Proof. apply emits_emit. Qed.

Lemma emits_get_sessions P : emits P get_sessions.
Proof. intros w. exists []. by rewrite app_nil_r. Qed.

Lemma emits_set_sessions P ss : emits P (set_sessions ss).
Proof. intros w. exists []. by rewrite app_nil_r. Qed.

Lemma emits_acquire P : emits P acquire.
Proof. intros w. exists []. by rewrite app_nil_r. Qed.

Lemma emits_query (P : Event → Prop) {A} sql (q : DB → A) :
  P (Execute sql) → emits P (query sql q).
Proof.
  intros Hev w. exists [Execute sql]. split; [done|]. by apply Forall_singleton.
Qed.

Lemma emits_execute (P : Event → Prop) sql f :
  P (Execute sql) → emits P (execute sql f).
Proof.
  intros Hev w. exists [Execute sql]. split; [done|]. by apply Forall_singleton.
Qed.

Lemma emits_commit (P : Event → Prop) : P Commit → emits P commit.
Proof.
  intros Hev w. exists [Commit]. split; [done|]. by apply Forall_singleton.
Qed.

Lemma emits_for_each P {A} (l : list A) body :
  (∀ x, emits P (body x)) → emits P (for_each l body).
Proof.
  intros Hbody. induction l as [|x l IH]; simpl.
  - apply emits_pass.
  - by apply emits_bind.
Qed.

Lemma emits_guild_members P c : emits P (guild_members c).
Proof.
  unfold guild_members. destruct (guild c); [apply emits_ret | apply emits_raise].
Qed.

Lemma emits_is_logged_in P now user_id : emits P (is_logged_in now user_id).
Proof.
  intros w. exists []. rewrite app_nil_r. unfold is_logged_in. run_monad.
  destruct (sessions w !! user_id) as [s|]; [|done].
  by destruct (decide (expires_at s < now)).
Qed.

Lemma emits_insert_users_select (P : Event → Prop) sql ids :
  P (Execute sql) → emits P (insert_users_select sql ids).
Proof.
  intros Hev w. unfold insert_users_select. case_decide.
  - by apply emits_execute.
  - exists [Execute sql]. split; [done|]. by apply Forall_singleton.
Qed.

Create HintDb emits.

#[local] Hint Resolve emits_ret emits_raise emits_pass emits_get_sessions
  emits_set_sessions emits_acquire emits_guild_members emits_is_logged_in
  : emits.

(** Breaks a command body down to its events; what remains is that each
    of them is allowed. *)
Ltac emitting :=
  repeat first
    [ progress eauto with emits
    | apply emits_bind; [|intros ?]
    | apply emits_for_each; intros ?
    | apply emits_send
    | apply emits_print
    | apply emits_emit
    | apply emits_query
    | apply emits_execute
    | apply emits_insert_users_select
    | apply emits_commit
    | match goal with
      | |- emits _ (match ?x with _ => _ end) => destruct x
      | |- emits _ (if ?x then _ else _) => destruct x
      end ].

(** ** Commands that leave the database alone *)

Lemma keeps_db_ret {A} (a : A) : keeps_db (mret a).
Proof. by intros w. Qed.

Lemma keeps_db_bind {A B} (m : M A) (f : A → M B) :
  keeps_db m → (∀ a, keeps_db (f a)) → keeps_db (m ≫= f).
Proof.
  intros Hm Hf w. unfold mbind, M_bind. specialize (Hm w).
  destruct (m w) as [[a | x] w']; simpl in *; [|done].
  by rewrite Hf.
Qed.

Lemma keeps_db_raise {A} x : keeps_db (@raise A x).
Proof. by intros w. Qed.

Lemma keeps_db_send r : keeps_db (send r).
Proof. by intros w. Qed.

Lemma keeps_db_emit ev : keeps_db (emit ev).
Proof. by intros w. Qed.

Lemma keeps_db_get_sessions : keeps_db get_sessions.
Proof. by intros w. Qed.

Lemma keeps_db_set_sessions ss : keeps_db (set_sessions ss).
Proof. by intros w. Qed.

Lemma keeps_db_acquire : keeps_db acquire.
Proof. by intros w. Qed.

Lemma keeps_db_query {A} sql (q : DB → A) : keeps_db (query sql q).
Proof. by intros w. Qed.

Lemma keeps_db_guild_members c : keeps_db (guild_members c).
Proof. unfold guild_members. by destruct (guild c); intros w. Qed.

Lemma keeps_db_is_logged_in now user_id : keeps_db (is_logged_in now user_id).
Proof.
  intros w. unfold is_logged_in. run_monad.
  destruct (sessions w !! user_id) as [s|]; [|done].
  by destruct (decide (expires_at s < now)).
Qed.

Create HintDb keeps_db.

#[local] Hint Resolve keeps_db_ret keeps_db_raise keeps_db_send keeps_db_emit
  keeps_db_get_sessions keeps_db_set_sessions keeps_db_acquire keeps_db_query
  keeps_db_guild_members keeps_db_is_logged_in : keeps_db.

Ltac keeping_db :=
  repeat first
    [ progress eauto with keeps_db
    | apply keeps_db_bind; [|intros ?]
    | match goal with
      | |- keeps_db (match ?x with _ => _ end) => destruct x
      | |- keeps_db (if ?x then _ else _) => destruct x
      end ].

(** X1: [login], [logout], [list_accounts], [share_account] and
    [pending_access] never write: whatever the caller, the session table
    and the arguments, the committed database is as before and the trace
    only gains replies, direct messages and SELECT statements (no INSERT,
    no DELETE, no commit). *)
Theorem read_only_commands `{Bcrypt} e c w :
  read_only c = true →
  db (invoke e c w).2 = db w
  ∧ ∃ evs, trace (invoke e c w).2 = trace w ++ evs ∧ Forall is_read evs.
Proof.
  intros Hc. split.
  - revert w. change (keeps_db (invoke e c)).
    destruct c; try done; simpl;
      unfold login, fetch_user, logout, list_accounts, share_account,
        pending_access;
      keeping_db.
  - revert w. change (emits is_read (invoke e c)).
    destruct c; try done; simpl;
      unfold login, fetch_user, logout, list_accounts, share_account,
        pending_access;
      emitting; done.
Qed.

Lemma read_only_commands_witness :
  db (@invoke example_bcrypt (example_env 1001 60)
        (ShareAccount 1 "bob" "u" "p") accepted).2 = db accepted.
Proof.
  apply (@read_only_commands example_bcrypt (example_env 1001 60)
           (ShareAccount 1 "bob" "u" "p") accepted).
  reflexivity.
Defined.

Lemma direct_messages_none evs :
  Forall not_direct evs → direct_messages evs = [].
Proof.
  induction 1 as [|ev evs Hev _ IH]; [done|].
  change (direct_messages (ev :: evs))
    with (match ev with DirectMessage to text => [(to, text)] | _ => [] end
          ++ direct_messages evs).
  rewrite IH. by destruct ev.
Qed.

Lemma direct_messages_app tr1 tr2 :
  direct_messages (tr1 ++ tr2) = direct_messages tr1 ++ direct_messages tr2.
Proof. unfold direct_messages. apply bind_app. Qed.

Lemma replies_app tr1 tr2 : replies (tr1 ++ tr2) = replies tr1 ++ replies tr2.
Proof. unfold replies. apply bind_app. Qed.

Lemma emits_not_direct_step `{Bcrypt} st :
  (∀ e account_id target_username game_username game_password,
     st ≠ Bot e (ShareAccount account_id target_username game_username
                   game_password)) →
  emits not_direct (step st).
Proof.
  intros Hst. destruct st as [e c|approve_ids reject_ids|approve_ids reject_ids];
    simpl.
  - destruct c; simpl;
      try (by destruct (Hst e account_id target_username game_username
                          game_password));
      unfold register, login, fetch_user, logout, upload_account,
        list_accounts, grant_access, confirm_access, pending_access;
      emitting; done.
  - unfold approve_pending_users. emitting; done.
  - unfold approve_pending_accounts, insert_game_accounts_select.
    emitting; done.
Qed.

(** X2: a direct message is only ever sent by [share_account]: any other
    chat command, by anyone and in any state, and either console
    resolution, leaves the direct messages of the trace as they were. *)
Theorem only_share_account_sends_direct `{Bcrypt} st w :
  (∀ e account_id target_username game_username game_password,
     st ≠ Bot e (ShareAccount account_id target_username game_username
                   game_password)) →
  direct_messages (trace (after st w)) = direct_messages (trace w).
Proof.
  intros Hst. destruct (emits_not_direct_step st Hst w) as (evs & Htr & Hevs).
  unfold after. rewrite Htr, direct_messages_app.
  by rewrite (direct_messages_none evs), app_nil_r.
Qed.

Lemma only_share_account_sends_direct_witness :
  direct_messages
    (trace (@after example_bcrypt
              (Bot (example_env 1002 50) (ConfirmAccess 1)) invited))
  = direct_messages (trace invited).
Proof.
  apply (@only_share_account_sends_direct example_bcrypt).
  intros e account_id target_username game_username game_password Heq.
  discriminate Heq.
Defined.

(** ** Sessions of other callers *)

Lemma gated_others e (body : LoginSession → M unit) w user_id :
  (∀ s, keeps_sessions (body s)) →
  user_id ≠ author_id (ctx e) →
  sessions
    ((session ← is_logged_in (utcnow e) (author_id (ctx e));
      match session with
      | None => send PleaseLoginFirst
      | Some session => body session
      end) w).2 !! user_id
  = sessions w !! user_id.
Proof.
  intros Hbody Hne. unfold mbind at 1, M_bind at 1.
  destruct (sessions w !! author_id (ctx e)) as [s|] eqn:Hs.
  - destruct (decide (expires_at s < utcnow e)) as [Hexp|Hexp].
    + rewrite (is_logged_in_expired _ _ _ s) by done. simpl.
      by rewrite lookup_delete_ne.
    + rewrite (is_logged_in_active _ _ _ s) by done. by rewrite Hbody.
  - rewrite is_logged_in_absent by done. done.
Qed.

(** X3: a chat command touches no session but its caller's: for any
    command, state and arguments, the session stored for any other user id
    (present or absent) is afterwards what it was; this covers the eviction
    of an expired session, [login] and [logout]. The console's resolutions
    touch no session at all. *)
Theorem sessions_of_others `{Bcrypt} st w user_id :
  (∀ e c, st = Bot e c → author_id (ctx e) ≠ user_id) →
  sessions (after st w) !! user_id = sessions w !! user_id.
Proof.
  intros Hst. unfold after.
  destruct st as [e c|approve_ids reject_ids|approve_ids reject_ids]; simpl.
  - specialize (Hst e c eq_refl).
    destruct c; simpl.
    + by rewrite keeps_sessions_register.
    + destruct (login_sessions e username0 password w) as [-> | ->]; [done|].
      by rewrite lookup_insert_ne.
    + unfold logout. run_monad. by rewrite lookup_delete_ne.
    + unfold upload_account. apply gated_others; [intros s; keeps | done].
    + unfold list_accounts. apply gated_others; [intros s; keeps | done].
    + unfold grant_access. apply gated_others; [intros s; keeps | done].
    + unfold confirm_access. apply gated_others; [intros s; keeps | done].
    + unfold share_account. apply gated_others; [intros s; keeps | done].
    + unfold pending_access. apply gated_others; [intros s; keeps | done].
  - by rewrite keeps_sessions_approve_pending_users.
  - by rewrite keeps_sessions_approve_pending_accounts.
Qed.

Lemma sessions_of_others_witness :
  sessions (@after example_bcrypt (Bot (example_env 1001 9000000000) Logout)
              invited) !! 1002
  = sessions invited !! 1002.
Proof.
  apply (@sessions_of_others example_bcrypt).
  intros e c [= <- _]. discriminate.
Defined.

(** ** Refused logins *)

Lemma login_unknown `{Bcrypt} e username password w :
  ¬ registered (db w) username →
  login e username password w =
    (Ok (),
     {| sessions := sessions w; db := db w; conn := db w;
        trace := trace w ++
          [Execute "SELECT id, username, passhash FROM users WHERE username = %s";
           CtxSend NoApprovedAccount] |}).
Proof.
  intros Hno. unfold login, fetch_user. run_monad.
  destruct (fetchone _) as [user|] eqn:Huser; simpl.
  - destruct Hno. apply registered_fetchone. rewrite Huser. eauto.
  - by rewrite <- app_assoc.
Qed.

Lemma login_wrong_password `{Bcrypt} e username password w user :
  fetchone (select_where (λ r, u_username r.2 = username) (users (db w)))
    = Some user →
  verify_secret password (u_passhash user.2) = false →
  login e username password w =
    (Ok (),
     {| sessions := sessions w; db := db w; conn := db w;
        trace := trace w ++
          [Execute "SELECT id, username, passhash FROM users WHERE username = %s";
           CtxSend InvalidCredentials] |}).
Proof.
  intros Huser Hbad. unfold login, fetch_user. run_monad.
  rewrite Huser. simpl. rewrite Hbad. simpl. by rewrite <- app_assoc.
Qed.

(** X4: a [login] that is refused changes nothing but the trace. For a
    username with no [users] row (among them one that is only pending
    approval) the reply is "No approved account found."; for a password
    that does not verify against the stored hash it is "Invalid
    credentials.". In both cases the session table is as before, so a
    session the caller already had, under whatever username, stays in
    force, and the database is untouched. *)
Theorem login_refused `{Bcrypt} e username password w :
  (¬ registered (db w) username →
     (login e username password w).1 = Ok ()
     ∧ sessions (login e username password w).2 = sessions w
     ∧ db (login e username password w).2 = db w
     ∧ replies (trace (login e username password w).2)
       = replies (trace w) ++ [NoApprovedAccount])
  ∧ (∀ user,
       fetchone (select_where (λ r, u_username r.2 = username) (users (db w)))
         = Some user →
       verify_secret password (u_passhash user.2) = false →
       (login e username password w).1 = Ok ()
       ∧ sessions (login e username password w).2 = sessions w
       ∧ db (login e username password w).2 = db w
       ∧ replies (trace (login e username password w).2)
         = replies (trace w) ++ [InvalidCredentials]).
Proof.
  split.
  - intros Hno. rewrite login_unknown by done. simpl.
    repeat (split; [done|]). by rewrite replies_app.
  - intros user Huser Hbad. rewrite (login_wrong_password _ _ _ _ user) by done.
    simpl. repeat (split; [done|]). by rewrite replies_app.
Qed.

Lemma login_refused_witness :
  let w := @after example_bcrypt
             (Bot (example_env 1003 60) (Register "carol" "pw-c")) invited in
  sessions (@login example_bcrypt (example_env 1001 61) "carol" "pw-c" w).2
    = sessions w
  ∧ sessions (@login example_bcrypt (example_env 1001 61) "bob" "guess" w).2
    = sessions w.
Proof.
  intros w.
  destruct (@login_refused example_bcrypt (example_env 1001 61) "carol" "pw-c" w)
    as [Hunknown _].
  destruct (@login_refused example_bcrypt (example_env 1001 61) "bob" "guess" w)
    as [_ Hwrong].
  split.
  - apply Hunknown. by_evaluation.
  - apply (Hwrong (2, {| u_username := "bob"; u_passhash := "s0$pw-b" |}));
      vm_compute; reflexivity.
Defined.

(** ** The notices of [grant_access] *)

Lemma replies_loop_trace d usernames :
  replies (loop_trace d usernames)
  = UserNotRegistered <$> filter (λ u, ¬ registered d u) usernames.
Proof.
  induction usernames as [|u usernames IH]; [done|].
  change (loop_trace d (u :: usernames))
    with ((if decide (registered d u) then
             [Execute "SELECT 1 FROM users WHERE username = %s";
              Execute "INSERT INTO access_requests (account_id, username, requested_by) VALUES (%s, %s, %s)"]
           else
             [Execute "SELECT 1 FROM users WHERE username = %s";
              CtxSend (UserNotRegistered u)])
          ++ loop_trace d usernames).
  rewrite replies_app, IH, filter_cons.
  destruct (decide (registered d u)) as [Hu|Hu].
  - by rewrite decide_False by (by intros Hno; destruct Hno).
  - by rewrite decide_True.
Qed.

Lemma new_requests_none d account_id requested_by usernames :
  Forall (λ u, ¬ registered d u) usernames →
  new_requests d account_id requested_by usernames = [].
Proof.
  intros Hall. unfold new_requests.
  induction Hall as [|u usernames Hu _ IH]; [done|].
  by rewrite filter_cons_False.
Qed.

(** X5: [grant_access] by the logged-in uploader, with a non-empty list,
    sends one "User ... is not registered." notice for each listed username
    that has no [users] row, in list order and once per occurrence, goes on
    with the rest of the list, and always ends with "Access requests
    sent.", with a commit. When none of the listed usernames is registered
    that closing reply is still sent although no row was inserted. *)
Theorem grant_access_notices e account_id usernames w s :
  logged_in_as w e s → usernames ≠ [] →
  owned (db w) account_id (username s) ≠ [] →
  let w' := (grant_access e account_id usernames w).2 in
  replies (trace w')
  = replies (trace w)
    ++ (UserNotRegistered <$> filter (λ u, ¬ registered (db w) u) usernames)
    ++ [AccessRequestsSent]
  ∧ (Forall (λ u, ¬ registered (db w) u) usernames → db w' = db w).
Proof.
  intros Hs Hne Hown w'. subst w'.
  rewrite (grant_access_owner _ _ _ _ s) by done. cbn [snd trace db].
  split.
  - by rewrite !replies_app, replies_loop_trace.
  - intros Hall. rewrite new_requests_none by done.
    apply with_access_requests_id.
Qed.

Lemma grant_access_notices_witness :
  let w' := (grant_access (example_env 1001 41) 1 ["carol"; "dave"] invited).2 in
  replies (trace w')
  = replies (trace invited)
    ++ [UserNotRegistered "carol"; UserNotRegistered "dave"; AccessRequestsSent]
  ∧ db w' = db invited.
Proof.
  intros w'. subst w'.
  destruct (grant_access_notices (example_env 1001 41) 1 ["carol"; "dave"]
              invited
              {| username := "alice"; expires_at := 20 + SESSION_DURATION |})
    as [Hreplies Hdb].
  - split; [vm_compute; reflexivity | vm_compute; discriminate].
  - discriminate.
  - vm_compute. discriminate.
  - split; [rewrite Hreplies; vm_compute; reflexivity|].
    apply Hdb. by_evaluation.
Defined.

(** ** Other refusals of [share_account] *)

Lemma share_account_not_owned e account_id target_username game_username
    game_password w s :
  logged_in_as w e s →
  owned (db w) account_id (username s) = [] →
  share_account e account_id target_username game_username game_password w =
    (Ok (),
     {| sessions := sessions w; db := db w; conn := db w;
        trace := trace w ++
          [Execute "SELECT id, game FROM game_accounts WHERE id = %s AND uploader_username = %s";
           CtxSend AccountNotFoundOrNotOwned] |}).
Proof.
  intros Hs Hown. unfold share_account.
  unfold mbind at 1, M_bind at 1. rewrite (is_logged_in_logged_in _ _ s) by done.
  unfold mbind at 1, M_bind at 1. unfold acquire at 1.
  unfold mbind at 1, M_bind at 1. unfold query at 1. cbn [conn].
  fold (owned (db w) account_id (username s)). rewrite Hown.
  run_monad. by rewrite <- app_assoc.
Qed.

(** X6: [share_account] by a logged-in caller for a credential that has no
    [game_accounts] row uploaded by the caller (no such id, or another
    uploader) replies "Account not found or not owned by you." (the
    OwnershipError reply) after the one SELECT on [game_accounts], whether
    or not the target has a grant row for it: the grant is not even looked
    up, and no direct message is sent. *)
Theorem share_account_not_owner e account_id target_username game_username
    game_password w s :
  logged_in_as w e s →
  (∀ r, r ∈ rows (game_accounts (db w)) → r.1 = account_id →
        ga_uploader_username r.2 ≠ username s) →
  let result := share_account e account_id target_username game_username
                  game_password w in
  result.1 = Ok ()
  ∧ db result.2 = db w
  ∧ trace result.2 = trace w ++
      [Execute "SELECT id, game FROM game_accounts WHERE id = %s AND uploader_username = %s";
       CtxSend AccountNotFoundOrNotOwned]
  ∧ direct_messages (trace result.2) = direct_messages (trace w)
  ∧ error_of AccountNotFoundOrNotOwned = Some OwnershipError.
Proof.
  intros Hs Hno result. subst result. apply owned_nil in Hno.
  rewrite (share_account_not_owned _ _ _ _ _ _ s) by done. simpl.
  repeat (split; [done|]). split; [|done].
  by rewrite direct_messages_app, app_nil_r.
Qed.

Lemma share_account_not_owner_witness :
  direct_messages
    (trace (share_account (example_env 1002 60) 1 "bob" "u" "p" accepted).2)
  = direct_messages (trace accepted).
Proof.
  apply (share_account_not_owner (example_env 1002 60) 1 "bob" "u" "p" accepted
           {| username := "bob"; expires_at := 21 + SESSION_DURATION |}).
  - split; [vm_compute; reflexivity | vm_compute; discriminate].
  - intros r Hr Hid. vm_compute in Hr.
    apply list_elem_of_singleton in Hr as ->. discriminate.
Defined.

(** X7: [share_account] sent outside a server ([ctx.guild] is [None]), by
    a logged-in uploader for a target with a grant row, raises
    [AttributeError] at [ctx.guild.members] after the two SELECTs: no reply
    is sent, no direct message is sent, and the database is as before. *)
Theorem share_account_outside_guild e account_id target_username game_username
    game_password w s account rest :
  logged_in_as w e s →
  owned (db w) account_id (username s) = account :: rest →
  granted (db w) account_id target_username ≠ [] →
  guild (ctx e) = None →
  let result := share_account e account_id target_username game_username
                  game_password w in
  result.1 = Raise AttributeError
  ∧ db result.2 = db w
  ∧ trace result.2 = trace w ++
      [Execute "SELECT id, game FROM game_accounts WHERE id = %s AND uploader_username = %s";
       Execute "SELECT 1 FROM access_grants WHERE account_id = %s AND username = %s"]
  ∧ replies (trace result.2) = replies (trace w)
  ∧ direct_messages (trace result.2) = direct_messages (trace w).
Proof.
  intros Hs Hown Hgrant Hguild result. subst result.
  rewrite (share_account_checked _ _ _ _ _ _ s account rest) by done.
  destruct (granted (db w) account_id target_username); [done|].
  rewrite Hguild. simpl. repeat (split; [done|]).
  by rewrite replies_app, direct_messages_app, !app_nil_r.
Qed.

Lemma share_account_outside_guild_witness :
  (share_account
     {| ctx := {| author_id := 1001; guild := None |}; utcnow := 60;
        gensalt := λ _, "s0" |} 1 "bob" "u" "p" accepted).1
  = Raise AttributeError.
Proof.
  apply (share_account_outside_guild
           {| ctx := {| author_id := 1001; guild := None |}; utcnow := 60;
              gensalt := λ _, "s0" |} 1 "bob" "u" "p" accepted
           {| username := "alice"; expires_at := 20 + SESSION_DURATION |}
           (1, {| ga_uploader_username := "alice"; ga_game := "wow";
                  ga_game_username_hash := "s0$u";
                  ga_game_password_hash := "s1$p" |}) []).
  - split; [vm_compute; reflexivity | vm_compute; discriminate].
  - vm_compute. reflexivity.
  - vm_compute. discriminate.
  - reflexivity.
Defined.

(** ** Uploads wait for approval *)

Lemma upload_account_run `{Bcrypt} e game game_username game_password w s :
  logged_in_as w e s →
  let d' := with_pending_game_accounts
              (insert_row (upload e s game game_username game_password))
              (db w) in
  upload_account e game game_username game_password w =
    (Ok (),
     {| sessions := sessions w; db := d'; conn := d';
        trace := trace w ++
          [Execute "INSERT INTO pending_game_accounts (uploader_username, game, game_username_hash, game_password_hash) VALUES (%s, %s, %s, %s)";
           Commit;
           CtxSend UploadSubmitted] |}).
Proof.
  intros Hs d'. unfold upload_account.
  unfold mbind at 1, M_bind at 1. rewrite (is_logged_in_logged_in _ _ s) by done.
  run_monad. by rewrite <- !app_assoc.
Qed.

(** X8: [upload_account] by a logged-in caller appends exactly one
    [pending_game_accounts] row, attributed to the session's username and
    holding, in place of the two secrets, what [bcrypt.hashpw] returns for
    each of them with a salt of its own, and leaves [game_accounts] alone:
    until the console approves it the upload is no credential. Asking
    access (for at least one username) to, or sharing, an id for which the
    caller had no credential before the upload is refused after it exactly
    as before, with "Account not found or not owned by you."; with no
    username, asking access is refused for the missing usernames. *)
Theorem upload_account_waits `{Bcrypt} e game game_username game_password w s :
  logged_in_as w e s →
  let w' := (upload_account e game game_username game_password w).2 in
  rows (pending_game_accounts (db w'))
  = rows (pending_game_accounts (db w))
    ++ [(auto_increment (pending_game_accounts (db w)),
         {| pga_uploader_username := username s; pga_game := game;
            pga_game_username_hash := hashpw game_username (gensalt e 0);
            pga_game_password_hash := hashpw game_password (gensalt e 1);
            pga_created_at := submission_timestamp e |})]
  ∧ game_accounts (db w') = game_accounts (db w)
  ∧ ∀ e' s' account_id usernames target_username game_username' game_password',
      logged_in_as w' e' s' →
      owned (db w) account_id (username s') = [] →
      replies (trace (grant_access e' account_id usernames w').2)
      = replies (trace w')
        ++ [if decide (usernames = []) then ProvideAtLeastOneUsername
            else AccountNotFoundOrNotOwned]
      ∧ replies (trace (share_account e' account_id target_username
                          game_username' game_password' w').2)
        = replies (trace w') ++ [AccountNotFoundOrNotOwned].
Proof.
  intros Hs w'. subst w'. rewrite (upload_account_run _ _ _ _ _ s) by done.
  cbn [snd db]. split; [done|]. split; [done|].
  intros e' s' account_id usernames target_username game_username'
    game_password' Hs' Hown.
  rewrite (share_account_not_owned _ _ _ _ _ _ s') by done.
  destruct (decide (usernames = [])) as [->|Hne].
  - rewrite (grant_access_empty _ _ _ s') by done.
    cbn [snd trace]. by rewrite !replies_app.
  - rewrite (grant_access_not_owner _ _ _ _ s') by done.
    cbn [snd trace]. by rewrite !replies_app.
Qed.

Lemma upload_account_waits_witness :
  let w' := (@upload_account example_bcrypt (example_env 1001 42)
               "eve" "u2" "p2" invited).2 in
  rows (pending_game_accounts (db w'))
  = [(2, {| pga_uploader_username := "alice"; pga_game := "eve";
            pga_game_username_hash := "s0$u2";
            pga_game_password_hash := "s1$p2"; pga_created_at := 42 |})]
  ∧ game_accounts (db w') = game_accounts (db invited)
  ∧ replies (trace (grant_access (example_env 1001 43) 2 ["bob"] w').2)
    = replies (trace w') ++ [AccountNotFoundOrNotOwned].
Proof.
  intros w'. subst w'.
  destruct (@upload_account_waits example_bcrypt (example_env 1001 42)
              "eve" "u2" "p2" invited
              {| username := "alice"; expires_at := 20 + SESSION_DURATION |})
    as (Hrow & Hsame & Hrefused).
  - split; [vm_compute; reflexivity | vm_compute; discriminate].
  - split; [rewrite Hrow; vm_compute; reflexivity|].
    split; [exact Hsame|].
    apply (Hrefused (example_env 1001 43)
             {| username := "alice"; expires_at := 20 + SESSION_DURATION |}
             2 ["bob"] "bob" "u" "p").
    + split; [vm_compute; reflexivity | vm_compute; discriminate].
    + vm_compute. reflexivity.
Defined.

(** ** What [pending_access] lists *)

Lemma pending_access_run e w s :
  logged_in_as w e s →
  pending_access e w =
    (Ok (),
     {| sessions := sessions w; db := db w; conn := db w;
        trace := trace w ++
          [Execute "SELECT account_id FROM access_requests WHERE username = %s";
           CtxSend
             match pending_ids (db w) (username s) with
             | [] => NoPendingAccessRequests
             | ids => PendingAccessRequests (String.concat ", " (pretty <$> ids))
             end] |}).
Proof.
  intros Hs. unfold pending_access.
  unfold mbind at 1, M_bind at 1. rewrite (is_logged_in_logged_in _ _ s) by done.
  unfold pending_ids. run_monad.
  destruct (select_where _ (access_requests (db w))) as [|row rows]; simpl.
  - by rewrite <- app_assoc.
  - rewrite <- app_assoc. simpl. by rewrite <- list_fmap_compose.
Qed.

Lemma pending_ids_requested d who account_id :
  account_id ∈ pending_ids d who ↔ requested d account_id who ≠ [].
Proof.
  unfold pending_ids, requested, select_where. rewrite list_elem_of_fmap. split.
  - intros (row & -> & Hrow). apply list_elem_of_filter in Hrow as [Hwho Hrow].
    intros Hnil.
    assert (row ∈ filter (λ r : Z * AccessRequest,
                            ar_account_id r.2 = ar_account_id row.2
                            ∧ ar_username r.2 = who)
                     (rows (access_requests d))) as Hin
      by (by apply list_elem_of_filter).
    rewrite Hnil in Hin. by apply elem_of_nil in Hin.
  - intros Hne.
    destruct (filter _ (rows (access_requests d))) as [|row rest] eqn:Hf;
      [done|].
    assert (row ∈ filter (λ r : Z * AccessRequest,
                            ar_account_id r.2 = account_id
                            ∧ ar_username r.2 = who)
                     (rows (access_requests d))) as Hin
      by (rewrite Hf; left).
    apply list_elem_of_filter in Hin as [[Hid Hwho] Hin].
    exists row. split; [done|]. by apply list_elem_of_filter.
Qed.

(** X9: [pending_access] by a logged-in caller replies with the credential
    ids of the request rows that name the caller's username, in table
    order, separated by ", " (an id once per row), or with "No pending
    access requests." when there is none. The ids it lists are exactly
    those [confirm_access] accepts from that caller: confirming a listed id
    replies "Access confirmed.", any other id "No pending access request
    found.". *)
Theorem pending_access_lists_confirmable e w s :
  logged_in_as w e s →
  replies (trace (pending_access e w).2)
  = replies (trace w)
    ++ [match pending_ids (db w) (username s) with
        | [] => NoPendingAccessRequests
        | ids => PendingAccessRequests (String.concat ", " (pretty <$> ids))
        end]
  ∧ ∀ account_id,
      replies (trace (confirm_access e account_id w).2)
      = replies (trace w)
        ++ [if decide (account_id ∈ pending_ids (db w) (username s))
            then AccessConfirmed else NoPendingAccessRequestFound].
Proof.
  intros Hs. split.
  - rewrite (pending_access_run _ _ s) by done. cbn [snd trace].
    by rewrite replies_app.
  - intros account_id.
    destruct (requested (db w) account_id (username s)) as [|row rest] eqn:Hreq.
    + rewrite (confirm_access_none _ _ _ s) by done. cbn [snd trace].
      rewrite decide_False; [by rewrite replies_app|].
      intros Hin. apply pending_ids_requested in Hin. by rewrite Hreq in Hin.
    + rewrite (confirm_access_found _ _ _ s row rest) by done. cbn [snd trace].
      rewrite decide_True; [by rewrite replies_app|].
      apply pending_ids_requested. by rewrite Hreq.
Qed.

Lemma pending_access_lists_confirmable_witness :
  replies (trace (pending_access (example_env 1002 50) invited_twice).2)
  = replies (trace invited_twice) ++ [PendingAccessRequests "1, 1"]
  ∧ replies (trace (confirm_access (example_env 1002 50) 2 invited_twice).2)
    = replies (trace invited_twice) ++ [NoPendingAccessRequestFound].
Proof.
  destruct (pending_access_lists_confirmable (example_env 1002 50) invited_twice
              {| username := "bob"; expires_at := 21 + SESSION_DURATION |})
    as [Hlist Hconfirm].
  - split; [vm_compute; reflexivity | vm_compute; discriminate].
  - split; [rewrite Hlist | rewrite Hconfirm]; vm_compute; reflexivity.
Defined.

(** ** What [list_accounts] lists *)

Lemma list_accounts_run e w s :
  logged_in_as w e s →
  list_accounts e w =
    (Ok (),
     {| sessions := sessions w; db := db w; conn := db w;
        trace := trace w ++
          [Execute "SELECT ga.id, ga.game FROM access_grants ag JOIN game_accounts ga ON ga.id = ag.account_id WHERE ag.username = %s";
           CtxSend
             match shared_accounts (username s) (db w) with
             | [] => NoSharedAccounts
             | shared => SharedAccounts (account_line <$> shared)
             end] |}).
Proof.
  intros Hs. unfold list_accounts.
  unfold mbind at 1, M_bind at 1. rewrite (is_logged_in_logged_in _ _ s) by done.
  unfold mbind at 1, M_bind at 1. unfold acquire at 1.
  unfold mbind at 1, M_bind at 1. unfold query at 1. cbn [conn].
  destruct (shared_accounts (username s) (db w)) as [|row shared];
    run_monad; by rewrite <- app_assoc.
Qed.

Lemma shared_accounts_elem who d account_id game :
  (account_id, game) ∈ shared_accounts who d
  ↔ granted d account_id who ≠ []
    ∧ ∃ account, (account_id, account) ∈ rows (game_accounts d)
                 ∧ game = ga_game account.
Proof.
  unfold shared_accounts, granted, select_where. rewrite list_elem_of_bind. split.
  - intros (ag & Hin & Hag). apply list_elem_of_filter in Hag as [Hwho Hag].
    apply list_elem_of_bind in Hin as (ga & Hin & Hga).
    apply list_elem_of_filter in Hga as [Hid Hga].
    apply list_elem_of_singleton in Hin as [= -> ->]. split.
    + intros Hnil.
      assert (ag ∈ filter (λ r : Z * AccessGrant,
                             ag_account_id r.2 = ga.1 ∧ ag_username r.2 = who)
                      (rows (access_grants d))) as Hin
        by (by apply list_elem_of_filter).
      rewrite Hnil in Hin. by apply elem_of_nil in Hin.
    + exists ga.2. by destruct ga.
  - intros [Hgrant (account & Haccount & ->)].
    destruct (filter _ (rows (access_grants d))) as [|ag rest] eqn:Hf; [done|].
    assert (ag ∈ filter (λ r : Z * AccessGrant,
                           ag_account_id r.2 = account_id
                           ∧ ag_username r.2 = who)
                    (rows (access_grants d))) as Hin
      by (rewrite Hf; left).
    apply list_elem_of_filter in Hin as [[Hid Hwho] Hin].
    exists ag. split; [|by apply list_elem_of_filter].
    apply list_elem_of_bind. exists (account_id, account).
    split; [by left|]. by apply list_elem_of_filter.
Qed.

(** X10: [list_accounts] by a logged-in caller replies with one line
    "ID <id>: <game>" per pair of a grant row naming the caller's username
    and a [game_accounts] row of the granted id, or with "No shared
    accounts found." when there is no such pair. A credential is therefore
    listed exactly when the caller holds a grant for it and the credential
    exists; what the caller uploaded is not listed for that reason alone. *)
Theorem list_accounts_shows_grants e w s :
  logged_in_as w e s →
  replies (trace (list_accounts e w).2)
  = replies (trace w)
    ++ [match shared_accounts (username s) (db w) with
        | [] => NoSharedAccounts
        | shared => SharedAccounts (account_line <$> shared)
        end]
  ∧ ∀ account_id game,
      (account_id, game) ∈ shared_accounts (username s) (db w)
      ↔ granted (db w) account_id (username s) ≠ []
        ∧ ∃ account, (account_id, account) ∈ rows (game_accounts (db w))
                     ∧ game = ga_game account.
Proof.
  intros Hs. split.
  - rewrite (list_accounts_run _ _ s) by done. cbn [snd trace].
    by rewrite replies_app.
  - intros account_id game. apply shared_accounts_elem.
Qed.

Lemma list_accounts_shows_grants_witness :
  replies (trace (list_accounts (example_env 1001 60) accepted).2)
  = replies (trace accepted) ++ [NoSharedAccounts]
  ∧ replies (trace (list_accounts (example_env 1002 60) accepted).2)
    = replies (trace accepted) ++ [SharedAccounts ["ID 1: wow"]].
Proof.
  destruct (list_accounts_shows_grants (example_env 1001 60) accepted
              {| username := "alice"; expires_at := 20 + SESSION_DURATION |})
    as [Halice _].
  { split; [vm_compute; reflexivity | vm_compute; discriminate]. }
  destruct (list_accounts_shows_grants (example_env 1002 60) accepted
              {| username := "bob"; expires_at := 21 + SESSION_DURATION |})
    as [Hbob _].
  { split; [vm_compute; reflexivity | vm_compute; discriminate]. }
  split; [rewrite Halice | rewrite Hbob]; vm_compute; reflexivity.
Defined.

Lemma granted_confirmed d account_id s row :
  granted (confirmed d account_id s row) account_id (username s) ≠ [].
Proof.
  unfold granted, confirmed, select_where, insert_row. simpl.
  rewrite filter_app, filter_cons_True by done.
  intros Hnil. by apply app_nil in Hnil as [_ ?].
Qed.

(** X11: once [confirm_access] has accepted a request, the credential
    shows in the caller's [list_accounts]: if the credential has a
    [game_accounts] row, the reply of a following [list_accounts] by the
    same caller, still logged in, is a list of shared accounts that
    contains the line "ID <id>: <game>" of that credential. *)
Theorem confirmed_account_is_listed e e' account_id w s row rest account :
  logged_in_as w e s →
  requested (db w) account_id (username s) = row :: rest →
  (account_id, account) ∈ rows (game_accounts (db w)) →
  let w1 := (confirm_access e account_id w).2 in
  logged_in_as w1 e' s →
  ∃ lines,
    replies (trace (list_accounts e' w1).2)
    = replies (trace w1) ++ [SharedAccounts lines]
    ∧ account_line (account_id, ga_game account) ∈ lines.
Proof.
  intros Hs Hrow Haccount w1 Hs1.
  assert (db w1 = confirmed (db w) account_id s row) as Hdb
    by (subst w1; by rewrite (confirm_access_found _ _ _ s row rest)).
  assert ((account_id, ga_game account) ∈ shared_accounts (username s) (db w1))
    as Hshared.
  { apply shared_accounts_elem. rewrite Hdb. split.
    - apply granted_confirmed.
    - by exists account. }
  rewrite (list_accounts_run _ _ s) by done. cbn [snd trace].
  destruct (shared_accounts (username s) (db w1)) as [|shared0 shared] eqn:Hl;
    [by apply elem_of_nil in Hshared|].
  exists (account_line <$> shared0 :: shared).
  split; [by rewrite replies_app|].
  apply list_elem_of_fmap. by exists (account_id, ga_game account).
Qed.

Lemma confirmed_account_is_listed_witness :
  ∃ lines,
    replies (trace (list_accounts (example_env 1002 51)
                      (confirm_access (example_env 1002 50) 1 invited).2).2)
    = replies (trace (confirm_access (example_env 1002 50) 1 invited).2)
      ++ [SharedAccounts lines]
    ∧ "ID 1: wow" ∈ lines.
Proof.
  apply (confirmed_account_is_listed (example_env 1002 50) (example_env 1002 51)
           1 invited
           {| username := "bob"; expires_at := 21 + SESSION_DURATION |}
           (1, {| ar_account_id := 1; ar_username := "bob";
                  ar_requested_by := "alice" |}) []
           {| ga_uploader_username := "alice"; ga_game := "wow";
              ga_game_username_hash := "s0$u";
              ga_game_password_hash := "s1$p" |}).
  - split; [vm_compute; reflexivity | vm_compute; discriminate].
  - vm_compute. reflexivity.
  - vm_compute. left.
  - split; [vm_compute; reflexivity | vm_compute; discriminate].
Defined.

(** ** The effect of a resolution *)

Lemma filter_not_in_nil {A} (l : list (Z * A)) :
  filter (λ r : Z * A, r.1 ∈ @nil Z) l = [].
Proof.
  induction l as [|r l IH]; [done|].
  rewrite filter_cons_False; [done|]. intros Hr. by apply elem_of_nil in Hr.
Qed.

Lemma approved_users_nil d : approved_users [] d = [].
Proof. unfold approved_users, select_where. by rewrite filter_not_in_nil. Qed.

Lemma approved_accounts_nil d : approved_accounts [] d = [].
Proof. unfold approved_accounts, select_where. by rewrite filter_not_in_nil. Qed.

Lemma filter_neither {A} (approve_ids reject_ids : list Z) (l : list (Z * A)) :
  filter (λ r, ¬ r.1 ∈ reject_ids) (filter (λ r, ¬ r.1 ∈ approve_ids) l)
  = filter (λ r, (r.1 ∉ approve_ids) ∧ (r.1 ∉ reject_ids)) l.
Proof. rewrite list_filter_filter. apply list_filter_iff. intros r. tauto. Qed.

Lemma rows_pending_users_rejected reject_ids d :
  rows (pending_users
          match reject_ids with
          | [] => d
          | _ => delete_pending_users reject_ids d
          end)
  = filter (λ r, ¬ r.1 ∈ reject_ids) (rows (pending_users d)).
Proof.
  destruct reject_ids as [|id reject_ids]; [|done].
  rewrite filter_all; [done|]. intros r Hr. by apply elem_of_nil in Hr.
Qed.

Lemma rows_pending_game_accounts_rejected reject_ids d :
  rows (pending_game_accounts
          match reject_ids with
          | [] => d
          | _ => delete_pending_game_accounts reject_ids d
          end)
  = filter (λ r, ¬ r.1 ∈ reject_ids) (rows (pending_game_accounts d)).
Proof.
  destruct reject_ids as [|id reject_ids]; [|done].
  rewrite filter_all; [done|]. intros r Hr. by apply elem_of_nil in Hr.
Qed.

(** The committed database after [approve_pending_users], when the
    promotion is accepted. *)
Lemma approve_pending_users_db approve_ids reject_ids w :
  users_accepts (users (db w)) (approved_users approve_ids (db w)) →
  let d' := db (approve_pending_users approve_ids reject_ids w).2 in
  (approve_pending_users approve_ids reject_ids w).1 = Ok ()
  ∧ conn (approve_pending_users approve_ids reject_ids w).2 = d'
  ∧ rows (pending_users d')
    = filter (λ r, (r.1 ∉ approve_ids) ∧ (r.1 ∉ reject_ids))
        (rows (pending_users (db w)))
  ∧ (snd <$> rows (users d'))
    = (snd <$> rows (users (db w))) ++ approved_users approve_ids (db w)
  ∧ game_accounts d' = game_accounts (db w)
  ∧ pending_game_accounts d' = pending_game_accounts (db w)
  ∧ access_requests d' = access_requests (db w)
  ∧ access_grants d' = access_grants (db w).
Proof.
  intros Hacc d'. subst d'. rewrite approve_pending_users_run. cbv zeta.
  destruct (merge_sort _ (rows (pending_users (db w)))) eqn:Hsort.
  { apply merge_sort_nil in Hsort. unfold mk_world. cbn [fst snd db conn].
    unfold approved_users, select_where. rewrite Hsort. simpl.
    by rewrite app_nil_r. }
  destruct approve_ids as [|a approve_ids].
  - rewrite ok_reject_and_commit, db_reject_and_commit.
    unfold mk_world. cbn [conn]. rewrite approved_users_nil, app_nil_r.
    rewrite rows_pending_users_rejected.
    split; [done|]. split; [by destruct reject_ids|].
    split; [|by destruct reject_ids].
    rewrite <- filter_neither. f_equal. rewrite filter_all; [done|].
    intros r Hr. by apply elem_of_nil in Hr.
  - rewrite decide_True by done.
    rewrite ok_reject_and_commit, db_reject_and_commit.
    unfold mk_world. cbn [conn]. rewrite rows_pending_users_rejected.
    split; [done|]. split; [by destruct reject_ids|].
    split; [apply filter_neither|].
    split; [|by destruct reject_ids].
    assert (∀ d, users (match reject_ids with
                        | [] => d
                        | _ => delete_pending_users reject_ids d
                        end) = users d) as -> by (by destruct reject_ids).
    apply rows_insert_rows.
Qed.

(** The committed database after [approve_pending_accounts]. *)
Lemma approve_pending_accounts_db approve_ids reject_ids w :
  let d' := db (approve_pending_accounts approve_ids reject_ids w).2 in
  (approve_pending_accounts approve_ids reject_ids w).1 = Ok ()
  ∧ conn (approve_pending_accounts approve_ids reject_ids w).2 = d'
  ∧ rows (pending_game_accounts d')
    = filter (λ r, (r.1 ∉ approve_ids) ∧ (r.1 ∉ reject_ids))
        (rows (pending_game_accounts (db w)))
  ∧ (snd <$> rows (game_accounts d'))
    = (snd <$> rows (game_accounts (db w)))
      ++ approved_accounts approve_ids (db w)
  ∧ users d' = users (db w)
  ∧ pending_users d' = pending_users (db w)
  ∧ access_requests d' = access_requests (db w)
  ∧ access_grants d' = access_grants (db w).
Proof.
  intros d'. subst d'. rewrite approve_pending_accounts_run. cbv zeta.
  destruct (merge_sort _ (rows (pending_game_accounts (db w)))) eqn:Hsort.
  { apply merge_sort_nil in Hsort. unfold mk_world. cbn [fst snd db conn].
    unfold approved_accounts, select_where. rewrite Hsort. simpl.
    by rewrite app_nil_r. }
  destruct approve_ids as [|a approve_ids].
  - rewrite ok_reject_and_commit, db_reject_and_commit.
    unfold mk_world. cbn [conn]. rewrite approved_accounts_nil, app_nil_r.
    rewrite rows_pending_game_accounts_rejected.
    split; [done|]. split; [by destruct reject_ids|].
    split; [|by destruct reject_ids].
    rewrite <- filter_neither. f_equal. rewrite filter_all; [done|].
    intros r Hr. by apply elem_of_nil in Hr.
  - rewrite ok_reject_and_commit, db_reject_and_commit.
    unfold mk_world. cbn [conn]. rewrite rows_pending_game_accounts_rejected.
    split; [done|]. split; [by destruct reject_ids|].
    split; [apply filter_neither|].
    split; [|by destruct reject_ids].
    assert (∀ d, game_accounts (match reject_ids with
                                | [] => d
                                | _ => delete_pending_game_accounts reject_ids d
                                end) = game_accounts d) as ->
      by (by destruct reject_ids).
    apply rows_insert_rows.
Qed.

(** X12: what a resolution leaves behind, for any two id lists. The
    pending rows that remain are those whose id is in neither list, in
    their order; the approved rows, in table order, are appended to the
    authoritative table with their username and hash (their uploader, game
    and hashes); rows in neither list, the other queue and the request and
    grant tables are untouched. For registrations this is so whenever the
    promotion does not repeat a username of [users]; for credentials
    always, and that resolution never fails. *)
Theorem resolution_effect approve_ids reject_ids w :
  (users_accepts (users (db w)) (approved_users approve_ids (db w)) →
   let d' := db (approve_pending_users approve_ids reject_ids w).2 in
   (approve_pending_users approve_ids reject_ids w).1 = Ok ()
   ∧ rows (pending_users d')
     = filter (λ r, (r.1 ∉ approve_ids) ∧ (r.1 ∉ reject_ids))
         (rows (pending_users (db w)))
   ∧ (snd <$> rows (users d'))
     = (snd <$> rows (users (db w))) ++ approved_users approve_ids (db w)
   ∧ game_accounts d' = game_accounts (db w)
   ∧ pending_game_accounts d' = pending_game_accounts (db w)
   ∧ access_requests d' = access_requests (db w)
   ∧ access_grants d' = access_grants (db w))
  ∧ (let d' := db (approve_pending_accounts approve_ids reject_ids w).2 in
     (approve_pending_accounts approve_ids reject_ids w).1 = Ok ()
     ∧ rows (pending_game_accounts d')
       = filter (λ r, (r.1 ∉ approve_ids) ∧ (r.1 ∉ reject_ids))
           (rows (pending_game_accounts (db w)))
     ∧ (snd <$> rows (game_accounts d'))
       = (snd <$> rows (game_accounts (db w)))
         ++ approved_accounts approve_ids (db w)
     ∧ users d' = users (db w)
     ∧ pending_users d' = pending_users (db w)
     ∧ access_requests d' = access_requests (db w)
     ∧ access_grants d' = access_grants (db w)).
Proof.
  split.
  - intros Hacc.
    destruct (approve_pending_users_db approve_ids reject_ids w Hacc)
      as (? & _ & ? & ? & ? & ? & ? & ?).
    done.
  - destruct (approve_pending_accounts_db approve_ids reject_ids w)
      as (? & _ & ? & ? & ? & ? & ? & ?).
    done.
Qed.

Lemma resolution_effect_witness :
  (fst <$> rows (pending_users (db (approve_pending_users [7] [2] queued).2)))
  = []
  ∧ (fst <$> rows (pending_game_accounts
                     (db (approve_pending_accounts [] [9] queued).2)))
    = [1].
Proof.
  destruct (resolution_effect [7] [2] queued) as [Husers _].
  destruct (resolution_effect [] [9] queued) as [_ Haccounts].
  split.
  - destruct Husers as (_ & -> & _); [by_evaluation|]. vm_compute. reflexivity.
  - destruct Haccounts as (_ & -> & _). vm_compute. reflexivity.
Defined.

(** ** Usernames stay unique, so promotions are accepted *)

Lemma register_run `{Bcrypt} e username password w :
  register e username password w =
    (Ok (),
     if decide (registered (db w) username) then
       mk_world (sessions w) (db w) (db w)
         (trace w ++
          [Execute "SELECT 1 FROM users WHERE username = %s";
           CtxSend UsernameAlreadyRegistered])
     else if decide (pending (db w) username) then
       mk_world (sessions w) (db w) (db w)
         (trace w ++
          [Execute "SELECT 1 FROM users WHERE username = %s";
           Execute "SELECT 1 FROM pending_users WHERE username = %s";
           CtxSend RegistrationAlreadyPending])
     else
       let d' := with_pending_users
                   (insert_row (registration e username password)) (db w) in
       mk_world (sessions w) d' d'
         (trace w ++
          [Execute "SELECT 1 FROM users WHERE username = %s";
           Execute "SELECT 1 FROM pending_users WHERE username = %s";
           Execute "INSERT INTO pending_users (username, passhash, requested_by) VALUES (%s, %s, %s)";
           Commit;
           CtxSend RegistrationSubmitted])).
Proof.
  pose proof (registered_fetchone (db w) username) as Hreg.
  pose proof (pending_fetchone (db w) username) as Hpend.
  unfold register, mk_world. run_monad.
  destruct (fetchone (select_where _ (users (db w)))) as [u|] eqn:Hu; simpl.
  { rewrite decide_True by (apply Hreg; eauto). by rewrite <- app_assoc. }
  rewrite decide_False by (by intros [? [=]]%Hreg).
  destruct (fetchone (select_where _ (pending_users (db w)))) as [p|] eqn:Hp;
    simpl.
  { rewrite decide_True by (apply Hpend; eauto). by rewrite <- !app_assoc. }
  rewrite decide_False by (by intros [? [=]]%Hpend).
  by rewrite <- !app_assoc.
Qed.

Lemma NoDup_fmap_filter_pair {A B} (f : A → B) (Q Q' : A → Prop)
    `{∀ x, Decision (Q x)} `{∀ x, Decision (Q' x)} (l : list A) :
  (∀ x, Q x → Q' x → False) →
  NoDup (f <$> l) →
  NoDup ((f <$> filter Q l) ++ (f <$> filter Q' l)).
Proof.
  intros Hdisjoint. induction l as [|x l IH]; [by rewrite !app_nil_r|].
  rewrite fmap_cons, NoDup_cons. intros [Hx Hl]. specialize (IH Hl).
  assert (∀ (P : A → Prop) `{∀ x, Decision (P x)}, f x ∉ f <$> filter P l)
    as Hnot.
  { intros P ? Hin. apply Hx. apply list_elem_of_fmap in Hin as (y & -> & Hy).
    apply list_elem_of_filter in Hy as [_ Hy].
    apply list_elem_of_fmap. by exists y. }
  rewrite !filter_cons.
  destruct (decide (Q x)) as [HQ|HQ], (decide (Q' x)) as [HQ'|HQ'].
  - by destruct (Hdisjoint x).
  - rewrite fmap_cons. simpl. apply NoDup_cons. split; [|done].
    intros Hin. apply elem_of_app in Hin as [Hin|Hin]; by eapply Hnot.
  - rewrite fmap_cons. apply NoDup_app in IH as (H1 & H2 & H3).
    apply NoDup_app. split; [done|]. split.
    + intros y Hy Hin. apply elem_of_cons in Hin as [->|Hin].
      * by eapply Hnot.
      * by apply (H2 y).
    + apply NoDup_cons. split; [by apply Hnot|done].
  - done.
Qed.

Lemma approved_usernames approve_ids d :
  u_username <$> approved_users approve_ids d
  = pu_username ∘ snd
      <$> filter (λ r, r.1 ∈ approve_ids) (rows (pending_users d)).
Proof.
  unfold approved_users, select_where. rewrite <- list_fmap_compose.
  by apply list_fmap_ext.
Qed.

Lemma fmap_filter_elem {A B} (f : A → B) (Q : A → Prop)
    `{∀ x, Decision (Q x)} (l : list A) y :
  y ∈ f <$> filter Q l → y ∈ f <$> l.
Proof.
  intros (x & -> & Hx)%list_elem_of_fmap.
  apply list_elem_of_filter in Hx as [_ Hx].
  apply list_elem_of_fmap. by exists x.
Qed.

Lemma NoDup_fmap_filter {A B} (f : A → B) (Q : A → Prop)
    `{∀ x, Decision (Q x)} (l : list A) :
  NoDup (f <$> l) → NoDup (f <$> filter Q l).
Proof.
  induction l as [|x l IH]; [done|].
  rewrite fmap_cons, NoDup_cons. intros [Hx Hl]. rewrite filter_cons.
  destruct (decide (Q x)); [|by apply IH].
  rewrite fmap_cons. apply NoDup_cons. split; [|by apply IH].
  intros Hin. apply Hx. by eapply fmap_filter_elem.
Qed.

Lemma users_accepts_of_unique approve_ids d :
  usernames_unique d →
  users_accepts (users d) (approved_users approve_ids d).
Proof.
  unfold usernames_unique, users_accepts. intros (HU & Hsep & HP)%NoDup_app.
  rewrite approved_usernames. split.
  - by apply NoDup_fmap_filter.
  - apply Forall_forall. intros u Hu Hin. apply (Hsep _ Hin).
    apply (fmap_filter_elem _ (λ r, r.1 ∈ approve_ids)).
    rewrite <- approved_usernames. apply list_elem_of_fmap. by exists u.
Qed.

Lemma usernames_unique_resolved approve_ids reject_ids w :
  usernames_unique (db w) →
  usernames_unique (db (approve_pending_users approve_ids reject_ids w).2).
Proof.
  intros Hd.
  destruct (approve_pending_users_db approve_ids reject_ids w
              (users_accepts_of_unique approve_ids (db w) Hd))
    as (_ & _ & Hpending & Husers & _).
  unfold usernames_unique in *. apply NoDup_app in Hd as (HU & Hsep & HP).
  rewrite Hpending.
  rewrite (list_fmap_compose snd u_username), Husers, fmap_app.
  rewrite <- (list_fmap_compose snd u_username), approved_usernames.
  rewrite <- app_assoc. apply NoDup_app. split; [done|]. split.
  - intros x Hx Hin. apply (Hsep x Hx).
    apply elem_of_app in Hin as [Hin|Hin]; by eapply fmap_filter_elem.
  - apply NoDup_fmap_filter_pair; [|done]. intros r Hin [Hout _]. by destruct Hout.
Qed.

Lemma reachable_holds `{Bcrypt} (J : DB → Prop) w :
  J empty_db → (∀ st, preserves J (step st)) → reachable w → holds J w.
Proof.
  intros Hinit Hstep [steps <-].
  induction steps as [|st steps IH] using rev_ind; [by split|].
  unfold run. rewrite foldl_snoc. by apply Hstep.
Qed.

(** X13: a resolution of registrations cannot fail where the usernames are
    unique. If no username occurs twice over [users] and [pending_users]
    together, then whatever the two id lists (ids repeated, unknown, or in
    both lists) the promotion into [users] repeats no username, the call
    returns normally, and no username occurs twice afterwards either: the
    rows it moves keep their usernames and the rows it deletes free
    theirs. *)
Theorem promotion_of_unique_usernames approve_ids reject_ids w :
  usernames_unique (db w) →
  let w' := (approve_pending_users approve_ids reject_ids w).2 in
  users_accepts (users (db w)) (approved_users approve_ids (db w))
  ∧ (approve_pending_users approve_ids reject_ids w).1 = Ok ()
  ∧ usernames_unique (db w').
Proof.
  intros Hd w'. subst w'.
  split; [by apply users_accepts_of_unique|].
  split; [|by apply usernames_unique_resolved].
  by destruct (approve_pending_users_db approve_ids reject_ids w
                 (users_accepts_of_unique approve_ids (db w) Hd)) as (? & _).
Qed.

Lemma promotion_of_unique_usernames_witness :
  usernames_unique (db queued)
  ∧ (approve_pending_users [2; 2; 1] [2] queued).1 = Ok ()
  ∧ usernames_unique (db (approve_pending_users [2; 2; 1] [2] queued).2).
Proof.
  assert (usernames_unique (db queued)) as Hd by by_evaluation.
  split; [exact Hd|].
  exact (proj2 (promotion_of_unique_usernames [2; 2; 1] [2] queued Hd)).
Defined.

(** ** One request, one grant *)










(** ** Requests and grants come from the uploader *)

Lemma session_cases w e : logged_out w e ∨ ∃ s, logged_in_as w e s.
Proof.
  unfold logged_out, logged_in_as.
  destruct (sessions w !! author_id (ctx e)) as [s|]; [|by left; left].
  destruct (decide (expires_at s < utcnow e)); [left; right|right]; eauto.
Qed.

Lemma uploaded_by_owned d account_id who :
  uploaded_by d account_id who ↔ owned d account_id who ≠ [].
Proof.
  unfold uploaded_by, owned, select_where. split.
  - intros (r & Hr & Hid & Hwho) Hnil.
    assert (r ∈ filter (λ r : Z * GameAccount,
                          r.1 = account_id ∧ ga_uploader_username r.2 = who)
                   (rows (game_accounts d))) as Hin
      by (by apply list_elem_of_filter).
    rewrite Hnil in Hin. by apply elem_of_nil in Hin.
  - intros Hne.
    destruct (filter _ (rows (game_accounts d))) as [|r rest] eqn:Hf; [done|].
    assert (r ∈ filter (λ r : Z * GameAccount,
                          r.1 = account_id ∧ ga_uploader_username r.2 = who)
                   (rows (game_accounts d))) as Hin
      by (rewrite Hf; left).
    apply list_elem_of_filter in Hin as [[? ?] ?]. by exists r.
Qed.

Lemma rows_insert_rows_incl {A} (l : list A) (t : Table A) r :
  r ∈ rows t → r ∈ rows (insert_rows l t).
Proof.
  revert t. induction l as [|a l IH]; intros t Hr; [done|].
  unfold insert_rows in *. simpl. apply IH. simpl.
  apply elem_of_app. by left.
Qed.

Lemma attributed_requested d account_id s usernames :
  attributed d →
  uploaded_by d account_id (username s) →
  attributed (with_access_requests
                (insert_rows (new_requests d account_id (username s) usernames))
                d).
Proof.
  intros [Hreq Hgrant] Hup. split; [|done].
  intros x Hx. cbn [access_requests with_access_requests] in Hx.
  rewrite rows_insert_rows in Hx. apply elem_of_app in Hx as [Hx|Hx].
  - by apply Hreq.
  - unfold new_requests in Hx.
    apply list_elem_of_fmap in Hx as (u & -> & Hu).
    apply list_elem_of_filter in Hu as [Hu _]. by split.
Qed.

Lemma attributed_confirmed d account_id s row :
  attributed d →
  row ∈ requested d account_id (username s) →
  attributed (confirmed d account_id s row).
Proof.
  intros [Hreq Hgrant] Hrow. unfold requested, select_where in Hrow.
  apply list_elem_of_filter in Hrow as [[Hid Hwho] Hrow].
  assert (row.2 ∈ (snd <$> rows (access_requests d))) as Hin
    by (apply list_elem_of_fmap; by exists row).
  destruct (Hreq _ Hin) as [Hup Hregistered].
  split.
  - intros x Hx. apply Hreq. unfold confirmed, delete_where in Hx. simpl in Hx.
    by eapply fmap_filter_elem.
  - intros x Hx. unfold confirmed in Hx. simpl in Hx.
    rewrite fmap_app in Hx. apply elem_of_app in Hx as [Hx|Hx].
    + by apply Hgrant.
    + apply list_elem_of_singleton in Hx as ->. simpl.
      rewrite <- Hid, <- Hwho. by split.
Qed.

Lemma approve_pending_users_rejected approve_ids reject_ids w :
  ¬ users_accepts (users (db w)) (approved_users approve_ids (db w)) →
  (approve_pending_users approve_ids reject_ids w).1 = Raise IntegrityError
  ∧ db (approve_pending_users approve_ids reject_ids w).2 = db w
  ∧ conn (approve_pending_users approve_ids reject_ids w).2 = db w.
Proof.
  intros Hno. rewrite approve_pending_users_run. cbv zeta.
  destruct (merge_sort _ (rows (pending_users (db w)))) eqn:Hsort.
  { destruct Hno. apply merge_sort_nil in Hsort.
    unfold approved_users, select_where. rewrite Hsort. simpl.
    split; [apply NoDup_nil_2 | apply Forall_nil_2]. }
  destruct approve_ids as [|a approve_ids].
  { destruct Hno. rewrite approved_users_nil.
    split; [apply NoDup_nil_2 | apply Forall_nil_2]. }
  by rewrite decide_False.
Qed.

Lemma approve_pending_accounts_keeps approve_ids reject_ids w r :
  r ∈ rows (game_accounts (db w)) →
  r ∈ rows (game_accounts
              (db (approve_pending_accounts approve_ids reject_ids w).2)).
Proof.
  intros Hr. rewrite approve_pending_accounts_run. cbv zeta.
  destruct (merge_sort _ (rows (pending_game_accounts (db w)))); [done|].
  destruct approve_ids as [|a approve_ids];
    rewrite db_reject_and_commit; unfold mk_world; cbn [conn];
    destruct reject_ids; try done;
    unfold delete_pending_game_accounts; simpl;
    by apply rows_insert_rows_incl.
Qed.

Lemma step_keeps_attributed `{Bcrypt} st : preserves attributed (step st).
Proof.
  destruct st as [e c|approve_ids reject_ids|approve_ids reject_ids]; simpl.
  - destruct c; simpl;
      try (unfold register, login, fetch_user, logout, upload_account,
             list_accounts, share_account, pending_access;
           preserving; done).
    + (* grant_access *)
      intros w [Hdb Hconn].
      destruct (session_cases w e) as [Hout | [s Hs]].
      { unfold grant_access. unfold mbind at 1, M_bind at 1.
        rewrite is_logged_in_logged_out by done. by split. }
      destruct usernames as [|grantee usernames].
      { rewrite (grant_access_empty _ _ _ s) by done. by split. }
      destruct (owned (db w) account_id (username s)) as [|acct rest] eqn:Hown.
      { rewrite (grant_access_not_owner _ _ _ _ s) by done. by split. }
      rewrite (grant_access_owner _ _ _ _ s) by (done || by rewrite Hown).
      cbv zeta. unfold holds. cbn [snd db conn].
      split; (apply attributed_requested; [done|]);
        apply uploaded_by_owned; by rewrite Hown.
    + (* confirm_access *)
      intros w [Hdb Hconn].
      destruct (session_cases w e) as [Hout | [s Hs]].
      { unfold confirm_access. unfold mbind at 1, M_bind at 1.
        rewrite is_logged_in_logged_out by done. by split. }
      destruct (requested (db w) account_id (username s)) as [|row rest] eqn:Hreq.
      { rewrite (confirm_access_none _ _ _ s) by done. by split. }
      rewrite (confirm_access_found _ _ _ s row rest) by done.
      unfold holds. cbn [snd db conn].
      split; (apply attributed_confirmed; [done|]); rewrite Hreq; left.
  - intros w [Hdb Hconn]. unfold holds.
    destruct (decide (users_accepts (users (db w))
                        (approved_users approve_ids (db w)))) as [Hacc|Hacc].
    + destruct (approve_pending_users_db approve_ids reject_ids w Hacc)
        as (_ & -> & _ & Husers & Haccounts & _ & Hreq & Hgrant).
      assert (attributed (db (approve_pending_users approve_ids reject_ids w).2));
        [|by split].
      destruct Hdb as [Hr Hg]. unfold attributed, uploaded_by, registered.
      rewrite Hreq, Hgrant, Haccounts.
      rewrite (list_fmap_compose snd u_username), Husers, fmap_app.
      rewrite <- (list_fmap_compose snd u_username).
      split; intros x Hx; [destruct (Hr x Hx) | destruct (Hg x Hx)];
        (split; [done|]); apply elem_of_app; by left.
    + destruct (approve_pending_users_rejected approve_ids reject_ids w Hacc)
        as (_ & -> & ->). by split.
  - intros w [Hdb Hconn]. unfold holds.
    destruct (approve_pending_accounts_db approve_ids reject_ids w)
      as (_ & -> & _ & _ & Husers & _ & Hreq & Hgrant).
    assert (attributed (db (approve_pending_accounts approve_ids reject_ids w).2));
      [|by split].
    destruct Hdb as [Hr Hg]. unfold attributed, registered.
    rewrite Hreq, Hgrant, Husers.
    split; intros x Hx; [destruct (Hr x Hx) as [(r & ? & ? & ?) ?]
                        | destruct (Hg x Hx) as [(r & ? & ? & ?) ?]];
      (split; [|done]); exists r;
      (split; [by apply approve_pending_accounts_keeps | done]).
Qed.

(** X15: in every state the system reaches, each request row and each
    grant row is attributed ([requested_by], [granted_by]) to the uploader
    of a credential that exists under the row's id, and names a grantee
    that has a [users] row: only the uploader of a credential ever gets a
    request or a grant for it recorded, and only for registered users. *)
Theorem requests_and_grants_attributed `{Bcrypt} w :
  reachable w →
  (∀ r, r ∈ rows (access_requests (db w)) →
        owned (db w) (ar_account_id r.2) (ar_requested_by r.2) ≠ []
        ∧ registered (db w) (ar_username r.2))
  ∧ (∀ g, g ∈ rows (access_grants (db w)) →
          owned (db w) (ag_account_id g.2) (ag_granted_by g.2) ≠ []
          ∧ registered (db w) (ag_username g.2)).
Proof.
  intros Hw.
  destruct (reachable_holds attributed w) as [[Hreq Hgrant] _];
    [| apply @step_keeps_attributed | done |].
  { split; intros x Hx; by apply elem_of_nil in Hx. }
  split.
  - intros r Hr. destruct (Hreq r.2) as [Hup Hreg];
      [apply list_elem_of_fmap; by exists r|].
    split; [by apply uploaded_by_owned | done].
  - intros g Hg. destruct (Hgrant g.2) as [Hup Hreg];
      [apply list_elem_of_fmap; by exists g|].
    split; [by apply uploaded_by_owned | done].
Qed.

Lemma requests_and_grants_attributed_witness :
  @reachable example_bcrypt accepted
  ∧ (∀ r, r ∈ rows (access_requests (db accepted)) →
          owned (db accepted) (ar_account_id r.2) (ar_requested_by r.2) ≠ []
          ∧ registered (db accepted) (ar_username r.2))
  ∧ (∀ g, g ∈ rows (access_grants (db accepted)) →
          owned (db accepted) (ag_account_id g.2) (ag_granted_by g.2) ≠ []
          ∧ registered (db accepted) (ag_username g.2)).
Proof.
  assert (Hw : @reachable example_bcrypt accepted).
  { apply reachable_after. exists onboarding. unfold invited. reflexivity. }
  split; [exact Hw|].
  exact (@requests_and_grants_attributed example_bcrypt accepted Hw).
Defined.

(** ** How long a login lasts *)

(** X16: after a successful [login] at some instant, [is_logged_in] for
    the caller returns the new session at every instant up to and including
    that instant plus [SESSION_DURATION], and nothing at any later one;
    until something else touches the caller's session, the login is good for
    exactly two hours, both ends included. *)
Theorem login_session_window `{Bcrypt} e username password w user now :
  fetchone (select_where (λ r, u_username r.2 = username) (users (db w)))
    = Some user →
  verify_secret password (u_passhash user.2) = true →
  let w' := (login e username password w).2 in
  (is_logged_in now (author_id (ctx e)) w').1
  = Ok (if decide (now ≤ utcnow e + SESSION_DURATION)
        then Some {| username := username;
                     expires_at := utcnow e + SESSION_DURATION |}
        else None).
Proof.
  intros Huser Hok w'. subst w'. rewrite (login_success _ _ _ _ user) by done.
  cbn [snd].
  destruct (decide (now ≤ utcnow e + SESSION_DURATION)) as [Hin|Hout].
  - rewrite (is_logged_in_active _ _ _ (session_of_login e username));
      [done | apply lookup_insert_eq | simpl; lia].
  - rewrite (is_logged_in_expired _ _ _ (session_of_login e username));
      [done | apply lookup_insert_eq | simpl; lia].
Qed.

Lemma login_session_window_witness :
  let w0 := world_with_user {| u_username := "alice"; u_passhash := "s0$pw" |} in
  let w' := (@login example_bcrypt (example_env 7 50) "alice" "pw" w0).2 in
  (is_logged_in 7200000050 7 w').1
    = Ok (Some {| username := "alice"; expires_at := 7200000050 |})
  ∧ (is_logged_in 7200000051 7 w').1 = Ok None.
Proof.
  intros w0 w'. subst w'. split.
  - exact (@login_session_window example_bcrypt (example_env 7 50) "alice"
             "pw" w0 (1, {| u_username := "alice"; u_passhash := "s0$pw" |})
             7200000050 eq_refl eq_refl).
  - exact (@login_session_window example_bcrypt (example_env 7 50) "alice"
             "pw" w0 (1, {| u_username := "alice"; u_passhash := "s0$pw" |})
             7200000051 eq_refl eq_refl).
Defined.

(** X17: after [logout], whatever the state was, every protected command
    of the same caller is refused with "Please login first." and changes
    neither the database nor the session table, until the caller logs in
    again. *)
Theorem logout_ends_access `{Bcrypt} e e' c w :
  protected c = true →
  author_id (ctx e') = author_id (ctx e) →
  let w1 := (logout e w).2 in
  invoke e' c w1 =
    (Ok (),
     {| sessions := sessions w1; db := db w; conn := conn w;
        trace := trace w ++ [CtxSend LoggedOut; CtxSend PleaseLoginFirst] |}).
Proof.
  intros Hc Hsame w1.
  assert (sessions w1 !! author_id (ctx e') = None) as Hnone.
  { subst w1. unfold logout. run_monad. rewrite Hsame. apply lookup_delete_eq. }
  assert (db w1 = db w ∧ conn w1 = conn w
          ∧ trace w1 = trace w ++ [CtxSend LoggedOut]) as (Hdb & Hconn & Htr)
    by (subst w1; unfold logout; by run_monad).
  clearbody w1.
  destruct c; try done; simpl;
    unfold upload_account, list_accounts, grant_access, confirm_access,
      share_account, pending_access;
    unfold mbind at 1, M_bind at 1;
    rewrite is_logged_in_absent by done;
    unfold send, emit; simpl;
    by rewrite Hdb, Hconn, Htr, <- app_assoc.
Qed.

Lemma logout_ends_access_witness :
  replies (trace (@invoke example_bcrypt (example_env 1001 61)
                    (ShareAccount 1 "bob" "u" "p")
                    (logout (example_env 1001 60) accepted).2).2)
  = replies (trace accepted) ++ [LoggedOut; PleaseLoginFirst].
Proof.
  rewrite (@logout_ends_access example_bcrypt (example_env 1001 60)
             (example_env 1001 61) (ShareAccount 1 "bob" "u" "p") accepted);
    [| reflexivity | reflexivity].
  cbn [snd trace]. by rewrite replies_app.
Defined.

(** ** The life of a registration *)

Lemma register_reply `{Bcrypt} e username password w :
  replies (trace (register e username password w).2)
  = replies (trace w)
    ++ [if decide (registered (db w) username) then UsernameAlreadyRegistered
        else if decide (pending (db w) username) then RegistrationAlreadyPending
        else RegistrationSubmitted].
Proof.
  rewrite register_run. cbn [snd].
  destruct (decide (registered (db w) username));
    [|destruct (decide (pending (db w) username))];
    unfold mk_world; cbn [trace]; by rewrite replies_app.
Qed.

(** X18: a registration that was queued blocks its username until it is
    resolved, and the resolution decides what follows. While the row is
    pending, a further [register] of that username, by anyone and with any
    password, is answered "Registration already pending approval." and
    changes nothing. Once a resolution has approved the row's id the
    answer is "Username already registered."; once it has rejected the id
    (without approving it) the username is free and a new [register] is
    accepted. *)
Theorem registration_lifecycle `{Bcrypt} e username password w :
  ¬ registered (db w) username → ¬ pending (db w) username →
  let w1 := (register e username password w).2 in
  let id := auto_increment (pending_users (db w)) in
  (∀ e' password',
     replies (trace (register e' username password' w1).2)
     = replies (trace w1) ++ [RegistrationAlreadyPending]
     ∧ db (register e' username password' w1).2 = db w1)
  ∧ (∀ approve_ids reject_ids e' password',
       users_accepts (users (db w1)) (approved_users approve_ids (db w1)) →
       let w2 := (approve_pending_users approve_ids reject_ids w1).2 in
       (id ∈ approve_ids →
          replies (trace (register e' username password' w2).2)
          = replies (trace w2) ++ [UsernameAlreadyRegistered])
       ∧ (id ∉ approve_ids → id ∈ reject_ids →
          replies (trace (register e' username password' w2).2)
          = replies (trace w2) ++ [RegistrationSubmitted])).
Proof.
  intros Hnreg Hnpend w1 id.
  assert (db w1 = with_pending_users
                    (insert_row (registration e username password)) (db w))
    as Hdb1.
  { subst w1. rewrite register_run. cbn [snd].
    by rewrite !decide_False by done. }
  assert (¬ registered (db w1) username) as Hnreg1 by (by rewrite Hdb1).
  assert (pending (db w1) username) as Hpend1.
  { rewrite Hdb1. unfold pending. simpl. rewrite fmap_app.
    apply elem_of_app. right. by left. }
  split.
  - intros e' password'. rewrite register_reply, register_run. cbn [snd].
    destruct (decide (registered (db w1) username)); [done|].
    by destruct (decide (pending (db w1) username)).
  - intros approve_ids reject_ids e' password' Hacc w2.
    destruct (approve_pending_users_db approve_ids reject_ids w1 Hacc)
      as (_ & _ & Hpending & Husers & _).
    fold w2 in Hpending, Husers.
    assert (∀ x, x ∈ (u_username ∘ snd <$> rows (users (db w2)))
                 ↔ x ∈ (u_username ∘ snd <$> rows (users (db w1)))
                   ∨ x ∈ (u_username <$> approved_users approve_ids (db w1)))
      as Husers'.
    { intros x. rewrite (list_fmap_compose snd u_username), Husers, fmap_app.
      rewrite <- (list_fmap_compose snd u_username). apply elem_of_app. }
    assert ((id, registration e username password)
            ∈ rows (pending_users (db w1))) as Hrow.
    { rewrite Hdb1. simpl. apply elem_of_app. right. left. }
    assert (∀ r, r ∈ rows (pending_users (db w1)) →
                 pu_username r.2 = username →
                 r = (id, registration e username password)) as Honly.
    { intros r Hr Hname. rewrite Hdb1 in Hr. simpl in Hr.
      apply elem_of_app in Hr as [Hr|Hr].
      - destruct Hnpend. apply list_elem_of_fmap. by exists r.
      - by apply list_elem_of_singleton in Hr. }
    split.
    + intros Hid. rewrite register_reply. rewrite decide_True; [done|].
      apply Husers'. right. rewrite approved_usernames.
      apply list_elem_of_fmap. exists (id, registration e username password).
      split; [done|]. by apply list_elem_of_filter.
    + intros Hnot Hid. rewrite register_reply.
      rewrite decide_False.
      * rewrite decide_False; [done|].
        unfold pending. rewrite Hpending. intros Hin.
        apply list_elem_of_fmap in Hin as (r & Hname & Hr).
        apply list_elem_of_filter in Hr as [[_ Hout] Hr].
        rewrite (Honly r Hr) in Hout by done. by destruct Hout.
      * intros Hin. apply Husers' in Hin as [Hin|Hin]; [done|].
        rewrite approved_usernames in Hin.
        apply list_elem_of_fmap in Hin as (r & Hname & Hr).
        apply list_elem_of_filter in Hr as [Hr_id Hr].
        rewrite (Honly r Hr) in Hr_id by done. by destruct Hnot.
Qed.

Lemma registration_lifecycle_witness :
  let w1 := (@register example_bcrypt (example_env 1003 60) "carol" "pw-c"
               invited).2 in
  replies (trace (@register example_bcrypt (example_env 1004 61) "carol" "x"
                    (approve_pending_users [] [3] w1).2).2)
  = replies (trace (approve_pending_users [] [3] w1).2)
    ++ [RegistrationSubmitted].
Proof.
  intros w1. subst w1.
  destruct (@registration_lifecycle example_bcrypt (example_env 1003 60)
              "carol" "pw-c" invited) as [_ Hresolved].
  - by_evaluation.
  - by_evaluation.
  - destruct (Hresolved [] [3] (example_env 1004 61) "x") as [_ Hfree].
    + by_evaluation.
    + apply Hfree; [intros Hin; by apply elem_of_nil in Hin | vm_compute; left].
Defined.

(** ** A run of the console *)

(** X19: a run of the console, for the id lists read at its four prompts.
    With a master password that [bcrypt.checkpw] refuses it ends with
    SystemExit("Invalid master password.") before anything else happens.
    With one it accepts, the promotion of the registrations decides: where
    it repeats no username of [users], the console runs both resolutions,
    the credentials after the registrations, and returns; where it does
    repeat one, the first resolution raises IntegrityError, the second is
    skipped and nothing is committed. *)
Theorem main_runs_both_or_nothing `{Bcrypt} MASTER_PASSWORD_HASH password
    users_approve users_reject accounts_approve accounts_reject w :
  let run_users := approve_pending_users users_approve users_reject w in
  (checkpw password MASTER_PASSWORD_HASH = false →
     main MASTER_PASSWORD_HASH password users_approve users_reject
       accounts_approve accounts_reject w
     = (SystemExit "Invalid master password.", w))
  ∧ (checkpw password MASTER_PASSWORD_HASH = true →
     users_accepts (users (db w)) (approved_users users_approve (db w)) →
     main MASTER_PASSWORD_HASH password users_approve users_reject
       accounts_approve accounts_reject w
     = (Returned,
        (approve_pending_accounts accounts_approve accounts_reject
           run_users.2).2))
  ∧ (checkpw password MASTER_PASSWORD_HASH = true →
     ¬ users_accepts (users (db w)) (approved_users users_approve (db w)) →
     main MASTER_PASSWORD_HASH password users_approve users_reject
       accounts_approve accounts_reject w
     = (Raised IntegrityError, run_users.2)
     ∧ db run_users.2 = db w).
Proof.
  intros run_users. subst run_users. unfold main, verify_master_password.
  split; [|split].
  - by intros ->.
  - intros -> Hyes.
    destruct (approve_pending_users_db users_approve users_reject w Hyes)
      as [Hok _].
    unfold mbind, M_bind.
    destruct (approve_pending_users users_approve users_reject w)
      as [[[]|x] w1]; [|done].
    pose proof (approve_pending_accounts_db accounts_approve accounts_reject w1)
      as [Hok' _].
    simpl in *.
    by destruct (approve_pending_accounts accounts_approve accounts_reject w1)
      as [[[]|x] w2]; simplify_eq/=.
  - intros -> Hno.
    destruct (approve_pending_users_rejected users_approve users_reject w Hno)
      as (Hraise & Hdb & _).
    unfold mbind, M_bind.
    by destruct (approve_pending_users users_approve users_reject w)
      as [[[]|x] w1]; simplify_eq/=.
Qed.

Lemma main_runs_both_or_nothing_witness :
  @main example_bcrypt "s0$master" "guess" [2] [] [1] [] queued
  = (SystemExit "Invalid master password.", queued)
  ∧ (let done := @main example_bcrypt "s0$master" "master" [2] [] [1] [] queued in
     done.1 = Returned
     ∧ (u_username ∘ snd <$> rows (users (db done.2))) = ["alice"; "bob"]
     ∧ (ga_game ∘ snd <$> rows (game_accounts (db done.2))) = ["wow"])
  ∧ (let failed := @main example_bcrypt "s0$master" "master" [1; 2] [] [] []
                     registered_at_once in
     failed.1 = Raised IntegrityError
     ∧ db failed.2 = db registered_at_once).
Proof.
  destruct (@main_runs_both_or_nothing example_bcrypt "s0$master" "guess"
              [2] [] [1] [] queued) as [Hwrong _].
  destruct (@main_runs_both_or_nothing example_bcrypt "s0$master" "master"
              [2] [] [1] [] queued) as (_ & Hright & _).
  destruct (@main_runs_both_or_nothing example_bcrypt "s0$master" "master"
              [1; 2] [] [] [] registered_at_once) as (_ & _ & Hfails).
  split; [apply Hwrong; reflexivity|]. split.
  - cbv zeta. rewrite Hright; [|reflexivity|by_evaluation].
    split; [reflexivity|]. split; vm_compute; reflexivity.
  - cbv zeta. destruct Hfails as [-> Hdb]; [reflexivity| |].
    + intros Hyes. revert Hyes. by_evaluation.
    + split; [reflexivity|exact Hdb].
Defined.

(** ** The statements of a resolution *)

Lemma append_cons c s t : String c s +:+ t = String c (s +:+ t).
Proof. reflexivity. Qed.

Lemma append_nil t : "" +:+ t = t.
Proof. reflexivity. Qed.

Lemma ends_in_suffix suffix prefix : ends_in suffix (prefix +:+ suffix) = true.
Proof.
  induction prefix as [|c prefix IH].
  - destruct suffix as [|a suffix]; [done|].
    change (ends_in (String a suffix) (String a suffix) = true).
    cbn [ends_in]. by rewrite bool_decide_eq_true_2.
  - change (ends_in suffix (String c (prefix +:+ suffix)) = true).
    cbn [ends_in]. rewrite IH. apply orb_true_r.
Qed.

Lemma ends_in_cons c rest :
  c ≠ Ascii.ascii_of_nat 40 →
  ends_in "()" (String c rest) = ends_in "()" rest.
Proof.
  intros Hc. cbn [ends_in]. rewrite bool_decide_eq_false_2; [done|].
  intros [= -> _]. by destruct Hc.
Qed.

Lemma ends_in_placeholders n :
  ends_in "()" (String.concat ", " (replicate (S n) "%s") +:+ ")") = false.
Proof.
  induction n as [|n IH]; [vm_compute; reflexivity|].
  change (replicate (S (S n)) "%s") with ("%s" :: replicate (S n) "%s")%string.
  change (String.concat ", " ("%s" :: replicate (S n) "%s"))
    with ("%s" +:+ ", " +:+ String.concat ", " (replicate (S n) "%s")).
  rewrite !append_cons, !append_nil.
  rewrite !ends_in_cons by (vm_compute; discriminate).
  exact IH.
Qed.

Lemma has_ids_clause prefix id ids :
  has_ids (Execute (prefix +:+ build_in_clause (id :: ids))).
Proof.
  unfold has_ids, build_in_clause. simpl length.
  induction prefix as [|c prefix IH].
  - rewrite append_nil, append_cons, append_nil.
    cbn [ends_in]. rewrite bool_decide_eq_false_2.
    + apply ends_in_placeholders.
    + intros [= Hclose]. revert Hclose.
      destruct (length ids); [vm_compute; discriminate|].
      change (replicate (S (S n)) "%s")
        with ("%s" :: replicate (S n) "%s")%string.
      change (String.concat ", " ("%s" :: replicate (S n) "%s"))
        with ("%s" +:+ ", " +:+ String.concat ", " (replicate (S n) "%s")).
      rewrite !append_cons. discriminate.
  - change (String c prefix +:+ ?q) with (String c (prefix +:+ q)).
    cbn [ends_in]. rewrite IH, orb_false_r.
    apply bool_decide_eq_false_2.
    rewrite append_cons.
    destruct prefix as [|c' prefix].
    + rewrite !append_nil. discriminate.
    + rewrite !append_cons. destruct prefix; discriminate.
Qed.

Lemma emits_has_ids_users approve_ids reject_ids :
  emits has_ids (approve_pending_users approve_ids reject_ids).
Proof.
  unfold approve_pending_users.
  emitting; try done; try apply has_ids_clause.
Qed.

Lemma emits_has_ids_accounts approve_ids reject_ids :
  emits has_ids (approve_pending_accounts approve_ids reject_ids).
Proof.
  unfold approve_pending_accounts, insert_game_accounts_select.
  emitting; try done; try apply has_ids_clause.
Qed.

Lemma has_ids_not_empty_list evs sql prefix :
  Forall has_ids evs → Execute sql ∈ evs → sql ≠ prefix +:+ "()".
Proof.
  intros Hall Hin ->. rewrite Forall_forall in Hall. specialize (Hall _ Hin).
  simpl in Hall. by rewrite ends_in_suffix in Hall.
Qed.

(** X20: a resolution never sends the database a statement with an empty
    id list: whatever the two lists, no statement it executes ends in
    "()", since an INSERT or DELETE is only issued for a non-empty list and
    [build_in_clause] gives such a list at least one placeholder. With an
    empty queue the only statement is the listing SELECT: the notice is
    printed, nothing else is executed and nothing is committed. *)
Theorem resolution_statements approve_ids reject_ids w :
  (∃ evs,
     trace (approve_pending_users approve_ids reject_ids w).2 = trace w ++ evs
     ∧ ∀ sql prefix, Execute sql ∈ evs → sql ≠ prefix +:+ "()")
  ∧ (∃ evs,
       trace (approve_pending_accounts approve_ids reject_ids w).2
       = trace w ++ evs
       ∧ ∀ sql prefix, Execute sql ∈ evs → sql ≠ prefix +:+ "()")
  ∧ (rows (pending_users (db w)) = [] →
     trace (approve_pending_users approve_ids reject_ids w).2
     = trace w ++
       [Execute "SELECT id, username, requested_by, created_at FROM pending_users ORDER BY created_at";
        Print "No pending user registrations."]
     ∧ db (approve_pending_users approve_ids reject_ids w).2 = db w)
  ∧ (rows (pending_game_accounts (db w)) = [] →
     trace (approve_pending_accounts approve_ids reject_ids w).2
     = trace w ++
       [Execute "SELECT id, uploader_username, game, created_at FROM pending_game_accounts ORDER BY created_at";
        Print "No pending game account uploads."]
     ∧ db (approve_pending_accounts approve_ids reject_ids w).2 = db w).
Proof.
  split; [|split; [|split]].
  - destruct (emits_has_ids_users approve_ids reject_ids w) as (evs & Htr & Hevs).
    exists evs. split; [done|]. intros sql prefix.
    by apply has_ids_not_empty_list.
  - destruct (emits_has_ids_accounts approve_ids reject_ids w)
      as (evs & Htr & Hevs).
    exists evs. split; [done|]. intros sql prefix.
    by apply has_ids_not_empty_list.
  - intros Hempty. rewrite approve_pending_users_run. cbv zeta.
    rewrite Hempty. unfold mk_world. simpl. by rewrite <- app_assoc.
  - intros Hempty. rewrite approve_pending_accounts_run. cbv zeta.
    rewrite Hempty. unfold mk_world. simpl. by rewrite <- app_assoc.
Qed.

Lemma resolution_statements_witness :
  trace (approve_pending_users [1; 2] [3] invited).2
  = trace invited ++
    [Execute "SELECT id, username, requested_by, created_at FROM pending_users ORDER BY created_at";
     Print "No pending user registrations."].
Proof.
  destruct (resolution_statements [1; 2] [3] invited) as (_ & _ & Hempty & _).
  apply Hempty. vm_compute. reflexivity.
Defined.

(** ** Between commands the connection holds nothing uncommitted *)

Lemma login_conn `{Bcrypt} e username password w :
  db (login e username password w).2 = db w
  ∧ conn (login e username password w).2 = db w.
Proof.
  unfold login, fetch_user. run_monad.
  destruct (fetchone _) as [user|]; simpl; [|done].
  by destruct (verify_secret _ _).
Qed.

Lemma gated_logged_out e (body : LoginSession → M unit) w :
  logged_out w e →
  (session ← is_logged_in (utcnow e) (author_id (ctx e));
   match session with
   | None => send PleaseLoginFirst
   | Some session => body session
   end) w
  = (Ok (),
     {| sessions := delete (author_id (ctx e)) (sessions w);
        db := db w; conn := conn w;
        trace := trace w ++ [CtxSend PleaseLoginFirst] |}).
Proof.
  intros Hout. unfold mbind at 1, M_bind at 1.
  by rewrite is_logged_in_logged_out.
Qed.

Lemma step_synced `{Bcrypt} st w :
  conn w = db w → conn (after st w) = db (after st w).
Proof.
  intros Hsync. unfold after.
  destruct st as [e c|approve_ids reject_ids|approve_ids reject_ids]; simpl.
  - destruct c; simpl.
    + rewrite register_run. cbn [snd].
      destruct (decide (registered (db w) username0)); [done|].
      by destruct (decide (pending (db w) username0)).
    + by destruct (login_conn e username0 password w) as [-> ->].
    + unfold logout. by run_monad.
    + destruct (session_cases w e) as [Hout | [s Hs]].
      * unfold upload_account. by rewrite gated_logged_out.
      * by rewrite (upload_account_run _ _ _ _ _ s).
    + destruct (session_cases w e) as [Hout | [s Hs]].
      * unfold list_accounts. by rewrite gated_logged_out.
      * by rewrite (list_accounts_run _ _ s).
    + destruct (session_cases w e) as [Hout | [s Hs]].
      * unfold grant_access. by rewrite gated_logged_out.
      * destruct usernames as [|grantee usernames].
        { by rewrite (grant_access_empty _ _ _ s). }
        destruct (owned (db w) account_id (username s)) as [|acct rest] eqn:Hown.
        { by rewrite (grant_access_not_owner _ _ _ _ s). }
        by rewrite (grant_access_owner _ _ _ _ s) by (done || by rewrite Hown).
    + destruct (session_cases w e) as [Hout | [s Hs]].
      * unfold confirm_access. by rewrite gated_logged_out.
      * destruct (requested (db w) account_id (username s)) as [|row rest]
          eqn:Hreq.
        { by rewrite (confirm_access_none _ _ _ s). }
        by rewrite (confirm_access_found _ _ _ s row rest).
    + destruct (session_cases w e) as [Hout | [s Hs]].
      * unfold share_account. by rewrite gated_logged_out.
      * destruct (owned (db w) account_id (username s)) as [|acct rest] eqn:Hown.
        { by rewrite (share_account_not_owned _ _ _ _ _ _ s). }
        rewrite (share_account_checked _ _ _ _ _ _ s acct rest) by done.
        cbv zeta.
        destruct (granted (db w) account_id target_username); [done|].
        destruct (guild (ctx e)) as [members|]; [|done].
        by destruct (get_by_name members target_username).
    + destruct (session_cases w e) as [Hout | [s Hs]].
      * unfold pending_access. by rewrite gated_logged_out.
      * by rewrite (pending_access_run _ _ s).
  - destruct (decide (users_accepts (users (db w))
                        (approved_users approve_ids (db w)))) as [Hacc|Hacc].
    + by destruct (approve_pending_users_db approve_ids reject_ids w Hacc)
        as (_ & -> & _).
    + by destruct (approve_pending_users_rejected approve_ids reject_ids w Hacc)
        as (_ & -> & ->).
  - by destruct (approve_pending_accounts_db approve_ids reject_ids w)
      as (_ & -> & _).
Qed.

Lemma reachable_synced `{Bcrypt} w : reachable w → conn w = db w.
Proof.
  intros [steps <-]. induction steps as [|st steps IH] using rev_ind; [done|].
  unfold run. rewrite foldl_snoc. by apply step_synced.
Qed.

(** ** Nothing is revoked *)

Lemma rows_insert_rows_prefix {A} (l : list A) (t : Table A) :
  rows t `prefix_of` rows (insert_rows l t).
Proof.
  revert t. induction l as [|a l IH]; intros t; [done|].
  unfold insert_rows in *. simpl. etrans; [|apply IH].
  simpl. by apply prefix_app_r.
Qed.

Lemma approve_pending_users_extends approve_ids reject_ids w :
  rows (users (db w))
    `prefix_of`
    rows (users (db (approve_pending_users approve_ids reject_ids w).2)).
Proof.
  rewrite approve_pending_users_run. cbv zeta.
  destruct (merge_sort _ (rows (pending_users (db w)))); [done|].
  destruct approve_ids as [|a approve_ids].
  - rewrite db_reject_and_commit. unfold mk_world. cbn [conn].
    by destruct reject_ids.
  - case_decide; [|done].
    rewrite db_reject_and_commit. unfold mk_world. cbn [conn].
    destruct reject_ids; unfold delete_pending_users; simpl;
      apply rows_insert_rows_prefix.
Qed.

Lemma step_keeps_extends `{Bcrypt} us gas ags st :
  preserves (extends us gas ags) (step st).
Proof.
  destruct st as [e c|approve_ids reject_ids|approve_ids reject_ids]; simpl.
  - destruct c; simpl;
      unfold register, login, fetch_user, logout, upload_account, list_accounts,
        grant_access, confirm_access, share_account, pending_access;
      preserving; try done.
    match goal with
    | Hd : extends _ _ _ ?d |- _ => destruct Hd as (Hus & Hgas & Hags)
    end.
    split; [done|]. split; [done|]. simpl. by apply prefix_app_r.
  - intros w [(Hus & Hgas & Hags) _]. unfold holds.
    assert (extends us gas ags
              (db (approve_pending_users approve_ids reject_ids w).2)) as Hd.
    { split; [|split].
      - etrans; [exact Hus|]. apply approve_pending_users_extends.
      - destruct (decide (users_accepts (users (db w))
                            (approved_users approve_ids (db w)))) as [Hacc|Hacc].
        + by destruct (approve_pending_users_db approve_ids reject_ids w Hacc)
            as (_ & _ & _ & _ & -> & _).
        + by destruct (approve_pending_users_rejected approve_ids reject_ids w
                         Hacc) as (_ & -> & _).
      - destruct (decide (users_accepts (users (db w))
                            (approved_users approve_ids (db w)))) as [Hacc|Hacc].
        + by destruct (approve_pending_users_db approve_ids reject_ids w Hacc)
            as (_ & _ & _ & _ & _ & _ & _ & ->).
        + by destruct (approve_pending_users_rejected approve_ids reject_ids w
                         Hacc) as (_ & -> & _). }
    split; [done|].
    destruct (decide (users_accepts (users (db w))
                        (approved_users approve_ids (db w)))) as [Hacc|Hacc].
    + by destruct (approve_pending_users_db approve_ids reject_ids w Hacc)
        as (_ & -> & _).
    + destruct (approve_pending_users_rejected approve_ids reject_ids w Hacc)
        as (_ & Hdb & ->). by rewrite <- Hdb.
  - unfold approve_pending_accounts, insert_game_accounts_select.
    preserving; try done.
    match goal with
    | Hd : extends _ _ _ ?d |- _ => destruct Hd as (Hus & Hgas & Hags)
    end.
    split; [done|]. split; [|done]. simpl.
    etrans; [exact Hgas|]. apply rows_insert_rows_prefix.
Qed.

Lemma reachable_run `{Bcrypt} steps w : reachable w → reachable (run steps w).
Proof.
  intros [before <-]. exists (before ++ steps). unfold run. apply foldl_app.
Qed.

(** X21: nothing is ever revoked. From any state the system reaches,
    whatever chat commands and console resolutions follow, the rows of
    [users], of [game_accounts] and of [access_grants] that exist stay as
    they are, in place, and later rows only come after them: no command
    removes or alters a registered user, a credential or a grant. *)
Theorem nothing_is_revoked `{Bcrypt} steps w :
  reachable w →
  rows (users (db w)) `prefix_of` rows (users (db (run steps w)))
  ∧ rows (game_accounts (db w))
      `prefix_of` rows (game_accounts (db (run steps w)))
  ∧ rows (access_grants (db w))
      `prefix_of` rows (access_grants (db (run steps w))).
Proof.
  intros Hw.
  change (extends (rows (users (db w))) (rows (game_accounts (db w)))
            (rows (access_grants (db w))) (db (run steps w))).
  induction steps as [|st steps IH] using rev_ind; [done|].
  unfold run. rewrite foldl_snoc. fold (run steps w).
  apply (step_keeps_extends _ _ _ st (run steps w)).
  split; [done|].
  by rewrite (reachable_synced (run steps w)) by (by apply reachable_run).
Qed.

Lemma nothing_is_revoked_witness :
  rows (access_grants (db accepted))
    `prefix_of`
    rows (access_grants
            (db (@run example_bcrypt
                   [ Bot (example_env 1001 60) (GrantAccess 1 ["bob"]);
                     Bot (example_env 1002 61) (ConfirmAccess 1);
                     Bot (example_env 1001 62) Logout;
                     ResolveUsers [] [1; 2] ]
                   accepted))).
Proof.
  apply (@nothing_is_revoked example_bcrypt).
  apply reachable_after. exists onboarding. unfold invited. reflexivity.
Defined.

(** ** The secrets of [share_account] reach the direct message only *)

(** X22: the two secrets given to [share_account] influence nothing but
    the text of the direct message: with any other two strings in their
    place, in the same state and context, the command ends the same way,
    leaves the same sessions and database, sends the same replies to the
    channel, executes the same statements and addresses its direct
    message, if it sends one, to the same member. *)
Theorem share_account_secrets_only_in_direct e account_id target_username
    game_username game_password game_username' game_password' w :
  let r := share_account e account_id target_username game_username
             game_password w in
  let r' := share_account e account_id target_username game_username'
              game_password' w in
  r.1 = r'.1
  ∧ sessions r.2 = sessions r'.2
  ∧ db r.2 = db r'.2
  ∧ replies (trace r.2) = replies (trace r'.2)
  ∧ (fst <$> direct_messages (trace r.2))
    = (fst <$> direct_messages (trace r'.2))
  ∧ filter not_direct (trace r.2) = filter not_direct (trace r'.2).
Proof.
  intros r r'. subst r r'.
  destruct (session_cases w e) as [Hout | [s Hs]].
  { unfold share_account. by rewrite !gated_logged_out. }
  destruct (owned (db w) account_id (username s)) as [|acct rest] eqn:Hown.
  { by rewrite !(share_account_not_owned _ _ _ _ _ _ s). }
  rewrite !(share_account_checked _ _ _ _ _ _ s acct rest) by done. cbv zeta.
  destruct (granted (db w) account_id target_username); [done|].
  destruct (guild (ctx e)) as [members|]; [|done].
  destruct (get_by_name members target_username) as [recipient|]; [|done].
  run_monad. repeat (split; [done|]).
  rewrite <- !app_assoc, !replies_app, !direct_messages_app, !fmap_app,
    !filter_app.
  by repeat split.
Qed.
